(** * Colour working-memory experiments: trial generator and response scorer

    A shallow embedding of the two experiment scripts

      - [change_detection_modified_Qian.py]  (discrete change detection), and
      - [continous_change_detection.py]      (continuous report on a colour wheel),

    restricted to the parts that decide what a session contains: the
    [Trial] class, [set_trials], [setup_subject], the run-time probe
    selection and the response loop of the continuous variant; then the
    trial loops of both scripts with their screens and output rows, and
    [pol2cart] of the two scripts under [misc/].

    Modelling decisions.

      - Python's [random] module is an external collaborator.  Its state is
        a _tape_ of raw draws; [randbelow n] consumes one entry and reduces it
        modulo [n].  Every sequence of outcomes the real generator can give is
        the behaviour of some tape, so a statement quantified over all tapes
        covers every run.  [random.seed] replaces the tape by the one the
        seeding function assigns to the seed.
      - Module-level lists that the scripts shuffle in place
        ([TRIAL_colorS], [TRIAL_colorS1], [TRIAL_colorS2]) live in the world
        that is threaded through the generator, next to the tape.
      - Exceptions are the [Raise] branch of the result type.
      - A colour is its triple of channel values, written as exact rationals
        in lowest terms; the generator only moves colours around.
      - A stimulus position is kept as the ring slot [pos] it was generated
        from; [coords] gives the coordinate pair the script stores for it.
      - The scorer works on real numbers: coordinates, distances and colour
        channels are idealised reals rather than binary64 values.
      - The trial loops are run on what the devices deliver (key presses,
        pointer frames, clock readings), given as lists; what the scripts do
        is the trace of events they leave.  Waiting loops on the clock are
        left out. *)

From Stdlib Require Import List ZArith QArith Lia Permutation Bool String Ascii DecimalString.
From Stdlib Require Import Reals Lra Qreals.
From stdpp Require Import base decidable list.
Import ListNotations.

Local Open Scope nat_scope.

(** ** The random source *)

Definition Tape := list nat.

(** One bounded draw: the next raw entry reduced below [n].  An exhausted
    tape keeps answering 0. *)
Definition randbelow (n : nat) (g : Tape) : nat * Tape :=
  match g with
  | [] => (0, [])
  | x :: g' => (x mod n, g')
  end.

(** ** Exceptions and the generator monad *)

Inductive PyError : Type :=
  | ValueError
  | IndexError.

Inductive Result (A : Type) : Type :=
  | Ok (a : A)
  | Raise (e : PyError).

Arguments Ok {A} a.
Arguments Raise {A} e.

Record World (G : Type) : Type := mkWorld { rng : Tape; globals : G }.

Arguments mkWorld {G} rng globals.
Arguments rng {G} w.
Arguments globals {G} w.

Definition M (G A : Type) : Type := World G -> Result (A * World G).

Definition ret {G A} (a : A) : M G A := fun w => Ok (a, w).

Definition bind {G A B} (c : M G A) (k : A -> M G B) : M G B :=
  fun w =>
    match c w with
    | Ok (a, w') => k a w'
    | Raise e => Raise e
    end.

Definition raise {G A} (e : PyError) : M G A := fun _ => Raise e.

Definition get_globals {G} : M G G := fun w => Ok (globals w, w).

Definition put_globals {G} (g : G) : M G unit :=
  fun w => Ok (tt, mkWorld (rng w) g).

Declare Scope gen_scope.
Delimit Scope gen_scope with gen.
Notation "x <- c ;; k" := (bind c (fun x => k))
  (at level 100, c at next level, right associativity) : gen_scope.
Notation "c ;;; k" := (bind c (fun _ => k))
  (at level 100, right associativity) : gen_scope.

Local Open Scope gen_scope.

(** ** The pieces of [random] the scripts call *)

(** [random.randint(a, b)]: [a + randbelow(b - a + 1)], and [ValueError]
    (empty range for randrange) when [b < a]. *)
Definition randint {G} (a b : Z) : M G Z :=
  fun w =>
    if (a <=? b)%Z
    then let '(r, g') := randbelow (Z.to_nat (b - a + 1)) (rng w) in
         Ok ((a + Z.of_nat r)%Z, mkWorld g' (globals w))
    else Raise ValueError.

(** [x[i], x[j] = x[j], x[i]] on a list. *)
Definition swap {A} (i j : nat) (x : list A) : list A :=
  match x !! i, x !! j with
  | Some a, Some b => <[j := a]> (<[i := b]> x)
  | _, _ => x
  end.

(** The loop of [random.shuffle]:
    [for i in reversed(range(1, len(x))): j = randbelow(i+1); swap]. *)
Fixpoint shuffle_from {A} (i : nat) (x : list A) (g : Tape) : list A * Tape :=
  match i with
  | 0 => (x, g)
  | S i' =>
      let '(j, g') := randbelow (S i) g in
      shuffle_from i' (swap i j x) g'
  end.

Definition shuffle_tape {A} (x : list A) (g : Tape) : list A * Tape :=
  shuffle_from (length x - 1) x g.

Definition shuffle {G A} (x : list A) : M G (list A) :=
  fun w =>
    let '(x', g') := shuffle_tape x (rng w) in
    Ok (x', mkWorld g' (globals w)).

(** [random.sample(population, 1)[0]] for a short population: the entry at
    index [randbelow(len)]; [ValueError] on an empty population. *)
Definition sample1 {G A} (population : list A) : M G A :=
  fun w =>
    let '(j, g') := randbelow (length population) (rng w) in
    match population !! j with
    | Some a => Ok (a, mkWorld g' (globals w))
    | None => Raise ValueError
    end.

(** ** Colours, positions and the [Trial] class *)

Definition Color : Type := Q * Q * Q.

Definition Position : Type := nat.

Record Trial : Type := mkTrial {
  rep_num : nat;
  trial_num : nat;
  num_stimuli : nat;
  stim_positions : list Position;
  change : bool;
  stim_colors : list Color;
  probe_colors : list Color
}.

#[global] Instance Q_eq_dec : EqDecision Q.
Proof. solve_decision. Defined.

Definition STIM_POS_RADIUS : Z := 4.

(** [set_positions]: twelve ring slots appended, shuffled in place, cut to
    [num_stimuli]. *)
Definition set_positions {G} (self : Trial) : M G Trial :=
  let ps := stim_positions self ++ seq 0 12 in
  ps' <- shuffle ps ;;
  ret (mkTrial (rep_num self) (trial_num self) (num_stimuli self)
         (firstn (num_stimuli self) ps')
         (change self) (stim_colors self) (probe_colors self)).

(** [for rep in range(n): ... append] as a monadic map over [range]. *)
Fixpoint for_each {G A B} (xs : list A) (body : A -> M G B) : M G (list B) :=
  match xs with
  | [] => ret []
  | x :: xs' =>
      b <- body x ;;
      bs <- for_each xs' body ;;
      ret (b :: bs)
  end.

(** Python list indexing [l[i]]: negative indices count from the end,
    anything out of range is an [IndexError]. *)
Definition py_index (len : nat) (i : Z) : option nat :=
  if (0 <=? i)%Z
  then (if (i <? Z.of_nat len)%Z then Some (Z.to_nat i) else None)
  else (if (0 <=? Z.of_nat len + i)%Z then Some (Z.to_nat (Z.of_nat len + i)) else None).

Definition getitem {G A} (l : list A) (i : Z) : M G A :=
  match py_index (length l) i with
  | Some k =>
      match l !! k with
      | Some a => ret a
      | None => raise IndexError
      end
  | None => raise IndexError
  end.

Definition setitem {G A} (l : list A) (i : Z) (v : A) : M G (list A) :=
  match py_index (length l) i with
  | Some k => ret (<[k := v]> l)
  | None => raise IndexError
  end.

(** ** What the two scripts share: [set_trials], [setup_subject], seeding *)

(** The module-level state a script mutates: its palette list(s) and
    [NUM_REPS]. *)
Record Globals (P : Type) : Type := mkGlobals { colors : P; NUM_REPS : nat }.

Arguments mkGlobals {P} colors NUM_REPS.
Arguments colors {P} g.
Arguments NUM_REPS {P} g.

Definition is_digit (c : ascii) : bool :=
  (48 <=? nat_of_ascii c) && (nat_of_ascii c <=? 57).

Fixpoint all_digits (s : string) : bool :=
  match s with
  | EmptyString => true
  | String c s' => is_digit c && all_digits s'
  end.

(** [str.isdigit()] *)
Definition isdigit (s : string) : bool :=
  match s with
  | EmptyString => false
  | _ => all_digits s
  end.

Fixpoint int_from (acc : Z) (s : string) : Z :=
  match s with
  | EmptyString => acc
  | String c s' => int_from (10 * acc + (Z.of_nat (nat_of_ascii c) - 48))%Z s'
  end.

(** [int(s)] on a string of digits. *)
Definition int_of (s : string) : Z := int_from 0%Z s.

Inductive DialogAnswer : Type :=
  | Cancel
  | Entered (text : string).

Inductive SetupOutcome : Type :=
  | Quit
  | StillAsking
  | Subject (subj_num : string) (file_name : string).

Section Script.

Variable P : Type.

(** The script's constants and its own [Trial] methods. *)
Variable NUM_TYPE : nat.
Variable Trial_init : nat -> nat -> Trial.
Variable set_colors : Trial -> M (Globals P) Trial.

(** The file system ([os.path.isfile] on the subject's save file) and the
    generator state [random.seed] installs for a seed. *)
Variable isfile : string -> bool.
Variable seed_tape : Z -> Tape.

(** The body of the two loops in [set_trials]. *)
Definition build_trial (trial rep : nat) : M (Globals P) Trial :=
  t1 <- set_positions (Trial_init trial rep) ;;
  set_colors t1.

(** [set_trials] up to, and excluding, the final shuffle. *)
Definition build_all : M (Globals P) (list Trial) :=
  g <- get_globals ;;
  rows <- for_each (seq 0 (NUM_REPS g))
            (fun rep => for_each (seq 0 NUM_TYPE)
                          (fun trial => build_trial trial rep)) ;;
  ret (concat rows).

Definition set_trials : M (Globals P) (list Trial) :=
  test_set <- build_all ;;
  shuffle test_set.

(** [setup_subject]: the dialog loop, run on the answers the operator
    gives.  Entering the test subject 999 sets [NUM_REPS] to 2. *)
Fixpoint setup_subject (answers : list DialogAnswer) (g : Globals P)
  : SetupOutcome * Globals P :=
  match answers with
  | [] => (StillAsking, g)
  | Cancel :: _ => (Quit, g)
  | Entered s :: rest =>
      if isdigit s then
        let file_name := (s ++ ".csv")%string in
        if (int_of s =? 999)%Z then (Subject s file_name, mkGlobals (colors g) 2)
        else if negb (isfile file_name) then (Subject s file_name, g)
        else setup_subject rest g
      else setup_subject rest g
  end.

(** [random.seed(int(subj_num))] *)
Definition random_seed (n : Z) : M (Globals P) unit :=
  fun w => Ok (tt, mkWorld (seed_tape n) (globals w)).

(** The experiment set-up as far as the trial list: subject dialog,
    seeding, [set_trials].  [None] when no subject was chosen. *)
Definition session (answers : list DialogAnswer) (w : World (Globals P))
  : option (Result (list Trial * World (Globals P))) :=
  match setup_subject answers (globals w) with
  | (Subject subj_num _, g) =>
      Some ((random_seed (int_of subj_num) ;;; set_trials) (mkWorld (rng w) g))
  | _ => None
  end.

End Script.

Arguments build_trial {P} Trial_init set_colors trial rep.
Arguments build_all {P} NUM_TYPE Trial_init set_colors.
Arguments set_trials {P} NUM_TYPE Trial_init set_colors.
Arguments setup_subject {P} isfile answers g.
Arguments random_seed {P} seed_tape n.
Arguments session {P} NUM_TYPE Trial_init set_colors isfile seed_tape answers w.

Definition with_colors (self : Trial) (ch : bool) (stim probe : list Color) : Trial :=
  mkTrial (rep_num self) (trial_num self) (num_stimuli self)
    (stim_positions self) ch stim probe.

(** ** [change_detection_modified_Qian.py] *)

Module Discrete.

Definition palette : list Color :=
  [ (-1, -1, -1);  (* Black *)
    (-1, -1, 1);   (* Blue *)
    (-1, 1, -1);   (* Green *)
    (-1, 1, 1);    (* Cyan *)
    (1, -1, -1);   (* Red *)
    (1, -1, 1);    (* Purple *)
    (1, 1, -1);    (* Yellow *)
    (1, 1, 1) ]%Q. (* White *)

(** [colors] holds [(TRIAL_colorS1, TRIAL_colorS2)]. *)
Definition Palettes : Type := list Color * list Color.

Definition NUM_TYPE : nat := 6.

Definition initial_globals : Globals Palettes := mkGlobals (palette, palette) 50.

Definition Trial_init (trial_num rep_num : nat) : Trial :=
  let num_stimuli :=
    match trial_num with
    | 0 => 1
    | 1 => 2
    | 2 => 3
    | 3 => 4
    | 4 => 8
    | 5 => 12
    | _ => 0
    end in
  mkTrial rep_num trial_num num_stimuli [] false [] [].

Definition set_colors (self : Trial) : M (Globals Palettes) Trial :=
  g <- get_globals ;;
  s1 <- shuffle (fst (colors g)) ;;
  put_globals (mkGlobals (s1, snd (colors g)) (NUM_REPS g)) ;;;
  s2 <- shuffle (snd (colors g)) ;;
  put_globals (mkGlobals (s1, s2) (NUM_REPS g)) ;;;
  let TRIAL_colorS := s1 ++ s2 in
  let stim := stim_colors self ++ TRIAL_colorS in
  let probe := probe_colors self ++ TRIAL_colorS in
  if rep_num self mod 2 =? 0 then
    rand_1 <- randint 0 (Z.of_nat (num_stimuli self) - 1) ;;
    rand_2 <- randint (Z.of_nat (num_stimuli self)) 13 ;;
    v <- getitem probe rand_2 ;;
    probe' <- setitem probe rand_1 v ;;
    ret (with_colors self true
           (firstn (num_stimuli self) stim) (firstn (num_stimuli self) probe'))
  else
    ret (with_colors self (change self)
           (firstn (num_stimuli self) stim) (firstn (num_stimuli self) probe)).

Definition build_trial := build_trial Trial_init set_colors.
Definition build_all := build_all NUM_TYPE Trial_init set_colors.
Definition set_trials := set_trials NUM_TYPE Trial_init set_colors.
Definition session := session NUM_TYPE Trial_init set_colors.

End Discrete.

(** ** [continous_change_detection.py] *)

Module Continuous.

Definition palette : list Color :=
  [ (-1, -1, -1);      (* Black *)
    (-1, -1, 1);       (* Blue *)
    (-1, 1, -1);       (* Green *)
    (-1, 1, 1);        (* Cyan *)
    (1, -1, -1);       (* Red *)
    (1, -1, 1);        (* Purple *)
    (1, 1, -1);        (* Yellow *)
    (1, 37 # 125, -1) ]%Q. (* Orange: 0.296 *)

Definition NUM_TYPE : nat := 3.

Definition initial_globals : Globals (list Color) := mkGlobals palette 50.

Definition Trial_init (trial_num rep_num : nat) : Trial :=
  let num_stimuli :=
    match trial_num with
    | 0 => 2
    | 1 => 4
    | 2 => 6
    | _ => 0
    end in
  mkTrial rep_num trial_num num_stimuli [] false [] [].

Definition set_colors (self : Trial) : M (Globals (list Color)) Trial :=
  g <- get_globals ;;
  TRIAL_colorS <- shuffle (colors g) ;;
  put_globals (mkGlobals TRIAL_colorS (NUM_REPS g)) ;;;
  let stim := stim_colors self ++ TRIAL_colorS in
  let probe := probe_colors self ++ TRIAL_colorS in
  if rep_num self mod 2 =? 0 then
    rand_1 <- randint 0 (Z.of_nat (num_stimuli self) - 1) ;;
    rand_2 <- randint (Z.of_nat (num_stimuli self)) 7 ;;
    v <- getitem probe rand_2 ;;
    probe' <- setitem probe rand_1 v ;;
    ret (with_colors self true
           (firstn (num_stimuli self) stim) (firstn (num_stimuli self) probe'))
  else
    ret (with_colors self (change self)
           (firstn (num_stimuli self) stim) (firstn (num_stimuli self) probe)).

Definition build_trial := build_trial Trial_init set_colors.
Definition build_all := build_all NUM_TYPE Trial_init set_colors.
Definition set_trials := set_trials NUM_TYPE Trial_init set_colors.
Definition session := session NUM_TYPE Trial_init set_colors.

End Continuous.

(** ** Coordinates *)

Definition Point : Type := (R * R)%type.

(** [math.radians] *)
Definition radians (deg : R) : R := (deg * PI / 180)%R.

(** The pair [set_positions] stores for slot [pos]:
    [angle = math.radians(360 / 12 * pos)], then
    [[math.cos(angle)*STIM_POS_RADIUS, math.sin(angle)*STIM_POS_RADIUS]]. *)
Definition coords (pos : Position) : Point :=
  let angle := radians (IZR (360 / 12 * Z.of_nat pos)) in
  (cos angle * IZR STIM_POS_RADIUS, sin angle * IZR STIM_POS_RADIUS)%R.

(** ** The colour wheel and the run-time of the continuous script *)

(** A wheel colour: a row of [rgb], three channel values. *)
Definition RColor : Type := (R * R * R)%type.

Definition vec2 (p : Point) : list R := [fst p; snd p].

Definition vec3 (c : RColor) : list R :=
  let '(r, g, b) := c in [r; g; b].

(** A palette colour as a row of reals. *)
Definition color_R (c : Color) : RColor :=
  let '(r, g, b) := c in (Q2R r, Q2R g, Q2R b).

(** One entry of [sklearn]'s [euclidean_distances]: the distance between
    two rows. *)
Fixpoint sum_sq (u v : list R) : R :=
  match u, v with
  | a :: u', b :: v' => ((a - b) * (a - b) + sum_sq u' v')%R
  | _, _ => 0%R
  end.

Definition euclidean_distance (u v : list R) : R := sqrt (sum_sq u v).

(** [np.argmin]: the index of the first smallest entry. *)
Fixpoint argmin_from (best : nat) (bestv : R) (i : nat) (l : list R) : nat :=
  match l with
  | [] => best
  | v :: l' =>
      if Rlt_dec v bestv then argmin_from i v (S i) l'
      else argmin_from best bestv (S i) l'
  end.

Definition argmin (l : list R) : nat :=
  match l with
  | [] => 0
  | v :: l' => argmin_from 0 v 1 l'
  end.

Definition n_circ : nat := 360.

Definition loop_radius : R := 8.

(** [xys]: for [theta] in [np.linspace(0, 360, n_circ, endpoint=False)] the
    point [(loop_radius * cos(theta*pi/180), loop_radius * sin(theta*pi/180))];
    entry [k] has [theta = k]. *)
Definition wheel_point (k : nat) : Point :=
  (loop_radius * cos (INR k * PI / 180), loop_radius * sin (INR k * PI / 180))%R.

Definition xys : list Point := map wheel_point (seq 0 n_circ).

(** [loc = np.argmin(euclidean_distances(stim.xys, [mousePos]))] *)
Definition loc_of (mousePos : Point) : nat :=
  argmin (map (fun p => euclidean_distance (vec2 p) (vec2 mousePos)) xys).

(** What one pass of the response loop reads from the devices:
    [mousePos target] is the pointer position read in the iteration of the
    inner [for target in range(num_stimuli)] loop, [buttons] the button states
    read after the flip. *)
Record Frame : Type := mkFrame { mousePos : nat -> Point; buttons : list bool }.

(** What the loop leaves behind for the output row. *)
Record Response : Type := mkResponse {
  probe_Color : Color;
  sub_resp_Color : RColor;
  judgement_Error : R
}.

(** [any(buttons)] *)
Definition any (bs : list bool) : bool := existsb (fun b => b) bs.

(** The disc that a [visual.Circle] of the given radius around the origin
    approximates. *)
Definition disk_contains (radius : R) (p : Point) : bool :=
  if Rle_dec (sqrt (fst p * fst p + snd p * snd p)) radius then true else false.

Section Scorer.

(** The colour table [rgb = misc.hsv2rgb(hsv)] of the toolkit, row by row,
    and the [contains] tests of the two masks ([mask1] of radius
    [loop_radius - 0.5], [mask2] of radius [loop_radius + 0.5]). *)
Variable rgb : nat -> RColor.
Variable mask1_contains : Point -> bool.
Variable mask2_contains : Point -> bool.

(** The fill the probe square is given in a pass, in the iteration
    [target == probe]: [rgb[loc]] if
    [not mask1.contains(mouse) and mask2.contains(mouse)], else [None]. *)
Definition probe_fill (probe : nat) (f : Frame) : option RColor :=
  if negb (mask1_contains (mousePos f probe)) && mask2_contains (mousePos f probe)
  then Some (rgb (loc_of (mousePos f probe)))
  else None.

(** [while pressed: ...] for a trial of [n] stimuli, run on the frames the
    devices deliver; it yields the fills shown pass by pass and, if a button
    went down, the response.  After the inner loop [loc] holds the value of its
    last iteration, [target = n - 1].  [None]: the loop is still polling when
    the frames end. *)
Fixpoint response_loop (n probe : nat) (probe_Color : Color) (frames : list Frame)
  : list (option RColor) * option Response :=
  match frames with
  | [] => ([], None)
  | f :: rest =>
      let loc := loc_of (mousePos f (n - 1)) in
      let fill := probe_fill probe f in
      if any (buttons f) then
        let sub_resp_Color := rgb loc in
        let judgement_Error :=
          euclidean_distance (vec3 sub_resp_Color) (vec3 (color_R probe_Color)) in
        ([fill], Some (mkResponse probe_Color sub_resp_Color judgement_Error))
      else
        let '(fills, r) := response_loop n probe probe_Color rest in
        (fill :: fills, r)
  end.

(** The probe part of one pass of the experiment loop:
    [probe = random.sample(np.arange(0, trial.num_stimuli), 1)[0]],
    [probe_Color = trial.stim_colors[probe]], then the response loop. *)
Definition run_trial {G} (trial : Trial) (frames : list Frame)
  : M G (nat * list (option RColor) * option Response) :=
  probe <- sample1 (seq 0 (num_stimuli trial)) ;;
  probe_Color <- getitem (stim_colors trial) (Z.of_nat probe) ;;
  let '(fills, r) := response_loop (num_stimuli trial) probe probe_Color frames in
  ret (probe, fills, r).

End Scorer.

(** ** Vocabulary of the statements *)

(** [returns c w a w'] : from world [w] the computation [c] finishes without
    an exception, with value [a] and world [w']. *)
Definition returns {G A} (c : M G A) (w : World G) (a : A) (w' : World G) : Prop :=
  c w = Ok (a, w').

(** [grid Q reps cols rows]: [rows] holds, for every [rep] of [reps] in
    order, one row with one [Q]-item per [trial] of [cols], in order. *)
Definition grid {B} (Q : nat -> nat -> B -> Prop) (reps cols : list nat)
    (rows : list (list B)) : Prop :=
  Forall2 (fun rep row => Forall2 (fun trial t => Q trial rep t) cols row) reps rows.

(** The tail of [set_colors], after the pool [TRIAL_colorS] has been put
    together: both scripts run the same statements, up to the literal upper
    bound [hi] of the second draw. *)
Definition change_step {G} (hi : Z) (self : Trial) (pool : list Color) : M G Trial :=
  let stim := stim_colors self ++ pool in
  let probe := probe_colors self ++ pool in
  if rep_num self mod 2 =? 0 then
    rand_1 <- randint 0 (Z.of_nat (num_stimuli self) - 1) ;;
    rand_2 <- randint (Z.of_nat (num_stimuli self)) hi ;;
    v <- getitem probe rand_2 ;;
    probe' <- setitem probe rand_1 v ;;
    ret (with_colors self true
           (firstn (num_stimuli self) stim) (firstn (num_stimuli self) probe'))
  else
    ret (with_colors self (change self)
           (firstn (num_stimuli self) stim) (firstn (num_stimuli self) probe)).

(** How the colours of a trial come out of the pool: the sample is the
    head of the pool; on an even repetition the probe is the head of the pool
    after entry [i] was overwritten with entry [j]. *)
Definition colors_from (pool : list Color) (hi : nat) (t : Trial) : Prop :=
  stim_colors t = firstn (num_stimuli t) pool /\
  if rep_num t mod 2 =? 0
  then change t = true /\
       exists i j v,
         i < num_stimuli t /\ num_stimuli t <= j <= hi /\ pool !! j = Some v /\
         probe_colors t = firstn (num_stimuli t) (<[i := v]> pool)
  else change t = false /\ probe_colors t = firstn (num_stimuli t) pool.

(** A trial as the loops of [set_trials] build it for the pair
    [(trial, rep)]. *)
Definition generated (num_of : nat -> nat) (is_pool : list Color -> Prop) (hi : nat)
    (trial rep : nat) (t : Trial) : Prop :=
  rep_num t = rep /\ trial_num t = trial /\ num_stimuli t = num_of trial /\
  (exists ps, ps ≡ₚ seq 0 12 /\ stim_positions t = firstn (num_stimuli t) ps) /\
  (exists pool, is_pool pool /\ colors_from pool hi t).

Definition discrete_pool (pool : list Color) : Prop :=
  exists s1 s2, pool = s1 ++ s2 /\ s1 ≡ₚ Discrete.palette /\ s2 ≡ₚ Discrete.palette.

Definition continuous_pool (pool : list Color) : Prop :=
  pool ≡ₚ Continuous.palette.

(** The module states the generator can be in. *)
Definition discrete_state (g : Globals Discrete.Palettes) : Prop :=
  fst (colors g) ≡ₚ Discrete.palette /\ snd (colors g) ≡ₚ Discrete.palette.

Definition continuous_state (g : Globals (list Color)) : Prop :=
  colors g ≡ₚ Continuous.palette.

Definition discrete_generated : nat -> nat -> Trial -> Prop :=
  generated (fun trial => num_stimuli (Discrete.Trial_init trial 0)) discrete_pool 13.

Definition continuous_generated : nat -> nat -> Trial -> Prop :=
  generated (fun trial => num_stimuli (Continuous.Trial_init trial 0)) continuous_pool 7.

(** Lengths agree with [num_stimuli]; the positions are distinct ring
    slots, and so are the coordinate pairs stored for them. *)
Definition well_shaped (t : Trial) : Prop :=
  length (stim_positions t) = num_stimuli t /\
  length (stim_colors t) = num_stimuli t /\
  length (probe_colors t) = num_stimuli t /\
  NoDup (stim_positions t) /\
  NoDup (map coords (stim_positions t)) /\
  Forall (fun pos => exists k, k < 12 /\
            coords pos = (cos (2 * PI * INR k / 12) * IZR STIM_POS_RADIUS,
                          sin (2 * PI * INR k / 12) * IZR STIM_POS_RADIUS)%R)
    (stim_positions t).

(** The module state when [set_trials] is called: the palettes as the
    script text lists them, [NUM_REPS] as [setup_subject] left it. *)
Definition discrete_world (g : Tape) (reps : nat) : World (Globals Discrete.Palettes) :=
  mkWorld g (mkGlobals (Discrete.palette, Discrete.palette) reps).

Definition continuous_world (g : Tape) (reps : nat) : World (Globals (list Color)) :=
  mkWorld g (mkGlobals Continuous.palette reps).

Definition key (t : Trial) : nat * nat := (rep_num t, trial_num t).

(** All [(repetition, condition)] pairs, repetition-major. *)
Definition pairs (reps types : nat) : list (nat * nat) :=
  flat_map (fun rep => map (fun trial => (rep, trial)) (seq 0 types)) (seq 0 reps).

(** The sample colours of a trial of the discrete script: pairwise
    distinct up to eight stimuli; beyond that, a whole shuffled palette followed
    by the first colours of the second shuffled palette, hence with
    repetitions. *)
Definition discrete_sample (t : Trial) : Prop :=
  if num_stimuli t <=? 8 then NoDup (stim_colors t)
  else ~ NoDup (stim_colors t) /\
       exists s1 s2,
         s1 ≡ₚ Discrete.palette /\ s2 ≡ₚ Discrete.palette /\
         stim_colors t = s1 ++ firstn (num_stimuli t - 8) s2.

(** [differ_only_at i stim probe]: same length, different entries at
    index [i], equal entries everywhere else. *)
Definition differ_only_at (i : nat) (stim probe : list Color) : Prop :=
  length stim = length probe /\ i < length stim /\
  stim !! i <> probe !! i /\
  forall k, k <> i -> stim !! k = probe !! k.

(** The change manipulation as the specification words it. *)
Definition change_as_specified (t : Trial) : Prop :=
  if rep_num t mod 2 =? 0
  then change t = true /\ exists i, differ_only_at i (stim_colors t) (probe_colors t)
  else change t = false /\ probe_colors t = stim_colors t.

(** What holds in both scripts: at most the entry at one index differs. *)
Definition change_at_most_one (t : Trial) : Prop :=
  if rep_num t mod 2 =? 0
  then change t = true /\
       exists i, i < num_stimuli t /\
         forall k, k <> i -> stim_colors t !! k = probe_colors t !! k
  else change t = false /\ probe_colors t = stim_colors t.

(** The trial an unknown condition index leaves behind. *)
Definition empty_trial (trial rep : nat) : Trial :=
  mkTrial rep trial 0 [] false [] [].

(** The pool [set_colors] works on: what its [random.shuffle] calls leave
    in the module-level palette(s), and the world they leave behind. *)
Definition discrete_shuffled (w : World (Globals Discrete.Palettes))
  : list Color * World (Globals Discrete.Palettes) :=
  let '(s1, g1) := shuffle_tape (fst (colors (globals w))) (rng w) in
  let '(s2, g2) := shuffle_tape (snd (colors (globals w))) g1 in
  (s1 ++ s2, mkWorld g2 (mkGlobals (s1, s2) (NUM_REPS (globals w)))).

Definition continuous_shuffled (w : World (Globals (list Color)))
  : list Color * World (Globals (list Color)) :=
  let '(s, g1) := shuffle_tape (colors (globals w)) (rng w) in
  (s, mkWorld g1 (mkGlobals s (NUM_REPS (globals w)))).

(** On an odd repetition [set_colors] hands out the head of the shuffled
    pool, however short the pool is, and draws nothing else. *)
Definition sliced {G} (set_colors : Trial -> M G Trial)
    (shuffled : World G -> list Color * World G) (self : Trial) (w : World G) : Prop :=
  if rep_num self mod 2 =? 0 then True
  else returns (set_colors self) w
         (with_colors self (change self)
            (firstn (num_stimuli self) (stim_colors self ++ fst (shuffled w)))
            (firstn (num_stimuli self) (probe_colors self ++ fst (shuffled w))))
         (snd (shuffled w)).

(** With at least one repetition and a pool shorter than the largest
    [num_stimuli] of the table, [set_trials] ends in an exception. *)
Definition short_pool_raises {G} (set_trials : M G (list Trial))
    (pool_of : G -> list Color) (reps_of : G -> nat) (need : nat) (w : World G) : Prop :=
  if (length (pool_of (globals w)) <? need) && (1 <=? reps_of (globals w))
  then exists e, set_trials w = Raise e
  else True.

(** The response recorded when the pass [f] of a trial of [n] stimuli is
    accepted for the probe colour [c]. *)
Definition accepted (rgb : nat -> RColor) (n : nat) (c : Color) (f : Frame) : Response :=
  mkResponse c (rgb (loc_of (mousePos f (n - 1))))
    (euclidean_distance (vec3 (rgb (loc_of (mousePos f (n - 1))))) (vec3 (color_R c))).

(** ** The experiment loop and the output rows *)

(** A cell of an output row. *)
Inductive Cell : Type :=
  | Text (s : string)
  | Number (n : nat)
  | Flag (b : bool)
  | Seconds (t : Q)
  | ColorCell (c : Color)
  | RColorCell (c : RColor)
  | RealCell (x : R).

Inductive Msg : Type :=
  | INS_MSG
  | BREAK_MSG
  | THANK_MSG.

(** What the participant does at the probe screen: [z] (change), [m] (no
    change), each with the time read from the clock, or [escape]. *)
Inductive Answer : Type :=
  | Responded (response : bool) (resp_time : Q)
  | Escape.

Inductive Event : Type :=
  | Message (msg : Msg)
  | SampleScreen (items : list (Position * Color))
  | ProbeScreen (items : list (Position * Color))
  | RowWritten (cells : list Cell).

(** How the loop ends: the list is used up, [core.quit()] after [escape],
    still waiting for a key when the answers end, or an uncaught exception. *)
Inductive Outcome : Type :=
  | Finished
  | Quitted
  | Waiting
  | Crashed (e : PyError).

(** [d[k]] on a dictionary written as a literal: the last entry for a key
    is the one kept; [None] is [KeyError]. *)
Definition dict_get (d : list (string * string)) (k : string) : option string :=
  fold_left (fun acc kv => if String.eqb (fst kv) k then Some (snd kv) else acc) d None.

(** [try: output.append(color_NAMES[str(colors[target])])]
    [except: output.append('NaN')].  [names] is [None] where the script never
    binds [color_NAMES] (NameError); a missing index (IndexError) and a missing
    key (KeyError) end in the same [except]. *)
Definition name_cell (names : option (list (string * string))) (py_str : Color -> string)
    (colors : list Color) (target : nat) : Cell :=
  match names with
  | None => Text "NaN"
  | Some d =>
      match colors !! target with
      | None => Text "NaN"
      | Some c =>
          match dict_get d (py_str c) with
          | Some name => Text name
          | None => Text "NaN"
          end
      end
  end.

(** [current_trial % 25 == 0 and current_trial != 0] *)
Definition break_due (current_trial : nat) : bool :=
  (current_trial mod 25 =? 0) && negb (current_trial =? 0).

(** The reads of one screen set-up,
    [for target in range(trial.num_stimuli)]: [stimuli[target]] out of
    [n_objects] objects, [trial.stim_positions[target]], [colors[target]];
    [None] is [IndexError]. *)
Definition screen_item (n_objects : nat) (colors : list Color) (trial : Trial)
    (target : nat) : option (Position * Color) :=
  if target <? n_objects then
    match stim_positions trial !! target, colors !! target with
    | Some p, Some c => Some (p, c)
    | _, _ => None
    end
  else None.

Fixpoint screen_from (item : nat -> option (Position * Color)) (targets : list nat)
  : Result (list (Position * Color)) :=
  match targets with
  | [] => Ok []
  | target :: rest =>
      match item target with
      | None => Raise IndexError
      | Some it =>
          match screen_from item rest with
          | Ok its => Ok (it :: its)
          | Raise e => Raise e
          end
      end
  end.

Definition screen (n_objects : nat) (colors : list Color) (trial : Trial)
  : Result (list (Position * Color)) :=
  screen_from (screen_item n_objects colors trial) (seq 0 (num_stimuli trial)).

Module DiscreteRun.

Definition HEADER_LIST : list string :=
  [ "Subject_Number"; "Trial_Number"; "Number_of_Stim";
    "Stim_color_1"; "Stim_color_2"; "Stim_color_3"; "Stim_color_4";
    "Stim_color_5"; "Stim_color_6"; "Stim_color_7"; "Stim_color_8";
    "Stim_color_9"; "Stim_color_10"; "Stim_color_11"; "Stim_color_12";
    "Probe_color_1"; "Probe_color_2"; "Probe_color_3"; "Probe_color_4";
    "Probe_color_5"; "Probe_color_6"; "Probe_color_7"; "Probe_color_8";
    "Probe_color_9"; "Probe_color_10"; "Probe_color_11"; "Probe_color_12";
    "Change_Present"; "Subject_Response"; "Response_Time" ]%string.

(** [stimuli]: twelve [visual.Rect] objects. *)
Definition n_objects : nat := 12.

Section Run.

(** Python's [str] on a colour, the key function of [color_NAMES]. *)
Variable py_str : Color -> string.

Definition color_NAMES : list (string * string) :=
  [ (py_str (-1, -1, -1)%Q, "Black");
    (py_str (-1, -1, 1)%Q, "Blue");
    (py_str (-1, 1, -1)%Q, "Green");
    (py_str (-1, 1, 1)%Q, "Cyan");
    (py_str (1, -1, -1)%Q, "Red");
    (py_str (1, -1, 1)%Q, "Purple");
    (py_str (1, 1, -1)%Q, "Yellow");
    (py_str (1, 1, 1)%Q, "White") ]%string.

(** The row written for a trial. *)
Definition output_row (subj_num : string) (current_trial : nat) (trial : Trial)
    (response : bool) (resp_time : Q) : list Cell :=
  [Text subj_num; Number current_trial; Number (num_stimuli trial)]
  ++ map (name_cell (Some color_NAMES) py_str (stim_colors trial)) (seq 0 12)
  ++ map (name_cell (Some color_NAMES) py_str (probe_colors trial)) (seq 0 12)
  ++ [Flag (change trial); Flag response; Seconds resp_time].

(** [for trial in test_set: ...], started with [current_trial] trials
    behind it, run on the participant's answers. *)
Fixpoint run_trials (subj_num : string) (current_trial : nat) (test_set : list Trial)
    (answers : list Answer) : list Event * Outcome :=
  match test_set with
  | [] => ([], Finished)
  | trial :: rest =>
      let current_trial := S current_trial in
      let pause := if break_due current_trial then [Message BREAK_MSG] else [] in
      match screen n_objects (stim_colors trial) trial with
      | Raise e => (pause, Crashed e)
      | Ok sample =>
          match screen n_objects (probe_colors trial) trial with
          | Raise e => (pause ++ [SampleScreen sample], Crashed e)
          | Ok probe =>
              let shown := pause ++ [SampleScreen sample; ProbeScreen probe] in
              match answers with
              | [] => (shown, Waiting)
              | Escape :: _ => (shown, Quitted)
              | Responded response resp_time :: answers' =>
                  let row := output_row subj_num current_trial trial response resp_time in
                  let '(events, outcome) := run_trials subj_num current_trial rest answers' in
                  (shown ++ RowWritten row :: events, outcome)
              end
          end
      end
  end.

(** The script from the instructions to the thanks. *)
Definition experiment (subj_num : string) (test_set : list Trial) (answers : list Answer)
  : list Event * Outcome :=
  let '(events, outcome) := run_trials subj_num 0 test_set answers in
  match outcome with
  | Finished => (Message INS_MSG :: events ++ [Message THANK_MSG], Finished)
  | _ => (Message INS_MSG :: events, outcome)
  end.

End Run.

End DiscreteRun.

Module ContinuousRun.

Definition HEADER_LIST : list string :=
  [ "Subject_Number"; "Trial_Number"; "Number_of_Stim"; "Stim_color_1";
    "Stim_color_2"; "Stim_color_3"; "Stim_color_4"; "Stim_color_5";
    "Stim_color_6"; "Probe_color"; "Subject_Response_color"; "Error (l2 norm)";
    "Response_Time" ]%string.

(** The row written for a trial; this script never binds [color_NAMES]. *)
Definition output_row (py_str : Color -> string) (subj_num : string)
    (current_trial : nat) (trial : Trial) (r : Response) (response : Q) : list Cell :=
  [Text subj_num; Number current_trial; Number (num_stimuli trial)]
  ++ map (name_cell None py_str (stim_colors trial)) (seq 0 6)
  ++ [ColorCell (probe_Color r); RColorCell (sub_resp_Color r);
      RealCell (judgement_Error r); Seconds response].

End ContinuousRun.

(** The rows and the break messages of a trace. *)
Definition rows_of (events : list Event) : list (list Cell) :=
  flat_map (fun ev => match ev with RowWritten cells => [cells] | _ => [] end) events.

Definition breaks_of (events : list Event) : nat :=
  length (List.filter (fun ev => match ev with Message BREAK_MSG => true | _ => false end)
            events).

(** A trial whose screens can be set up with [n_objects] objects. *)
Definition renderable (n_objects : nat) (t : Trial) : Prop :=
  num_stimuli t <= n_objects /\ num_stimuli t <= length (stim_positions t) /\
  num_stimuli t <= length (stim_colors t) /\ num_stimuli t <= length (probe_colors t).

(** ** [misc/elementArray.py], [misc/elementArray1.py] *)

Definition pol2cart (rho phi : R) : Point := (rho * cos phi, rho * sin phi)%R.

(** [circ_angles = np.linspace(-90, 270, n_circ)] with [n_circ = 30], and
    [circ_X, circ_Y = pol2cart(circ_angles, [loop_radius] * n_circ)] with
    [loop_radius = 10], entry [k]. *)
Definition circ_angle (k : nat) : R := (-90 + INR k * (360 / 29))%R.

Definition circ_point (k : nat) : Point := pol2cart (circ_angle k) 10.

(** ** More vocabulary *)

Definition occurrences (c : Color) (l : list Color) : nat :=
  length (List.filter (fun x => bool_decide (x = c)) l).

Definition count_trials (p : Trial -> bool) (ts : list Trial) : nat :=
  length (List.filter p ts).

(** An entry of the dialog that sends the operator back to the dialog. *)
Definition rejected (isfile : string -> bool) (a : DialogAnswer) : bool :=
  match a with
  | Cancel => false
  | Entered s =>
      negb (isdigit s)
      || (negb (int_of s =? 999)%Z && isfile (s ++ ".csv")%string)
  end.

(** The design of a session of [reps] repetitions of [types] conditions:
    change and no-change trials in all, and per condition the number of trials
    and of change trials. *)
Definition balanced (types reps : nat) (ts : list Trial) : Prop :=
  count_trials change ts = types * ((reps + 1) / 2) /\
  count_trials (fun t => negb (change t)) ts = types * (reps / 2) /\
  Forall (fun c =>
            count_trials (fun t => trial_num t =? c) ts = reps /\
            count_trials (fun t => (trial_num t =? c) && change t) ts = (reps + 1) / 2)
    (seq 0 types).

(** The colours shown in a trial of the discrete script: palette colours,
    none more than twice in the sample array, none more than twice in the probe
    array. *)
Definition discrete_colors (t : Trial) : Prop :=
  Forall (fun c => c ∈ Discrete.palette) (stim_colors t) /\
  Forall (fun c => c ∈ Discrete.palette) (probe_colors t) /\
  (forall c, occurrences c (stim_colors t) <= 2) /\
  (forall c, occurrences c (probe_colors t) <= 2).

(** The colours of a trial of the continuous script: palette colours, the
    probe colours pairwise distinct, and on a change trial the new colour is one
    that the sample array does not show. *)
Definition continuous_colors (t : Trial) : Prop :=
  Forall (fun c => c ∈ Continuous.palette) (stim_colors t) /\
  Forall (fun c => c ∈ Continuous.palette) (probe_colors t) /\
  NoDup (probe_colors t) /\
  if rep_num t mod 2 =? 0
  then exists i v,
         i < num_stimuli t /\ (v ∉ stim_colors t) /\
         probe_colors t = <[i := v]> (stim_colors t)
  else True.

(** ** Reading a row back *)

(** Python's [str] on a list of three integers, [str([1, -1, 1])]; the
    colours of the discrete script are written this way. *)
Definition str_int (z : Z) : string := NilZero.string_of_int (Z.to_int z).

Definition str_ints (c : Color) : string :=
  let '(r, g, b) := c in
  ("[" ++ str_int (Qnum r) ++ ", " ++ str_int (Qnum g) ++ ", " ++ str_int (Qnum b) ++ "]")%string.

(** The colour a name of the output file stands for. *)
Definition name_table : list (string * Color) :=
  [ ("Black", (-1, -1, -1)%Q); ("Blue", (-1, -1, 1)%Q); ("Green", (-1, 1, -1)%Q);
    ("Cyan", (-1, 1, 1)%Q); ("Red", (1, -1, -1)%Q); ("Purple", (1, -1, 1)%Q);
    ("Yellow", (1, 1, -1)%Q); ("White", (1, 1, 1)%Q) ]%string.

Definition color_of_name (s : string) : option Color :=
  match List.find (fun p => String.eqb (fst p) s) name_table with
  | Some p => Some (snd p)
  | None => None
  end.

Definition decode_cell (c : Cell) : option Color :=
  match c with
  | Text s => color_of_name s
  | _ => None
  end.

(** The colours named in a run of cells; cells that name no colour
    (['NaN']) are skipped. *)
Definition decode_colors (cells : list Cell) : list Color := omap decode_cell cells.

(** What a screen of a trial shows: item [k] at position [k] of the
    trial. *)
Definition items_of (colors : list Color) (t : Trial) : list (Position * Color) :=
  zip (firstn (num_stimuli t) (stim_positions t)) (firstn (num_stimuli t) colors).

Definition answered (a : Answer) : Prop := a <> Escape.

(** ** The sample screen of the continuous script *)

(** [if trial.stim_colors[target]==[-1,-1,-1]: ... rgb[ix,:,:][0] else:
    trial.stim_colors[target]]: the fill a sample item is given; [ix] is the
    index [np.random.choice] drew for it. *)
Definition black : Color := (-1, -1, -1)%Q.

Definition sample_fill (rgb : nat -> RColor) (ix : nat) (c : Color) : RColor :=
  if bool_decide (c = black) then rgb ix else color_R c.

(** Distance from the centre of the screen. *)
Definition radius_of (p : Point) : R := sqrt (fst p * fst p + snd p * snd p).

(** A colour of the ['rgb'] colour space: every channel between -1 and 1. *)
Definition in_cube (c : RColor) : Prop :=
  let '(r, g, b) := c in (-1 <= r <= 1 /\ -1 <= g <= 1 /\ -1 <= b <= 1)%R.

(** ** The stimuli on the screen *)

(** [STIM_SIZE]: width and height of a stimulus [visual.Rect], in the
    discrete and in the continuous script. *)
Definition discrete_STIM_SIZE : R := 0.65%R.

Definition continuous_STIM_SIZE : R := 1%R.

(** Two upright squares of side [size] with these centres share inner
    points. *)
Definition overlap (size : R) (p q : Point) : Prop :=
  (Rabs (fst p - fst q) < size)%R /\ (Rabs (snd p - snd q) < size)%R.

(** The items of a trial keep clear of each other. *)
Definition apart (size : R) (t : Trial) : Prop :=
  forall i j p q,
    i <> j -> stim_positions t !! i = Some p -> stim_positions t !! j = Some q ->
    (2 <= euclidean_distance (vec2 (coords p)) (vec2 (coords q)))%R
    /\ ~ overlap size (coords p) (coords q).

(** Two screens that show the same thing except, possibly, in one item. *)
Definition same_but_one {A} (l k : list A) : Prop :=
  length l = length k /\ exists i, forall j, j <> i -> l !! j = k !! j.

(** The two screens of a trial of the discrete script. *)
Definition screens_agree (t : Trial) : Prop :=
  map fst (items_of (stim_colors t) t) = stim_positions t
  /\ map fst (items_of (probe_colors t) t) = stim_positions t
  /\ same_but_one (items_of (stim_colors t) t) (items_of (probe_colors t) t)
  /\ (change t = false -> items_of (probe_colors t) t = items_of (stim_colors t) t).

(** ** The trial loop of the continuous script *)

(** What the devices deliver during one pass of [for trial in test_set]:
    whether [get_keypress()] answers ['escape'] at the top of the pass, the
    index [np.random.choice] draws for a target, the frames of the response
    loop, and the time [toc - tic] read when the loop is left. *)
Record Pass : Type := mkPass {
  escape_key : bool;
  wheel_draws : nat -> nat;
  frames_of : list Frame;
  seconds : Q
}.

(** A pass in which nothing happens. *)
Definition idle : Pass := mkPass false (fun _ => 0) [] 0.

Inductive WheelEvent : Type :=
  | WMessage (msg : Msg)
  | WSample (items : list (Position * RColor))
  | WProbe (probe : nat) (fills : list (option RColor))
  | WRow (cells : list Cell).

Definition wheel_rows (events : list WheelEvent) : list (list Cell) :=
  flat_map (fun ev => match ev with WRow cells => [cells] | _ => [] end) events.

Module ContinuousLoop.

(** [stimuli]: six [visual.Rect] objects. *)
Definition n_objects : nat := 6.

Section Run.

Variable rgb : nat -> RColor.
Variable mask1_contains : Point -> bool.
Variable mask2_contains : Point -> bool.
Variable py_str : Color -> string.
Variable subj_num : string.
Variable G : Type.

(** The sample screen: the reads of [screen], and the fill of each item. *)
Definition sample_items (p : Pass) (trial : Trial) : Result (list (Position * RColor)) :=
  match screen n_objects (stim_colors trial) trial with
  | Ok items =>
      Ok (imap (fun target it => (fst it, sample_fill rgb (wheel_draws p target) (snd it)))
            items)
  | Raise e => Raise e
  end.

(** [for trial in test_set: ...], started with [current_trial] trials
    behind it; an uncaught exception ends the script. *)
Fixpoint run_trials (current_trial : nat) (test_set : list Trial) (passes : list Pass)
    (w : World G) : list WheelEvent * Outcome * World G :=
  match test_set with
  | [] => ([], Finished, w)
  | trial :: rest =>
      let p := hd idle passes in
      if escape_key p then ([], Quitted, w)
      else
        let current_trial := S current_trial in
        let pause := if break_due current_trial then [WMessage BREAK_MSG] else [] in
        match sample_items p trial with
        | Raise e => (pause, Crashed e, w)
        | Ok sample =>
            match run_trial rgb mask1_contains mask2_contains trial (frames_of p) w with
            | Raise e => (pause ++ [WSample sample], Crashed e, w)
            | Ok (probe, fills, None, w') =>
                (pause ++ [WSample sample; WProbe probe fills], Waiting, w')
            | Ok (probe, fills, Some r, w') =>
                let row :=
                  ContinuousRun.output_row py_str subj_num current_trial trial r (seconds p) in
                let '(events, outcome, w'') := run_trials current_trial rest (tl passes) w' in
                (pause ++ [WSample sample; WProbe probe fills] ++ WRow row :: events,
                 outcome, w'')
            end
        end
  end.

End Run.

End ContinuousLoop.

(** A pass in which the participant does not quit and clicks at some
    point. *)
Definition clicked (p : Pass) : Prop :=
  escape_key p = false /\ Exists (fun f => any (buttons f) = true) (frames_of p).

(** A trial the continuous script can show and probe. *)
Definition probeable (t : Trial) : Prop :=
  1 <= num_stimuli t <= 6 /\ length (stim_positions t) = num_stimuli t
  /\ length (stim_colors t) = num_stimuli t.

(** ** The draws, one by one *)

(** [framed c gl pre a gl']: run from the module state [gl], [c] uses up
    exactly the entries [pre] of the random source, whatever follows them, and
    finishes with value [a] and module state [gl']. *)
Definition framed {G A} (c : M G A) (gl : G) (pre : Tape) (a : A) (gl' : G) : Prop :=
  forall rest, c (mkWorld (pre ++ rest) gl) = Ok (a, mkWorld rest gl').

(** The bounded draws [j] that the loop of [random.shuffle] makes, for
    [i] from its first value down to 1. *)
Fixpoint shuffle_draws (i : nat) (g : Tape) : list nat :=
  match i with
  | 0 => []
  | S i' =>
      let '(j, g') := randbelow (S i) g in
      j :: shuffle_draws i' g'
  end.

(** The two draws of a change trial of [n] stimuli,
    [rand_1 = random.randint(0, n - 1)] and [rand_2 = random.randint(n, hi)],
    and what they leave of the random source. *)
Definition change_draws (n hi : nat) (g : Tape) : nat * nat * Tape :=
  let '(r1, g1) := randbelow n g in
  let '(r2, g2) := randbelow (hi - n + 1) g1 in
  (r1, n + r2, g2).

(** * Properties *)

(** ** The random source *)

Lemma randbelow_lt (n : nat) (g : Tape) : 0 < n -> fst (randbelow n g) < n.
Proof.
  intros Hn. destruct g as [|x g']; simpl; [lia|].
  apply Nat.mod_upper_bound. lia.
Qed.

(** Every outcome below the bound is the answer of some tape. *)
Lemma randbelow_any (n v : nat) (g : Tape) :
  v < n -> randbelow n (v :: g) = (v, g).
Proof. intros Hv. simpl. now rewrite Nat.mod_small. Qed.

Lemma swap_Permutation {A} (i j : nat) (x : list A) : swap i j x ≡ₚ x.
Proof.
  unfold swap.
  destruct (x !! i) as [a|] eqn:Hi; [|reflexivity].
  destruct (x !! j) as [b|] eqn:Hj; [|reflexivity].
  now apply Permutation_insert_swap.
Qed.

Lemma shuffle_from_Permutation {A} (i : nat) :
  forall (x : list A) (g : Tape), fst (shuffle_from i x g) ≡ₚ x.
Proof.
  induction i as [|i IH]; intros x g; [reflexivity|].
  cbn [shuffle_from].
  destruct (randbelow (S (S i)) g) as [j g'].
  rewrite IH. apply swap_Permutation.
Qed.

Lemma shuffle_tape_Permutation {A} (x : list A) (g : Tape) :
  fst (shuffle_tape x g) ≡ₚ x.
Proof. apply shuffle_from_Permutation. Qed.

(** ** Running the monad *)

Lemma returns_bind {G A B} (c : M G A) (k : A -> M G B) w a w1 b w2 :
  returns c w a w1 -> returns (k a) w1 b w2 -> returns (bind c k) w b w2.
Proof. unfold returns, bind. now intros ->. Qed.

Lemma returns_bind_inv {G A B} (c : M G A) (k : A -> M G B) w b w2 :
  returns (bind c k) w b w2 ->
  exists a w1, returns c w a w1 /\ returns (k a) w1 b w2.
Proof.
  unfold returns, bind. destruct (c w) as [[a w1]|e]; [|discriminate].
  intros H. now exists a, w1.
Qed.

Lemma shuffle_returns {G A} (x : list A) (w : World G) :
  exists x' g', returns (shuffle x) w x' (mkWorld g' (globals w)) /\ x' ≡ₚ x.
Proof.
  unfold returns, shuffle.
  pose proof (shuffle_tape_Permutation x (rng w)) as Hp.
  destruct (shuffle_tape x (rng w)) as [x' g'].
  now exists x', g'.
Qed.

Lemma shuffle_exact {G A} (x : list A) (w : World G) :
  returns (shuffle x) w (fst (shuffle_tape x (rng w)))
    (mkWorld (snd (shuffle_tape x (rng w))) (globals w)).
Proof. unfold returns, shuffle. now destruct (shuffle_tape x (rng w)). Qed.

Lemma randint_returns {G} (a b : Z) (w : World G) :
  (a <= b)%Z ->
  exists r g', returns (randint a b) w r (mkWorld g' (globals w)) /\ (a <= r <= b)%Z.
Proof.
  intros Hab. unfold returns, randint.
  destruct (Z.leb_spec a b) as [_|]; [|lia].
  pose proof (randbelow_lt (Z.to_nat (b - a + 1)) (rng w)) as Hlt.
  destruct (randbelow (Z.to_nat (b - a + 1)) (rng w)) as [r g'].
  exists (a + Z.of_nat r)%Z, g'. split; [reflexivity|].
  simpl in Hlt. lia.
Qed.

Lemma randint_empty {G} (a b : Z) (w : World G) :
  (b < a)%Z -> randint a b w = Raise ValueError.
Proof.
  intros Hab. unfold randint. destruct (Z.leb_spec a b); [lia|reflexivity].
Qed.

Lemma getitem_returns {G A} (l : list A) (i : Z) (w : World G) :
  (0 <= i < Z.of_nat (length l))%Z ->
  exists v, l !! Z.to_nat i = Some v /\ returns (getitem l i) w v w.
Proof.
  intros Hi. unfold returns, getitem, py_index.
  destruct (Z.leb_spec 0 i); [|lia].
  destruct (Z.ltb_spec i (Z.of_nat (length l))); [|lia].
  destruct (lookup_lt_is_Some_2 l (Z.to_nat i)) as [v Hv]; [lia|].
  exists v. now rewrite Hv.
Qed.

Lemma setitem_returns {G A} (l : list A) (i : Z) (v : A) (w : World G) :
  (0 <= i < Z.of_nat (length l))%Z ->
  returns (setitem l i v) w (<[Z.to_nat i := v]> l) w.
Proof.
  intros Hi. unfold returns, setitem, py_index.
  destruct (Z.leb_spec 0 i); [|lia].
  now destruct (Z.ltb_spec i (Z.of_nat (length l))); [|lia].
Qed.

(** A loop whose body keeps an invariant [I] of the module state and
    establishes [Q] for the item it appends never raises, and its result
    lists one [Q]-item per index, in order. *)
Lemma for_each_returns {G A B} (I : G -> Prop) (Q : A -> B -> Prop)
    (xs : list A) (body : A -> M G B) :
  (forall x w, In x xs -> I (globals w) ->
     exists b w', returns (body x) w b w' /\ Q x b /\ I (globals w')) ->
  forall w, I (globals w) ->
    exists bs w', returns (for_each xs body) w bs w' /\ Forall2 Q xs bs /\ I (globals w').
Proof.
  induction xs as [|x xs IH]; intros Hbody w Hw.
  - exists [], w. repeat split; auto.
  - destruct (Hbody x w) as (b & w1 & Hb & HQ & H1); [now left|assumption|].
    destruct IH with (w := w1) as (bs & w2 & Hbs & HQs & H2); [|assumption|].
    { intros y w' Hy. apply Hbody. now right. }
    exists (b :: bs), w2. split; [|split; [constructor|]; assumption].
    cbn [for_each]. eapply returns_bind; [eassumption|].
    eapply returns_bind; [eassumption|reflexivity].
Qed.

(** ** Positions *)

Lemma set_positions_returns {G} (self : Trial) (w : World G) :
  exists ps g',
    returns (set_positions self) w
      (mkTrial (rep_num self) (trial_num self) (num_stimuli self)
         (firstn (num_stimuli self) ps)
         (change self) (stim_colors self) (probe_colors self))
      (mkWorld g' (globals w))
    /\ ps ≡ₚ stim_positions self ++ seq 0 12.
Proof.
  destruct (shuffle_returns (stim_positions self ++ seq 0 12) w) as (ps & g' & Hs & Hp).
  exists ps, g'. split; [|assumption].
  unfold set_positions. eapply returns_bind; [eassumption|reflexivity].
Qed.

Lemma NoDup_firstn {A} (n : nat) (l : list A) : NoDup l -> NoDup (firstn n l).
Proof. intros H. eapply sublist_NoDup; [eassumption|apply sublist_take]. Qed.

(** ** The two loops of [set_trials] *)

Lemma grid_length {B} (Q : nat -> nat -> B -> Prop) reps cols rows :
  grid Q reps cols rows -> length (concat rows) = length reps * length cols.
Proof.
  unfold grid. induction 1 as [|rep row reps rows Hrow _ IH]; [reflexivity|].
  cbn [concat]. rewrite length_app, IH. apply Forall2_length in Hrow.
  simpl. lia.
Qed.

Lemma Forall2_Forall_In {A B} (R : A -> B -> Prop) (xs : list A) (ys : list B) :
  Forall2 R xs ys -> Forall (fun y => exists x, In x xs /\ R x y) ys.
Proof.
  induction 1 as [|x y xs ys Hxy _ IH]; constructor.
  - exists x. split; [now left|assumption].
  - eapply Forall_impl; [exact IH|]. intros b (a & Ha & Hab).
    exists a. split; [now right|assumption].
Qed.

Lemma grid_Forall {B} (Q : nat -> nat -> B -> Prop) reps cols rows :
  grid Q reps cols rows ->
  Forall (fun t => exists trial rep, In trial cols /\ In rep reps /\ Q trial rep t)
    (concat rows).
Proof.
  unfold grid. induction 1 as [|rep row reps rows Hrow _ IH]; [constructor|].
  cbn [concat]. apply Forall_app. split.
  - apply Forall2_Forall_In in Hrow.
    eapply Forall_impl; [exact Hrow|].
    intros t (trial & Hin & Ht). exists trial, rep.
    split; [assumption|split; [now left|assumption]].
  - eapply Forall_impl; [exact IH|].
    intros t (trial & rep' & H1 & H2 & H3). exists trial, rep'.
    split; [assumption|split; [now right|assumption]].
Qed.

(** The keys [(rep_num, trial_num)] of the generated list enumerate the
    pairs row by row. *)
Lemma grid_keys {B} (key : B -> nat * nat) reps cols rows :
  grid (fun trial rep t => key t = (rep, trial)) reps cols rows ->
  map key (concat rows) = flat_map (fun rep => map (fun trial => (rep, trial)) cols) reps.
Proof.
  unfold grid. induction 1 as [|rep row reps rows Hrow _ IH]; [reflexivity|].
  cbn [concat flat_map]. rewrite map_app, IH. f_equal.
  clear IH. induction Hrow as [|trial t cs row' Ht _ IHr]; [reflexivity|].
  simpl. now rewrite Ht, IHr.
Qed.

Lemma grid_impl {B} (Q Q' : nat -> nat -> B -> Prop) reps cols rows :
  (forall trial rep t, Q trial rep t -> Q' trial rep t) ->
  grid Q reps cols rows -> grid Q' reps cols rows.
Proof.
  intros HQ. unfold grid. intros H.
  eapply Forall2_impl; [exact H|]. intros rep row Hrow.
  eapply Forall2_impl; [exact Hrow|]. intros trial t. apply HQ.
Qed.

Section ScriptProperties.

Variable P : Type.
Variable NUM_TYPE : nat.
Variable Trial_init : nat -> nat -> Trial.
Variable set_colors : Trial -> M (Globals P) Trial.

(** [I]: what every reachable module state satisfies;
    [Q trial rep t]: what the trial built for the pair satisfies. *)
Variable I : Globals P -> Prop.
Variable Q : nat -> nat -> Trial -> Prop.

Hypothesis build_trial_returns :
  forall trial rep w, trial < NUM_TYPE -> I (globals w) ->
    exists t w', returns (build_trial Trial_init set_colors trial rep) w t w'
                 /\ Q trial rep t /\ I (globals w').

Lemma build_all_returns (w : World (Globals P)) :
  I (globals w) ->
  exists rows w',
    returns (build_all NUM_TYPE Trial_init set_colors) w (concat rows) w'
    /\ grid Q (seq 0 (NUM_REPS (globals w))) (seq 0 NUM_TYPE) rows
    /\ I (globals w').
Proof.
  intros Hw.
  destruct (for_each_returns I
              (fun rep row => Forall2 (fun trial t => Q trial rep t) (seq 0 NUM_TYPE) row)
              (seq 0 (NUM_REPS (globals w)))
              (fun rep => for_each (seq 0 NUM_TYPE)
                            (fun trial => build_trial Trial_init set_colors trial rep)))
    with (w := w) as (rows & w' & Hr & Hg & Hi); [|assumption|].
  - intros rep w0 _ Hw0.
    apply (for_each_returns I (fun trial t => Q trial rep t)); [|assumption].
    intros trial w1 Hin Hw1. apply build_trial_returns; [|assumption].
    apply in_seq in Hin. lia.
  - exists rows, w'. split; [|split; assumption].
    unfold build_all. eapply returns_bind; [reflexivity|].
    eapply returns_bind; [exact Hr|reflexivity].
Qed.

(** [set_trials] never raises; what it returns is a rearrangement of the
    [NUM_REPS * NUM_TYPE] trials built by the two loops. *)
Lemma set_trials_returns (w : World (Globals P)) :
  I (globals w) ->
  exists rows test_set w',
    returns (set_trials NUM_TYPE Trial_init set_colors) w test_set w'
    /\ test_set ≡ₚ concat rows
    /\ grid Q (seq 0 (NUM_REPS (globals w))) (seq 0 NUM_TYPE) rows
    /\ I (globals w').
Proof.
  intros Hw.
  destruct (build_all_returns w Hw) as (rows & w1 & Hb & Hg & H1).
  destruct (shuffle_returns (concat rows) w1) as (ts & g' & Hs & Hp).
  exists rows, ts, (mkWorld g' (globals w1)). repeat split; auto.
  unfold set_trials. eapply returns_bind; eassumption.
Qed.

End ScriptProperties.

(** ** The colour assignment *)

Lemma discrete_set_colors_unfold (self : Trial) :
  Discrete.set_colors self =
  (g <- get_globals ;;
   s1 <- shuffle (fst (colors g)) ;;
   put_globals (mkGlobals (s1, snd (colors g)) (NUM_REPS g)) ;;;
   s2 <- shuffle (snd (colors g)) ;;
   put_globals (mkGlobals (s1, s2) (NUM_REPS g)) ;;;
   change_step 13 self (s1 ++ s2)).
Proof. reflexivity. Qed.

Lemma continuous_set_colors_unfold (self : Trial) :
  Continuous.set_colors self =
  (g <- get_globals ;;
   TRIAL_colorS <- shuffle (colors g) ;;
   put_globals (mkGlobals TRIAL_colorS (NUM_REPS g)) ;;;
   change_step 7 self TRIAL_colorS).
Proof. reflexivity. Qed.

Lemma change_step_odd {G} (hi : Z) (self : Trial) (pool : list Color) (w : World G) :
  rep_num self mod 2 <> 0 ->
  returns (change_step hi self pool) w
    (with_colors self (change self)
       (firstn (num_stimuli self) (stim_colors self ++ pool))
       (firstn (num_stimuli self) (probe_colors self ++ pool))) w.
Proof.
  intros Hodd. unfold returns, change_step.
  destruct (Nat.eqb_spec (rep_num self mod 2) 0); [contradiction|reflexivity].
Qed.

Lemma change_step_even {G} (hi : nat) (self : Trial) (pool : list Color) (w : World G) :
  rep_num self mod 2 = 0 ->
  1 <= num_stimuli self <= hi -> hi < length (probe_colors self ++ pool) ->
  exists i j v g',
    i < num_stimuli self /\ num_stimuli self <= j <= hi /\
    (probe_colors self ++ pool) !! j = Some v /\
    returns (change_step (Z.of_nat hi) self pool) w
      (with_colors self true
         (firstn (num_stimuli self) (stim_colors self ++ pool))
         (firstn (num_stimuli self) (<[i := v]> (probe_colors self ++ pool))))
      (mkWorld g' (globals w)).
Proof.
  intros Heven Hn Hlen. unfold change_step. rewrite Heven. cbn [Nat.eqb].
  set (probe := probe_colors self ++ pool) in *.
  destruct (randint_returns 0 (Z.of_nat (num_stimuli self) - 1) w) as (r1 & g1 & Hr1 & Hb1); [lia|].
  destruct (randint_returns (Z.of_nat (num_stimuli self)) (Z.of_nat hi) (mkWorld g1 (globals w)))
    as (r2 & g2 & Hr2 & Hb2); [lia|]. cbn [globals] in Hr2.
  destruct (getitem_returns probe r2 (mkWorld g2 (globals w))) as (v & Hv & Hgv); [lia|].
  exists (Z.to_nat r1), (Z.to_nat r2), v, g2.
  split; [lia|]. split; [lia|]. split; [assumption|].
  eapply returns_bind; [exact Hr1|].
  eapply returns_bind; [exact Hr2|].
  eapply returns_bind; [exact Hgv|].
  eapply returns_bind; [apply setitem_returns; rewrite length_insert || lia|reflexivity].
Qed.

(** With no stimulus to replace, the first draw has an empty range. *)
Lemma change_step_even_empty {G} (hi : Z) (self : Trial) (pool : list Color) (w : World G) :
  rep_num self mod 2 = 0 -> num_stimuli self = 0 ->
  change_step hi self pool w = Raise ValueError.
Proof.
  intros Heven Hn. unfold change_step. rewrite Heven, Hn. cbn [Nat.eqb].
  unfold bind. now rewrite randint_empty.
Qed.

Lemma change_step_returns {G} (hi : nat) (self : Trial) (pool : list Color) (w : World G) :
  stim_colors self = [] -> probe_colors self = [] -> change self = false ->
  1 <= num_stimuli self <= hi -> hi < length pool ->
  exists t g',
    returns (change_step (Z.of_nat hi) self pool) w t (mkWorld g' (globals w)) /\
    rep_num t = rep_num self /\ trial_num t = trial_num self /\
    num_stimuli t = num_stimuli self /\ stim_positions t = stim_positions self /\
    colors_from pool hi t.
Proof.
  intros Hs Hp Hc Hn Hlen.
  destruct (Nat.eq_dec (rep_num self mod 2) 0) as [Heven|Hodd].
  - destruct (change_step_even hi self pool w) as (i & j & v & g' & Hi & Hj & Hv & Hr);
      [assumption|assumption|rewrite Hp; exact Hlen|].
    rewrite Hs, Hp in *. cbn [app] in *.
    eexists _, g'. split; [exact Hr|]. do 4 (split; [reflexivity|]).
    unfold colors_from, with_colors.
    cbn [stim_colors probe_colors change num_stimuli rep_num].
    split; [reflexivity|]. rewrite Heven. cbn [Nat.eqb].
    split; [reflexivity|]. now exists i, j, v.
  - pose proof (change_step_odd (Z.of_nat hi) self pool w Hodd) as Hr.
    rewrite Hs, Hp in *. cbn [app] in *.
    eexists _, (rng w). destruct w as [g gl]. split; [exact Hr|].
    do 4 (split; [reflexivity|]).
    unfold colors_from, with_colors.
    cbn [stim_colors probe_colors change num_stimuli rep_num].
    split; [reflexivity|].
    destruct (Nat.eqb_spec (rep_num self mod 2) 0); [contradiction|]. now split.
Qed.

Ltac step_returns H := eapply returns_bind; [exact H|].

Lemma discrete_Trial_init_load (trial : nat) :
  trial < Discrete.NUM_TYPE -> 1 <= num_stimuli (Discrete.Trial_init trial 0) <= 12.
Proof.
  unfold Discrete.NUM_TYPE. intros H.
  do 6 (destruct trial as [|trial]; [cbn; lia|]). lia.
Qed.

Lemma continuous_Trial_init_load (trial : nat) :
  trial < Continuous.NUM_TYPE -> 1 <= num_stimuli (Continuous.Trial_init trial 0) <= 6.
Proof.
  unfold Continuous.NUM_TYPE. intros H.
  do 3 (destruct trial as [|trial]; [cbn; lia|]). lia.
Qed.

Lemma discrete_build_trial_returns (trial rep : nat) (w : World (Globals Discrete.Palettes)) :
  trial < Discrete.NUM_TYPE -> discrete_state (globals w) ->
  exists t w', returns (Discrete.build_trial trial rep) w t w'
               /\ discrete_generated trial rep t /\ discrete_state (globals w').
Proof.
  unfold discrete_state. intros Htrial [H1 H2].
  pose proof (discrete_Trial_init_load trial Htrial) as Hload.
  destruct (set_positions_returns (Discrete.Trial_init trial rep) w) as (ps & g0 & Hpos & Hps).
  set (t1 := mkTrial _ _ _ _ _ _ _) in Hpos.
  set (w0 := mkWorld g0 (globals w)) in *.
  destruct (shuffle_returns (fst (colors (globals w0))) w0) as (s1 & g1 & Hs1 & Hp1).
  set (gl1 := mkGlobals (s1, snd (colors (globals w0))) (NUM_REPS (globals w0))).
  destruct (shuffle_returns (snd (colors (globals w0))) (mkWorld g1 gl1)) as (s2 & g2 & Hs2 & Hp2).
  set (gl2 := mkGlobals (s1, s2) (NUM_REPS (globals w0))).
  assert (Hlen : length (s1 ++ s2) = 16).
  { rewrite length_app, (Permutation_length Hp1), (Permutation_length Hp2).
    cbn [globals w0]. now rewrite (Permutation_length H1), (Permutation_length H2). }
  destruct (change_step_returns 13 t1 (s1 ++ s2) (mkWorld g2 gl2))
    as (t & g3 & Hr & Hrep & Htr & Hnum & Hsp & Hcol);
    [reflexivity|reflexivity|reflexivity|cbn; cbn in Hload; lia|lia|].
  exists t, (mkWorld g3 gl2). split; [|split].
  - unfold Discrete.build_trial, build_trial. step_returns Hpos.
    rewrite discrete_set_colors_unfold.
    eapply returns_bind; [reflexivity|].
    step_returns Hs1. eapply returns_bind; [reflexivity|].
    cbn [globals w0] in Hs2. step_returns Hs2.
    eapply returns_bind; [reflexivity|]. exact Hr.
  - unfold discrete_generated, generated. rewrite Hrep, Htr, Hnum, Hsp. cbn.
    do 3 (split; [reflexivity|]). split.
    + exists ps. split; [exact Hps|reflexivity].
    + exists (s1 ++ s2). split; [|exact Hcol].
      exists s1, s2. split; [reflexivity|]. cbn [globals w0] in *.
      split; [now rewrite Hp1|now rewrite Hp2].
  - cbn. cbn [globals w0] in *. split; [now rewrite Hp1|now rewrite Hp2].
Qed.

Lemma continuous_build_trial_returns (trial rep : nat) (w : World (Globals (list Color))) :
  trial < Continuous.NUM_TYPE -> continuous_state (globals w) ->
  exists t w', returns (Continuous.build_trial trial rep) w t w'
               /\ continuous_generated trial rep t /\ continuous_state (globals w').
Proof.
  intros Htrial H1. unfold continuous_state in H1.
  pose proof (continuous_Trial_init_load trial Htrial) as Hload.
  destruct (set_positions_returns (Continuous.Trial_init trial rep) w) as (ps & g0 & Hpos & Hps).
  set (t1 := mkTrial _ _ _ _ _ _ _) in Hpos.
  set (w0 := mkWorld g0 (globals w)) in *.
  destruct (shuffle_returns (colors (globals w0)) w0) as (s1 & g1 & Hs1 & Hp1).
  set (gl1 := mkGlobals s1 (NUM_REPS (globals w0))).
  assert (Hlen : length s1 = 8).
  { rewrite (Permutation_length Hp1). cbn [globals w0].
    now rewrite (Permutation_length H1). }
  destruct (change_step_returns 7 t1 s1 (mkWorld g1 gl1))
    as (t & g3 & Hr & Hrep & Htr & Hnum & Hsp & Hcol);
    [reflexivity|reflexivity|reflexivity|cbn; cbn in Hload; lia|lia|].
  exists t, (mkWorld g3 gl1). split; [|split].
  - unfold Continuous.build_trial, build_trial. step_returns Hpos.
    rewrite continuous_set_colors_unfold.
    eapply returns_bind; [reflexivity|].
    step_returns Hs1. eapply returns_bind; [reflexivity|]. exact Hr.
  - unfold continuous_generated, generated. rewrite Hrep, Htr, Hnum, Hsp. cbn.
    do 3 (split; [reflexivity|]). split.
    + exists ps. split; [exact Hps|reflexivity].
    + exists s1. split; [|exact Hcol].
      unfold continuous_pool. cbn [globals w0] in *. now rewrite Hp1.
  - unfold continuous_state. cbn. cbn [globals w0] in *. now rewrite Hp1.
Qed.

(** ** The ring of positions *)

Lemma cos_lt_1 (x : R) : (0 < x < 2 * PI)%R -> (cos x < 1)%R.
Proof.
  intros [H0 H2]. pose proof PI_RGT_0 as Hpi.
  destruct (Rle_dec x PI) as [Hle|Hgt].
  - rewrite <- cos_0. apply cos_decreasing_1; lra.
  - rewrite <- cos_2PI. apply cos_increasing_1; lra.
Qed.

Lemma cos_eq_1_small (d : R) : (- (2 * PI) < d < 2 * PI)%R -> cos d = 1%R -> d = 0%R.
Proof.
  intros [Hlo Hhi] Hc.
  destruct (Rtotal_order d 0) as [Hneg|[Hz|Hpos]]; [|assumption|].
  - pose proof (cos_lt_1 (- d)) as H. rewrite cos_neg in H. lra.
  - pose proof (cos_lt_1 d). lra.
Qed.

(** A point of the circle determines its angle in [[0, 2π)]. *)
Lemma cos_sin_inj (a b : R) :
  (0 <= a < 2 * PI)%R -> (0 <= b < 2 * PI)%R ->
  cos a = cos b -> sin a = sin b -> a = b.
Proof.
  intros Ha Hb Hc Hs.
  assert (Hd : cos (a - b) = 1%R).
  { rewrite cos_minus, Hc, Hs. pose proof (sin2_cos2 b) as H.
    unfold Rsqr in H. lra. }
  apply cos_eq_1_small in Hd; lra.
Qed.

Lemma coords_angle (pos : Position) :
  radians (IZR (360 / 12 * Z.of_nat pos)) = (2 * PI * INR pos / 12)%R.
Proof.
  unfold radians. change (360 / 12)%Z with 30%Z.
  rewrite mult_IZR, <- INR_IZR_INZ. lra.
Qed.

Lemma coords_inj (p q : Position) : p < 12 -> q < 12 -> coords p = coords q -> p = q.
Proof.
  intros Hp Hq Heq. unfold coords in Heq. rewrite !coords_angle in Heq.
  injection Heq as Hc Hs. unfold STIM_POS_RADIUS in *.
  pose proof PI_RGT_0 as Hpi.
  assert (H12 : INR 12 = 12%R) by (simpl; lra).
  assert (HP : (0 <= INR p < 12)%R).
  { split; [apply pos_INR|]. rewrite <- H12. now apply lt_INR. }
  assert (HQ : (0 <= INR q < 12)%R).
  { split; [apply pos_INR|]. rewrite <- H12. now apply lt_INR. }
  assert (Hang : (2 * PI * INR p / 12 = 2 * PI * INR q / 12)%R).
  { apply cos_sin_inj; [split; nra|split; nra|lra|lra]. }
  apply INR_eq. nra.
Qed.

Lemma NoDup_map_coords (ps : list Position) :
  Forall (fun pos => pos < 12) ps -> NoDup ps -> NoDup (map coords ps).
Proof.
  intros Hall Hnd. induction Hnd as [|p ps Hnotin Hnd IH]; [constructor|].
  inversion Hall as [|? ? Hp Hps]; subst. cbn [map]. constructor; [|now apply IH].
  rewrite list_elem_of_In, in_map_iff. intros (q & Hq & Hin).
  apply Hnotin. rewrite Forall_forall in Hps.
  assert (q = p) as ->; [|now apply list_elem_of_In].
  apply coords_inj; auto. apply Hps. now apply list_elem_of_In.
Qed.

(** ** Shape of a generated trial *)

Lemma generated_well_shaped num_of is_pool hi trial rep t :
  generated num_of is_pool hi trial rep t ->
  num_of trial <= 12 ->
  (forall pool, is_pool pool -> num_of trial <= length pool) ->
  well_shaped t.
Proof.
  intros (_ & _ & Hn & (ps & Hps & Hpos) & (pool & Hpool & Hst & Hpr)) H12 Hlen.
  specialize (Hlen pool Hpool). rewrite <- Hn in *.
  assert (Hslots : Forall (fun pos => pos < 12) (stim_positions t)).
  { rewrite Hpos. apply Forall_take. rewrite Hps. apply Forall_seq. lia. }
  assert (Hnd : NoDup (stim_positions t)).
  { rewrite Hpos. apply NoDup_firstn. rewrite Hps. apply NoDup_seq. }
  unfold well_shaped. repeat split.
  - assert (Hl : length ps = 12) by (rewrite (Permutation_length Hps); apply length_seq).
    rewrite Hpos, length_take. unfold Position in *. lia.
  - rewrite Hst, length_take. lia.
  - destruct (rep_num t mod 2 =? 0).
    + destruct Hpr as (_ & i & j & v & _ & _ & _ & ->).
      rewrite length_take, length_insert. lia.
    + destruct Hpr as (_ & ->). rewrite length_take. lia.
  - exact Hnd.
  - now apply NoDup_map_coords.
  - eapply Forall_impl; [exact Hslots|]. intros pos Hlt. exists pos.
    split; [assumption|]. unfold coords. now rewrite coords_angle.
Qed.

Lemma discrete_pool_length pool : discrete_pool pool -> length pool = 16.
Proof.
  intros (s1 & s2 & -> & H1 & H2).
  now rewrite length_app, (Permutation_length H1), (Permutation_length H2).
Qed.

Lemma continuous_pool_length pool : continuous_pool pool -> length pool = 8.
Proof. intros H. now rewrite (Permutation_length H). Qed.

Lemma discrete_generated_well_shaped trial rep t :
  trial < Discrete.NUM_TYPE -> discrete_generated trial rep t -> well_shaped t.
Proof.
  intros Ht Hg. pose proof (discrete_Trial_init_load trial Ht).
  eapply generated_well_shaped; [exact Hg|lia|].
  intros pool Hp. rewrite (discrete_pool_length pool Hp). lia.
Qed.

Lemma continuous_generated_well_shaped trial rep t :
  trial < Continuous.NUM_TYPE -> continuous_generated trial rep t -> well_shaped t.
Proof.
  intros Ht Hg. pose proof (continuous_Trial_init_load trial Ht).
  eapply generated_well_shaped; [exact Hg|lia|].
  intros pool Hp. rewrite (continuous_pool_length pool Hp). lia.
Qed.

(** ** Whole sessions *)

Lemma discrete_session_returns (g : Tape) (reps : nat) :
  exists rows test_set w',
    returns Discrete.set_trials (discrete_world g reps) test_set w'
    /\ test_set ≡ₚ concat rows
    /\ grid discrete_generated (seq 0 reps) (seq 0 Discrete.NUM_TYPE) rows.
Proof.
  destruct (set_trials_returns _ Discrete.NUM_TYPE Discrete.Trial_init Discrete.set_colors
              discrete_state discrete_generated discrete_build_trial_returns
              (discrete_world g reps)) as (rows & ts & w' & H1 & H2 & H3 & _).
  { split; apply Permutation_refl. }
  now exists rows, ts, w'.
Qed.

Lemma continuous_session_returns (g : Tape) (reps : nat) :
  exists rows test_set w',
    returns Continuous.set_trials (continuous_world g reps) test_set w'
    /\ test_set ≡ₚ concat rows
    /\ grid continuous_generated (seq 0 reps) (seq 0 Continuous.NUM_TYPE) rows.
Proof.
  destruct (set_trials_returns _ Continuous.NUM_TYPE Continuous.Trial_init
              Continuous.set_colors continuous_state continuous_generated
              continuous_build_trial_returns
              (continuous_world g reps)) as (rows & ts & w' & H1 & H2 & H3 & _).
  { apply Permutation_refl. }
  now exists rows, ts, w'.
Qed.

(** A property of every built trial is a property of every trial of the
    shuffled list. *)
Lemma session_Forall (Q : nat -> nat -> Trial -> Prop) (Phi : Trial -> Prop)
    (reps types : nat) rows test_set :
  (forall trial rep t, trial < types -> Q trial rep t -> Phi t) ->
  test_set ≡ₚ concat rows ->
  grid Q (seq 0 reps) (seq 0 types) rows ->
  Forall Phi test_set.
Proof.
  intros HQ Hperm Hgrid. rewrite Hperm.
  eapply Forall_impl; [exact (grid_Forall _ _ _ _ Hgrid)|].
  intros t (trial & rep & Hin & _ & Ht). apply (HQ trial rep); [|assumption].
  apply in_seq in Hin. lia.
Qed.

(** C6: every trial of the list [set_trials] returns, in either script, has
    [num_stimuli] positions, sample colours and probe colours; its positions
    are pairwise distinct, as slots and as stored coordinate pairs, and each
    is the point at angle [2π·k/12], [k < 12], of the ring of radius
    [STIM_POS_RADIUS]. *)
Theorem generated_trials_well_shaped (g : Tape) (reps : nat) :
  (exists test_set w',
     returns Discrete.set_trials (discrete_world g reps) test_set w'
     /\ Forall well_shaped test_set)
  /\
  (exists test_set w',
     returns Continuous.set_trials (continuous_world g reps) test_set w'
     /\ Forall well_shaped test_set).
Proof.
  split.
  - destruct (discrete_session_returns g reps) as (rows & ts & w' & Hr & Hp & Hg).
    exists ts, w'. split; [exact Hr|].
    eapply session_Forall; [|exact Hp|exact Hg].
    intros trial rep t. apply discrete_generated_well_shaped.
  - destruct (continuous_session_returns g reps) as (rows & ts & w' & Hr & Hp & Hg).
    exists ts, w'. split; [exact Hr|].
    eapply session_Forall; [|exact Hp|exact Hg].
    intros trial rep t. apply continuous_generated_well_shaped.
Qed.

(** ** Number and order of the trials *)

Lemma set_trials_after_build {P} NUM_TYPE Trial_init set_colors
    (w : World (Globals P)) built w1 :
  returns (build_all NUM_TYPE Trial_init set_colors) w built w1 ->
  exists test_set w2,
    returns (shuffle built) w1 test_set w2 /\
    returns (set_trials NUM_TYPE Trial_init set_colors) w test_set w2 /\
    test_set ≡ₚ built.
Proof.
  intros Hb. destruct (shuffle_returns built w1) as (ts & g' & Hs & Hp).
  exists ts, (mkWorld g' (globals w1)). split; [exact Hs|]. split; [|exact Hp].
  unfold set_trials. eapply returns_bind; eassumption.
Qed.

Lemma generated_key num_of is_pool hi trial rep t :
  generated num_of is_pool hi trial rep t -> key t = (rep, trial).
Proof. intros (Hr & Ht & _). unfold key. now rewrite Hr, Ht. Qed.

Lemma built_count {P} NUM_TYPE Trial_init set_colors (I : Globals P -> Prop)
    (Q : nat -> nat -> Trial -> Prop) (w : World (Globals P)) :
  (forall trial rep w, trial < NUM_TYPE -> I (globals w) ->
     exists t w', returns (build_trial Trial_init set_colors trial rep) w t w'
                  /\ Q trial rep t /\ I (globals w')) ->
  (forall trial rep t, Q trial rep t -> key t = (rep, trial)) ->
  I (globals w) ->
  exists built w1 test_set w2,
    returns (build_all NUM_TYPE Trial_init set_colors) w built w1 /\
    length built = NUM_REPS (globals w) * NUM_TYPE /\
    map key built = pairs (NUM_REPS (globals w)) NUM_TYPE /\
    returns (shuffle built) w1 test_set w2 /\
    returns (set_trials NUM_TYPE Trial_init set_colors) w test_set w2 /\
    test_set ≡ₚ built.
Proof.
  intros Hbuild Hkey Hw.
  destruct (build_all_returns P NUM_TYPE Trial_init set_colors I Q Hbuild w Hw)
    as (rows & w1 & Hb & Hg & _).
  destruct (set_trials_after_build _ _ _ w _ w1 Hb) as (ts & w2 & Hs & Hst & Hp).
  exists (concat rows), w1, ts, w2. split; [exact Hb|].
  split; [|split; [|split; [exact Hs|split; [exact Hst|exact Hp]]]].
  - rewrite (grid_length _ _ _ _ Hg), !length_seq. reflexivity.
  - apply grid_keys. eapply grid_impl; [|exact Hg]. intros trial rep t. apply Hkey.
Qed.

(** ** Distinctness of the sample colours *)

Lemma discrete_palette_NoDup : NoDup Discrete.palette.
Proof. apply (bool_decide_unpack _). vm_compute. exact I. Qed.

Lemma continuous_palette_NoDup : NoDup Continuous.palette.
Proof. apply (bool_decide_unpack _). vm_compute. exact I. Qed.

Lemma continuous_generated_NoDup trial rep t :
  continuous_generated trial rep t -> NoDup (stim_colors t).
Proof.
  intros (_ & _ & _ & _ & (pool & Hpool & Hst & _)).
  rewrite Hst. apply NoDup_firstn. unfold continuous_pool in Hpool.
  rewrite Hpool. apply continuous_palette_NoDup.
Qed.

Lemma discrete_generated_sample trial rep t :
  discrete_generated trial rep t -> discrete_sample t.
Proof.
  intros (_ & _ & _ & _ & (pool & (s1 & s2 & -> & H1 & H2) & Hst & _)).
  assert (Hlen : length s1 = 8) by now rewrite (Permutation_length H1).
  unfold discrete_sample. destruct (Nat.leb_spec (num_stimuli t) 8) as [Hle|Hgt].
  - rewrite Hst, take_app_le by lia. apply NoDup_firstn.
    rewrite H1. apply discrete_palette_NoDup.
  - assert (Hcut : stim_colors t = s1 ++ firstn (num_stimuli t - 8) s2).
    { rewrite Hst, take_app_ge by lia. now rewrite Hlen. }
    split; [|exists s1, s2; split; [exact H1|split; [exact H2|exact Hcut]]].
    rewrite Hcut. intros Hnd. apply NoDup_app in Hnd as (_ & Hdisj & _).
    destruct s2 as [|x s2]; [apply Permutation_length in H2; discriminate|].
    apply (Hdisj x).
    + rewrite H1, <- H2. now left.
    + destruct (num_stimuli t - 8) as [|m] eqn:Hm; [lia|]. now left.
Qed.

(** C1, as the code has it: generation never fails; in the continuous script,
    and in the discrete script up to eight stimuli, the sample colours of every
    generated trial are pairwise distinct; the twelve sample colours of the
    discrete script are a shuffled palette followed by four colours of the
    second shuffled palette. *)
Theorem sample_colors_of_generated_trials (g : Tape) (reps : nat) :
  (exists test_set w',
     returns Discrete.set_trials (discrete_world g reps) test_set w'
     /\ Forall discrete_sample test_set)
  /\
  (exists test_set w',
     returns Continuous.set_trials (continuous_world g reps) test_set w'
     /\ Forall (fun t => NoDup (stim_colors t)) test_set).
Proof.
  split.
  - destruct (discrete_session_returns g reps) as (rows & ts & w' & Hr & Hp & Hg).
    exists ts, w'. split; [exact Hr|].
    eapply session_Forall; [|exact Hp|exact Hg].
    intros trial rep t _. apply discrete_generated_sample.
  - destruct (continuous_session_returns g reps) as (rows & ts & w' & Hr & Hp & Hg).
    exists ts, w'. split; [exact Hr|].
    eapply session_Forall; [|exact Hp|exact Hg].
    intros trial rep t _. apply continuous_generated_NoDup.
Qed.

(** C1 as stated fails: in the two-repetition session of the discrete
    script on the all-zero tape, each trial with twelve stimuli shows four
    colours twice. *)
Lemma discrete_twelve_stimuli_repeat_colors :
  exists test_set w',
    returns Discrete.set_trials (discrete_world [] 2) test_set w'
    /\ ~ Forall (fun t => NoDup (stim_colors t)) test_set.
Proof.
  eexists _, _. split; [vm_compute; reflexivity|].
  intros HF. apply (bool_decide_pack _) in HF. vm_compute in HF. exact HF.
Qed.

(** ** The change manipulation *)

Lemma lookup_take_insert_ne {A} (n i k : nat) (v : A) (l : list A) :
  k <> i -> firstn n (<[i := v]> l) !! k = firstn n l !! k.
Proof.
  intros Hki. rewrite !lookup_take. case_decide; [|reflexivity].
  now apply list_lookup_insert_ne.
Qed.

Lemma colors_from_at_most_one pool hi t :
  colors_from pool hi t -> change_at_most_one t.
Proof.
  intros [Hst Hpr]. unfold change_at_most_one.
  destruct (rep_num t mod 2 =? 0).
  - destruct Hpr as (Hc & i & j & v & Hi & Hj & Hv & Hp). split; [exact Hc|].
    exists i. split; [exact Hi|]. intros k Hk.
    now rewrite Hst, Hp, lookup_take_insert_ne.
  - destruct Hpr as [Hc Hp]. split; [exact Hc|]. now rewrite Hp, Hst.
Qed.

(** When the pool has no repeated colour, the overwritten entry really
    changes. *)
Lemma colors_from_as_specified pool hi t :
  NoDup pool -> num_stimuli t <= length pool ->
  colors_from pool hi t -> change_as_specified t.
Proof.
  intros Hnd Hlen [Hst Hpr]. unfold change_as_specified.
  destruct (rep_num t mod 2 =? 0).
  - destruct Hpr as (Hc & i & j & v & Hi & Hj & Hv & Hp). split; [exact Hc|].
    exists i. unfold differ_only_at. rewrite Hst, Hp.
    rewrite !length_take, length_insert.
    split; [reflexivity|]. split; [lia|]. split.
    + rewrite !lookup_take_lt by exact Hi.
      rewrite list_lookup_insert_eq by lia.
      intros Heq. assert (i = j) by (eapply NoDup_lookup; eauto). lia.
    + intros k Hk. now rewrite lookup_take_insert_ne.
  - destruct Hpr as [Hc Hp]. split; [exact Hc|]. now rewrite Hp, Hst.
Qed.

Lemma continuous_generated_change trial rep t :
  trial < Continuous.NUM_TYPE -> continuous_generated trial rep t -> change_as_specified t.
Proof.
  intros Ht (_ & _ & Hn & _ & (pool & Hpool & Hcol)).
  pose proof (continuous_Trial_init_load trial Ht) as Hload.
  apply (colors_from_as_specified pool 7); [| |exact Hcol].
  - unfold continuous_pool in Hpool. rewrite Hpool. apply continuous_palette_NoDup.
  - rewrite (continuous_pool_length pool Hpool), Hn. lia.
Qed.

Lemma discrete_generated_change trial rep t :
  discrete_generated trial rep t -> change_at_most_one t.
Proof.
  intros (_ & _ & _ & _ & (pool & _ & Hcol)).
  exact (colors_from_at_most_one pool 13 t Hcol).
Qed.

(** The part of C2 the code satisfies: in the continuous script every
    generated trial has the specified change manipulation; in the discrete
    script the probe differs from the sample in at most one entry. *)
Lemma change_manipulation_of_generated_trials (g : Tape) (reps : nat) :
  (exists test_set w',
     returns Continuous.set_trials (continuous_world g reps) test_set w'
     /\ Forall change_as_specified test_set)
  /\
  (exists test_set w',
     returns Discrete.set_trials (discrete_world g reps) test_set w'
     /\ Forall change_at_most_one test_set).
Proof.
  split.
  - destruct (continuous_session_returns g reps) as (rows & ts & w' & Hr & Hp & Hg).
    exists ts, w'. split; [exact Hr|].
    eapply session_Forall; [|exact Hp|exact Hg].
    intros trial rep t. apply continuous_generated_change.
  - destruct (discrete_session_returns g reps) as (rows & ts & w' & Hr & Hp & Hg).
    exists ts, w'. split; [exact Hr|].
    eapply session_Forall; [|exact Hp|exact Hg].
    intros trial rep t _. apply discrete_generated_change.
Qed.

(** C2 at its failing input: in the two-repetition session of the discrete
    script on the all-zero tape, the eight-stimulus trial of repetition 0 is
    flagged [change = true] while its probe colours equal its sample colours. *)
Theorem discrete_change_flag_without_change :
  exists test_set w',
    returns Discrete.set_trials (discrete_world [] 2) test_set w'
    /\ Exists (fun t => rep_num t mod 2 = 0 /\ num_stimuli t = 8 /\ change t = true
                        /\ probe_colors t = stim_colors t) test_set.
Proof.
  eexists _, _. split; [vm_compute; reflexivity|].
  apply (bool_decide_unpack _). vm_compute. exact I.
Qed.

(** ** The two draws of a change trial *)

Lemma randint_any {G} (a b v : Z) (g : Tape) (gl : G) :
  (0 <= v <= b - a)%Z ->
  randint a b (mkWorld (Z.to_nat v :: g) gl) = Ok ((a + v)%Z, mkWorld g gl).
Proof.
  intros Hv. unfold randint. destruct (Z.leb_spec a b); [|lia].
  cbn [rng randbelow globals]. rewrite Nat.mod_small by lia.
  now rewrite Z2Nat.id by lia.
Qed.

Lemma randint_range {G} (a b r : Z) (w w' : World G) :
  randint a b w = Ok (r, w') -> (a <= r <= b)%Z.
Proof.
  intros H. destruct (Z.le_gt_cases a b) as [Hab|Hab].
  - destruct (randint_returns a b w Hab) as (r0 & g' & Hr & Hb).
    unfold returns in Hr. congruence.
  - rewrite randint_empty in H by lia. discriminate.
Qed.

(** ** Conditions outside the table, pools that are too short *)

Lemma discrete_Trial_init_unknown (trial rep : nat) :
  Discrete.NUM_TYPE <= trial -> Discrete.Trial_init trial rep = empty_trial trial rep.
Proof.
  unfold Discrete.NUM_TYPE. intros H.
  do 6 (destruct trial as [|trial]; [lia|]). reflexivity.
Qed.

Lemma continuous_Trial_init_unknown (trial rep : nat) :
  Continuous.NUM_TYPE <= trial -> Continuous.Trial_init trial rep = empty_trial trial rep.
Proof.
  unfold Continuous.NUM_TYPE. intros H.
  do 3 (destruct trial as [|trial]; [lia|]). reflexivity.
Qed.

Lemma set_positions_empty {G} (trial rep : nat) (w : World G) :
  exists g', returns (set_positions (empty_trial trial rep)) w
               (empty_trial trial rep) (mkWorld g' (globals w)).
Proof.
  destruct (set_positions_returns (empty_trial trial rep) w) as (ps & g' & Hr & _).
  exists g'. exact Hr.
Qed.

Lemma discrete_set_colors_sliced (self : Trial) (w : World (Globals Discrete.Palettes)) :
  sliced Discrete.set_colors discrete_shuffled self w.
Proof.
  unfold sliced. destruct (Nat.eqb_spec (rep_num self mod 2) 0) as [|Hodd]; [exact I|].
  unfold discrete_shuffled.
  pose proof (shuffle_exact (fst (colors (globals w))) w) as Hs1.
  destruct (shuffle_tape (fst (colors (globals w))) (rng w)) as [s1 g1].
  cbn [fst snd] in Hs1.
  set (gl1 := mkGlobals (s1, snd (colors (globals w))) (NUM_REPS (globals w))).
  pose proof (shuffle_exact (snd (colors (globals w))) (mkWorld g1 gl1)) as Hs2.
  cbn [rng globals] in Hs2.
  destruct (shuffle_tape (snd (colors (globals w))) g1) as [s2 g2].
  cbn [fst snd] in Hs2 |- *.
  rewrite discrete_set_colors_unfold.
  eapply returns_bind; [reflexivity|].
  step_returns Hs1. eapply returns_bind; [reflexivity|].
  step_returns Hs2. eapply returns_bind; [reflexivity|].
  now apply change_step_odd.
Qed.

Lemma continuous_set_colors_sliced (self : Trial) (w : World (Globals (list Color))) :
  sliced Continuous.set_colors continuous_shuffled self w.
Proof.
  unfold sliced. destruct (Nat.eqb_spec (rep_num self mod 2) 0) as [|Hodd]; [exact I|].
  unfold continuous_shuffled.
  pose proof (shuffle_exact (colors (globals w)) w) as Hs1.
  destruct (shuffle_tape (colors (globals w)) (rng w)) as [s1 g1].
  cbn [fst snd] in Hs1 |- *.
  rewrite continuous_set_colors_unfold.
  eapply returns_bind; [reflexivity|].
  step_returns Hs1. eapply returns_bind; [reflexivity|].
  now apply change_step_odd.
Qed.

Lemma discrete_build_unknown (trial rep : nat) (w : World (Globals Discrete.Palettes)) :
  Discrete.NUM_TYPE <= trial ->
  if rep mod 2 =? 0
  then Discrete.build_trial trial rep w = Raise ValueError
  else exists w', returns (Discrete.build_trial trial rep) w (empty_trial trial rep) w'.
Proof.
  intros Ht. unfold Discrete.build_trial, build_trial.
  rewrite (discrete_Trial_init_unknown trial rep Ht).
  destruct (set_positions_empty trial rep w) as (g0 & Hpos).
  destruct (Nat.eqb_spec (rep mod 2) 0) as [Heven|Hodd].
  - unfold bind at 1. rewrite Hpos. rewrite discrete_set_colors_unfold.
    unfold bind at 1. cbn [get_globals].
    destruct (shuffle_returns (fst (colors (globals w))) (mkWorld g0 (globals w)))
      as (s1 & g1 & Hs1 & _). cbn [globals] in Hs1.
    unfold bind at 1. cbn [globals]. rewrite Hs1.
    unfold bind at 1. cbn [put_globals rng].
    destruct (shuffle_returns (snd (colors (globals w)))
                (mkWorld g1 (mkGlobals (s1, snd (colors (globals w))) (NUM_REPS (globals w)))))
      as (s2 & g2 & Hs2 & _). cbn [globals] in Hs2.
    unfold bind at 1. rewrite Hs2.
    unfold bind at 1. cbn [put_globals rng].
    now apply change_step_even_empty.
  - pose proof (discrete_set_colors_sliced (empty_trial trial rep) (mkWorld g0 (globals w))) as Hs.
    unfold sliced in Hs. cbn [rep_num empty_trial] in Hs.
    destruct (Nat.eqb_spec (rep mod 2) 0); [contradiction|].
    eexists. step_returns Hpos. exact Hs.
Qed.

Lemma continuous_build_unknown (trial rep : nat) (w : World (Globals (list Color))) :
  Continuous.NUM_TYPE <= trial ->
  if rep mod 2 =? 0
  then Continuous.build_trial trial rep w = Raise ValueError
  else exists w', returns (Continuous.build_trial trial rep) w (empty_trial trial rep) w'.
Proof.
  intros Ht. unfold Continuous.build_trial, build_trial.
  rewrite (continuous_Trial_init_unknown trial rep Ht).
  destruct (set_positions_empty trial rep w) as (g0 & Hpos).
  destruct (Nat.eqb_spec (rep mod 2) 0) as [Heven|Hodd].
  - unfold bind at 1. rewrite Hpos. rewrite continuous_set_colors_unfold.
    unfold bind at 1. cbn [get_globals].
    destruct (shuffle_returns (colors (globals w)) (mkWorld g0 (globals w)))
      as (s1 & g1 & Hs1 & _). cbn [globals] in Hs1.
    unfold bind at 1. cbn [globals]. rewrite Hs1.
    unfold bind at 1. cbn [put_globals rng].
    now apply change_step_even_empty.
  - pose proof (continuous_set_colors_sliced (empty_trial trial rep) (mkWorld g0 (globals w))) as Hs.
    unfold sliced in Hs. cbn [rep_num empty_trial] in Hs.
    destruct (Nat.eqb_spec (rep mod 2) 0); [contradiction|].
    eexists. step_returns Hpos. exact Hs.
Qed.

(** *** What [set_trials] does with such a configuration *)

Lemma for_each_raise_after {G A B} (pre : list A) (x : A) (post : list A)
    (body : A -> M G B) (e : PyError) :
  forall w bs w1,
    returns (for_each pre body) w bs w1 -> body x w1 = Raise e ->
    for_each (pre ++ x :: post) body w = Raise e.
Proof.
  induction pre as [|y pre IH]; intros w bs w1 Hpre Hx.
  - unfold returns in Hpre. cbn in Hpre. injection Hpre as _ <-.
    cbn [app for_each]. unfold bind. now rewrite Hx.
  - cbn [for_each] in Hpre.
    apply returns_bind_inv in Hpre as (b & w2 & Hb & Hrest).
    apply returns_bind_inv in Hrest as (bs' & w3 & Hbs & Hret).
    unfold returns in Hret. cbn in Hret. injection Hret as _ <-.
    cbn [app for_each]. unfold bind at 1. rewrite Hb.
    unfold bind at 1. now rewrite (IH w2 bs' w3 Hbs Hx).
Qed.

Lemma for_each_preserves {G A B} (I : G -> Prop) (xs : list A) (body : A -> M G B) :
  (forall x w b w', returns (body x) w b w' -> I (globals w) -> I (globals w')) ->
  forall w bs w', returns (for_each xs body) w bs w' -> I (globals w) -> I (globals w').
Proof.
  intros Hbody. induction xs as [|x xs IH]; intros w bs w' Hr Hw.
  - unfold returns in Hr. cbn in Hr. now injection Hr as _ <-.
  - cbn [for_each] in Hr.
    apply returns_bind_inv in Hr as (b & w1 & Hb & Hrest).
    apply returns_bind_inv in Hrest as (bs' & w2 & Hbs & Hret).
    unfold returns in Hret. cbn in Hret. injection Hret as _ <-.
    eapply IH; [exact Hbs|]. eapply Hbody; eassumption.
Qed.

(** A body that raises at one item in every state raises the loop, at that
    item or before. *)
Lemma for_each_raises {G A B} (I : G -> Prop) (xs : list A) (body : A -> M G B) (x : A) :
  In x xs ->
  (forall y w b w', returns (body y) w b w' -> I (globals w) -> I (globals w')) ->
  (forall w, I (globals w) -> exists e, body x w = Raise e) ->
  forall w, I (globals w) -> exists e, for_each xs body w = Raise e.
Proof.
  intros Hin Hkeep Hx. induction xs as [|y xs IH]; [destruct Hin|].
  intros w Hw. cbn [for_each]. unfold bind at 1.
  destruct (body y w) as [[b w1]|e] eqn:Hy; [|now exists e].
  assert (H1 : I (globals w1)) by (eapply Hkeep; eassumption).
  destruct Hin as [->|Hin].
  - destruct (Hx w Hw) as [e He]. congruence.
  - destruct (IH Hin w1 H1) as [e He]. exists e. unfold bind. now rewrite He.
Qed.

(** With [NUM_TYPE] beyond the table, repetition 0 raises at the first
    condition outside it. *)
Lemma set_trials_raises {P} (table NT : nat) Trial_init set_colors
    (I : Globals P -> Prop) (e : PyError) (w : World (Globals P)) :
  (forall trial rep w, trial < table -> I (globals w) ->
     exists t w', returns (build_trial Trial_init set_colors trial rep) w t w'
                  /\ I (globals w')) ->
  (forall w, build_trial Trial_init set_colors table 0 w = Raise e) ->
  table < NT -> 1 <= NUM_REPS (globals w) -> I (globals w) ->
  set_trials NT Trial_init set_colors w = Raise e.
Proof.
  intros Hret Hraise Hlt Hreps Hw.
  unfold set_trials, build_all. unfold bind at 1. unfold bind at 1.
  cbn [get_globals]. unfold bind at 1.
  destruct (NUM_REPS (globals w)) as [|reps]; [lia|].
  cbn [seq for_each]. unfold bind at 1.
  replace NT with (table + S (NT - table - 1)) by lia.
  rewrite seq_app. cbn [seq Nat.add].
  destruct (for_each_returns I (fun _ _ => True) (seq 0 table)
              (fun trial => build_trial Trial_init set_colors trial 0))
    with (w := w) as (bs & w1 & Hbs & _ & _); [|exact Hw|].
  - intros trial w0 Hin Hw0. apply in_seq in Hin.
    destruct (Hret trial 0 w0) as (t & w' & Ht & Hi); [lia|exact Hw0|].
    exists t, w'. auto.
  - now rewrite (for_each_raise_after _ _ _ _ e w bs w1 Hbs (Hraise w1)).
Qed.

Lemma set_trials_raises_somewhere {P} (NT crit : nat) Trial_init set_colors
    (I : Globals P -> Prop) (w : World (Globals P)) :
  crit < NT -> 1 <= NUM_REPS (globals w) ->
  (forall trial rep w t w',
     returns (build_trial Trial_init set_colors trial rep) w t w' ->
     I (globals w) -> I (globals w')) ->
  (forall w, I (globals w) -> exists e, build_trial Trial_init set_colors crit 0 w = Raise e) ->
  I (globals w) ->
  exists e, set_trials NT Trial_init set_colors w = Raise e.
Proof.
  intros Hcrit Hreps Hkeep Hraise Hw.
  destruct (for_each_raises I (seq 0 (NUM_REPS (globals w)))
              (fun rep => for_each (seq 0 NT)
                            (fun trial => build_trial Trial_init set_colors trial rep)) 0)
    with (w := w) as [e He].
  - apply in_seq. lia.
  - intros rep w0 bs w' Hr Hw0.
    eapply (for_each_preserves I); [|exact Hr|exact Hw0].
    intros trial w1 t w2. apply Hkeep.
  - intros w0 Hw0.
    apply (for_each_raises I (seq 0 NT) _ crit); [apply in_seq; lia| |exact Hraise|exact Hw0].
    intros trial w1 t w2. apply Hkeep.
  - exact Hw.
  - exists e. unfold set_trials, build_all. unfold bind at 1. unfold bind at 1.
    cbn [get_globals]. unfold bind at 1. now rewrite He.
Qed.

Lemma returns_functional {G A} (c : M G A) w a1 w1 a2 w2 :
  returns c w a1 w1 -> returns c w a2 w2 -> a1 = a2 /\ w1 = w2.
Proof. unfold returns. intros H1 H2. rewrite H1 in H2. now injection H2. Qed.

Lemma shuffle_inv {G A} (x x' : list A) (w w' : World G) :
  returns (shuffle x) w x' w' -> x' ≡ₚ x /\ globals w' = globals w.
Proof.
  intros H. destruct (shuffle_returns x w) as (x0 & g0 & H0 & Hp).
  destruct (returns_functional _ _ _ _ _ _ H H0) as [-> ->]. now split.
Qed.

Lemma set_positions_inv {G} (self t : Trial) (w w' : World G) :
  returns (set_positions self) w t w' ->
  globals w' = globals w /\ rep_num t = rep_num self /\
  num_stimuli t = num_stimuli self /\
  stim_colors t = stim_colors self /\ probe_colors t = probe_colors self.
Proof.
  intros H. destruct (set_positions_returns self w) as (ps & g0 & H0 & _).
  destruct (returns_functional _ _ _ _ _ _ H H0) as [-> ->]. now repeat split.
Qed.

Lemma randint_inv {G} (a b r : Z) (w w' : World G) :
  returns (randint a b) w r w' -> (a <= r <= b)%Z /\ globals w' = globals w.
Proof.
  intros H. split; [exact (randint_range a b r w w' H)|].
  destruct (randint_returns a b w) as (r0 & g0 & H0 & _).
  { pose proof (randint_range a b r w w' H). lia. }
  now destruct (returns_functional _ _ _ _ _ _ H H0) as [_ ->].
Qed.

Lemma getitem_out_of_range {G A} (l : list A) (i : Z) (w : World G) :
  (Z.of_nat (length l) <= i)%Z -> getitem l i w = Raise IndexError.
Proof.
  intros Hi. unfold getitem, py_index.
  destruct (Z.leb_spec 0 i); [|lia].
  now destruct (Z.ltb_spec i (Z.of_nat (length l))); [lia|].
Qed.

Lemma getitem_inv {G A} (l : list A) (i : Z) (v : A) (w w' : World G) :
  returns (getitem l i) w v w' -> w' = w.
Proof.
  unfold returns, getitem. destruct (py_index (length l) i) as [k|]; [|discriminate].
  destruct (l !! k); [|discriminate]. now intros [= _ <-].
Qed.

Lemma setitem_inv {G A} (l l' : list A) (i : Z) (v : A) (w w' : World G) :
  returns (setitem l i v) w l' w' -> w' = w.
Proof.
  unfold returns, setitem. destruct (py_index (length l) i) as [k|]; [|discriminate].
  now intros [= _ <-].
Qed.

Lemma change_step_inv {G} (hi : Z) (self t : Trial) (pool : list Color) (w w' : World G) :
  returns (change_step hi self pool) w t w' -> globals w' = globals w.
Proof.
  unfold change_step. destruct (rep_num self mod 2 =? 0).
  - intros H.
    apply returns_bind_inv in H as (r1 & w1 & H1 & H).
    apply returns_bind_inv in H as (r2 & w2 & H2 & H).
    apply returns_bind_inv in H as (v & w3 & H3 & H).
    apply returns_bind_inv in H as (p' & w4 & H4 & H).
    unfold returns in H. cbn in H. injection H as _ <-.
    apply randint_inv in H1 as [_ E1]. apply randint_inv in H2 as [_ E2].
    apply getitem_inv in H3 as ->. apply setitem_inv in H4 as ->. congruence.
  - unfold returns. cbn. now intros [= _ <-].
Qed.

(** On an even repetition, a pool shorter than [num_stimuli] makes the
    lookup of the replacement colour fail. *)
Lemma change_step_short_pool {G} (hi : Z) (self : Trial) (pool : list Color)
    (w : World G) :
  rep_num self mod 2 = 0 ->
  length (probe_colors self ++ pool) <= num_stimuli self ->
  exists e, change_step hi self pool w = Raise e.
Proof.
  intros Heven Hshort. unfold change_step. rewrite Heven. cbn [Nat.eqb].
  unfold bind at 1.
  destruct (randint 0 (Z.of_nat (num_stimuli self) - 1) w) as [[r1 w1]|e] eqn:H1;
    [|now exists e].
  unfold bind at 1.
  destruct (randint (Z.of_nat (num_stimuli self)) hi w1) as [[r2 w2]|e] eqn:H2;
    [|now exists e].
  apply randint_range in H2. exists IndexError.
  unfold bind at 1. rewrite getitem_out_of_range; [reflexivity|lia].
Qed.

Lemma continuous_build_trial_keeps_length trial rep w t w' :
  returns (Continuous.build_trial trial rep) w t w' ->
  length (colors (globals w')) = length (colors (globals w)).
Proof.
  unfold Continuous.build_trial, build_trial. intros H.
  apply returns_bind_inv in H as (t1 & w1 & Hpos & H).
  apply set_positions_inv in Hpos as (E1 & _).
  rewrite continuous_set_colors_unfold in H.
  apply returns_bind_inv in H as (g & w2 & Hg & H).
  unfold returns in Hg. cbn in Hg. injection Hg as <- <-.
  apply returns_bind_inv in H as (s1 & w3 & Hs & H).
  apply shuffle_inv in Hs as (Hp & E3).
  apply returns_bind_inv in H as (u & w4 & Hput & H).
  unfold returns in Hput. cbn in Hput. injection Hput as _ <-.
  apply change_step_inv in H. rewrite H. cbn.
  now rewrite (Permutation_length Hp), E1.
Qed.

Lemma discrete_build_trial_keeps_length trial rep w t w' :
  returns (Discrete.build_trial trial rep) w t w' ->
  length (fst (colors (globals w')) ++ snd (colors (globals w')))
  = length (fst (colors (globals w)) ++ snd (colors (globals w))).
Proof.
  unfold Discrete.build_trial, build_trial. intros H.
  apply returns_bind_inv in H as (t1 & w1 & Hpos & H).
  apply set_positions_inv in Hpos as (E1 & _).
  rewrite discrete_set_colors_unfold in H.
  apply returns_bind_inv in H as (g & w2 & Hg & H).
  unfold returns in Hg. cbn in Hg. injection Hg as <- <-.
  apply returns_bind_inv in H as (s1 & w3 & Hs1 & H).
  apply shuffle_inv in Hs1 as (Hp1 & E3).
  apply returns_bind_inv in H as (u & w4 & Hput & H).
  unfold returns in Hput. cbn in Hput. injection Hput as _ <-.
  apply returns_bind_inv in H as (s2 & w5 & Hs2 & H).
  apply shuffle_inv in Hs2 as (Hp2 & E5).
  apply returns_bind_inv in H as (u' & w6 & Hput & H).
  unfold returns in Hput. cbn in Hput. injection Hput as _ <-.
  apply change_step_inv in H. rewrite H. cbn.
  rewrite !length_app, (Permutation_length Hp1), (Permutation_length Hp2).
  unfold Discrete.Palettes in *. now rewrite E1.
Qed.

Lemma bind_raises {G A B} (c : M G A) (k : A -> M G B) w a w1 :
  returns c w a w1 -> (exists e, k a w1 = Raise e) -> exists e, bind c k w = Raise e.
Proof. unfold returns, bind. intros -> H. exact H. Qed.

Lemma continuous_build_short_pool (w : World (Globals (list Color))) :
  length (colors (globals w)) < 6 ->
  exists e, Continuous.build_trial 2 0 w = Raise e.
Proof.
  intros Hshort. unfold Continuous.build_trial, build_trial.
  destruct (set_positions_returns (Continuous.Trial_init 2 0) w) as (ps & g0 & Hpos & _).
  eapply bind_raises; [exact Hpos|]. rewrite continuous_set_colors_unfold.
  eapply bind_raises; [reflexivity|].
  destruct (shuffle_returns (colors (globals w)) (mkWorld g0 (globals w)))
    as (s1 & g1 & Hs1 & Hp1).
  eapply bind_raises; [exact Hs1|]. eapply bind_raises; [reflexivity|].
  apply change_step_short_pool; [reflexivity|].
  cbn. rewrite (Permutation_length Hp1). cbn [globals]. lia.
Qed.

Lemma discrete_build_short_pool (w : World (Globals Discrete.Palettes)) :
  length (fst (colors (globals w)) ++ snd (colors (globals w))) < 12 ->
  exists e, Discrete.build_trial 5 0 w = Raise e.
Proof.
  intros Hshort. unfold Discrete.build_trial, build_trial.
  destruct (set_positions_returns (Discrete.Trial_init 5 0) w) as (ps & g0 & Hpos & _).
  eapply bind_raises; [exact Hpos|]. rewrite discrete_set_colors_unfold.
  eapply bind_raises; [reflexivity|].
  destruct (shuffle_returns (fst (colors (globals w))) (mkWorld g0 (globals w)))
    as (s1 & g1 & Hs1 & Hp1).
  eapply bind_raises; [exact Hs1|]. eapply bind_raises; [reflexivity|].
  destruct (shuffle_returns (snd (colors (globals w)))
              (mkWorld g1 (mkGlobals (s1, snd (colors (globals w))) (NUM_REPS (globals w)))))
    as (s2 & g2 & Hs2 & Hp2).
  eapply bind_raises; [exact Hs2|]. eapply bind_raises; [reflexivity|].
  apply change_step_short_pool; [reflexivity|].
  cbn. rewrite length_app in *.
  rewrite (Permutation_length Hp1), (Permutation_length Hp2). cbn [globals]. lia.
Qed.

Lemma discrete_set_trials_short_pool (w : World (Globals Discrete.Palettes)) :
  short_pool_raises Discrete.set_trials
    (fun g => fst (colors g) ++ snd (colors g)) NUM_REPS 12 w.
Proof.
  unfold short_pool_raises.
  destruct (Nat.ltb_spec (length (fst (colors (globals w)) ++ snd (colors (globals w)))) 12)
    as [Hshort|]; [|exact I].
  destruct (Nat.leb_spec 1 (NUM_REPS (globals w))) as [Hreps|]; [|exact I].
  cbn [andb].
  apply (set_trials_raises_somewhere Discrete.NUM_TYPE 5 _ _
           (fun g => length (fst (colors g) ++ snd (colors g)) < 12));
    [unfold Discrete.NUM_TYPE; lia|exact Hreps| |apply discrete_build_short_pool|exact Hshort].
  intros trial rep w0 t w' Hr Hw0. cbv beta in *.
  pose proof (discrete_build_trial_keeps_length trial rep w0 t w' Hr) as E.
  unfold Discrete.Palettes in E. now rewrite E.
Qed.

Lemma continuous_set_trials_short_pool (w : World (Globals (list Color))) :
  short_pool_raises Continuous.set_trials colors NUM_REPS 6 w.
Proof.
  unfold short_pool_raises.
  destruct (Nat.ltb_spec (length (colors (globals w))) 6) as [Hshort|]; [|exact I].
  destruct (Nat.leb_spec 1 (NUM_REPS (globals w))) as [Hreps|]; [|exact I].
  cbn [andb].
  apply (set_trials_raises_somewhere Continuous.NUM_TYPE 2 _ _
           (fun g => length (colors g) < 6));
    [unfold Continuous.NUM_TYPE; lia|exact Hreps| |apply continuous_build_short_pool|exact Hshort].
  intros trial rep w0 t w' Hr Hw0. cbv beta in *.
  now rewrite (continuous_build_trial_keeps_length trial rep w0 t w' Hr).
Qed.

Lemma discrete_set_trials_unknown (NT reps : nat) (g : Tape) :
  Discrete.NUM_TYPE < NT ->
  set_trials NT Discrete.Trial_init Discrete.set_colors (discrete_world g (S reps))
  = Raise ValueError.
Proof.
  intros Hlt.
  apply (set_trials_raises Discrete.NUM_TYPE NT _ _ discrete_state); [| |exact Hlt| |].
  - intros trial rep w Ht Hw.
    destruct (discrete_build_trial_returns trial rep w Ht Hw) as (t & w' & Hr & _ & Hi).
    now exists t, w'.
  - intros w. exact (discrete_build_unknown Discrete.NUM_TYPE 0 w (Nat.le_refl _)).
  - cbn. lia.
  - split; apply Permutation_refl.
Qed.

Lemma continuous_set_trials_unknown (NT reps : nat) (g : Tape) :
  Continuous.NUM_TYPE < NT ->
  set_trials NT Continuous.Trial_init Continuous.set_colors (continuous_world g (S reps))
  = Raise ValueError.
Proof.
  intros Hlt.
  apply (set_trials_raises Continuous.NUM_TYPE NT _ _ continuous_state); [| |exact Hlt| |].
  - intros trial rep w Ht Hw.
    destruct (continuous_build_trial_returns trial rep w Ht Hw) as (t & w' & Hr & _ & Hi).
    now exists t, w'.
  - intros w. exact (continuous_build_unknown Continuous.NUM_TYPE 0 w (Nat.le_refl _)).
  - cbn. lia.
  - apply Permutation_refl.
Qed.

(** C4, as the code has it: the configuration is never checked.
    [Trial.__init__] raises nothing: a condition index outside the table leaves
    [num_stimuli = 0], and [set_positions] and [set_colors] proceed; on an odd
    repetition they return a trial with empty lists, on an even repetition
    [random.randint(0, -1)] raises [ValueError].  [set_colors] never compares
    [num_stimuli] with the pool: on an odd repetition it returns the slices,
    however short the pool is.  An exception comes only from the draws and the
    lookup of an even repetition; repetition 0 being even, [set_trials] raises
    [ValueError] when [NUM_TYPE] exceeds the table, and some exception when the
    pool is shorter than the largest [num_stimuli], so that no trial list is
    returned. *)
Theorem unknown_condition_and_short_pool (trial_d trial_c rep reps : nat) (g : Tape)
    (self : Trial)
    (wd : World (Globals Discrete.Palettes)) (wc : World (Globals (list Color))) :
  Discrete.NUM_TYPE <= trial_d -> Continuous.NUM_TYPE <= trial_c ->
  Discrete.Trial_init trial_d rep = empty_trial trial_d rep /\
  Continuous.Trial_init trial_c rep = empty_trial trial_c rep /\
  (if rep mod 2 =? 0
   then Discrete.build_trial trial_d rep wd = Raise ValueError
   else exists w',
          returns (Discrete.build_trial trial_d rep) wd (empty_trial trial_d rep) w') /\
  (if rep mod 2 =? 0
   then Continuous.build_trial trial_c rep wc = Raise ValueError
   else exists w',
          returns (Continuous.build_trial trial_c rep) wc (empty_trial trial_c rep) w') /\
  set_trials (S trial_d) Discrete.Trial_init Discrete.set_colors
    (discrete_world g (S reps)) = Raise ValueError /\
  set_trials (S trial_c) Continuous.Trial_init Continuous.set_colors
    (continuous_world g (S reps)) = Raise ValueError /\
  sliced Discrete.set_colors discrete_shuffled self wd /\
  sliced Continuous.set_colors continuous_shuffled self wc /\
  short_pool_raises Discrete.set_trials
    (fun g => fst (colors g) ++ snd (colors g)) NUM_REPS 12 wd /\
  short_pool_raises Continuous.set_trials colors NUM_REPS 6 wc.
Proof.
  intros Htd Htc.
  split; [now apply discrete_Trial_init_unknown|].
  split; [now apply continuous_Trial_init_unknown|].
  split; [now apply discrete_build_unknown|].
  split; [now apply continuous_build_unknown|].
  split; [apply discrete_set_trials_unknown; lia|].
  split; [apply continuous_set_trials_unknown; lia|].
  split; [apply discrete_set_colors_sliced|].
  split; [apply continuous_set_colors_sliced|].
  split; [apply discrete_set_trials_short_pool|apply continuous_set_trials_short_pool].
Qed.

Lemma unknown_condition_and_short_pool_witness :
  Discrete.NUM_TYPE <= 7 /\ Continuous.NUM_TYPE <= 3 /\
  (exists w', returns (Discrete.build_trial 7 1) (discrete_world [] 50) (empty_trial 7 1) w') /\
  Continuous.build_trial 3 0 (continuous_world [] 50) = Raise ValueError /\
  (exists w', returns (Continuous.build_trial 3 1) (continuous_world [] 50)
                (empty_trial 3 1) w') /\
  set_trials 4 Continuous.Trial_init Continuous.set_colors (continuous_world [] 2)
  = Raise ValueError /\
  set_trials 8 Discrete.Trial_init Discrete.set_colors (discrete_world [] 2)
  = Raise ValueError.
Proof.
  pose proof (unknown_condition_and_short_pool 7 3 1 1 [] (Continuous.Trial_init 2 1)
                (discrete_world [] 50) (continuous_world [] 50)) as H1.
  pose proof (unknown_condition_and_short_pool 7 3 0 1 [] (Continuous.Trial_init 2 1)
                (discrete_world [] 50) (continuous_world [] 50)) as H0.
  assert (Hd : Discrete.NUM_TYPE <= 7) by (unfold Discrete.NUM_TYPE; lia).
  assert (Hc : Continuous.NUM_TYPE <= 3) by (unfold Continuous.NUM_TYPE; lia).
  specialize (H1 Hd Hc). specialize (H0 Hd Hc).
  split; [exact Hd|]. split; [exact Hc|].
  destruct H1 as (_ & _ & B1 & C1 & S1 & T1 & _).
  destruct H0 as (_ & _ & _ & C0 & _).
  split; [exact B1|]. split; [exact C0|]. split; [exact C1|]. split; [exact T1|exact S1].
Defined.

(** C4 as stated fails: condition index 7 is in neither table, and index
    3 is not in the table of the continuous script, yet the trial for repetition
    1 is built without an error; and with a palette of four colours the
    six-stimulus trial is handed four colours, without an error. *)
Lemma unknown_condition_builds_a_trial :
  (exists w', returns (Discrete.build_trial 7 1) (discrete_world [] 50)
                (empty_trial 7 1) w')
  /\
  (exists w', returns (Continuous.build_trial 3 1) (continuous_world [] 50)
                (empty_trial 3 1) w')
  /\
  (exists t w',
     returns (Continuous.build_trial 2 1)
       (mkWorld [] (mkGlobals (firstn 4 Continuous.palette) 50)) t w'
     /\ num_stimuli t = 6 /\ length (stim_colors t) = 4).
Proof.
  split; [|split].
  - eexists. vm_compute. reflexivity.
  - eexists. vm_compute. reflexivity.
  - eexists _, _. split; [vm_compute; reflexivity|]. split; reflexivity.
Qed.

(** ** Determinism *)

Lemma setup_subject_inv {P} (isfile : string -> bool) (answers : list DialogAnswer)
    (g : Globals P) s f g' :
  setup_subject isfile answers g = (Subject s f, g') ->
  f = (s ++ ".csv")%string /\
  g' = if (int_of s =? 999)%Z then mkGlobals (colors g) 2 else g.
Proof.
  induction answers as [|a rest IH]; [discriminate|].
  destruct a as [|text]; [discriminate|]. cbn [setup_subject].
  destruct (isdigit text); [|exact IH].
  destruct (int_of text =? 999)%Z eqn:H999.
  - intros [= <- <- <-]. now rewrite H999.
  - destruct (negb (isfile (text ++ ".csv")%string)); [|exact IH].
    intros [= <- <- <-]. now rewrite H999.
Qed.

(** The trial list is a function of the subject number alone: neither the
    state of the generator before seeding, nor what was typed and rejected
    before, nor the files on disk reach it. *)
Lemma session_deterministic {P} NUM_TYPE Trial_init set_colors
    (isfile1 isfile2 : string -> bool) (seed_tape : Z -> Tape)
    (answers1 answers2 : list DialogAnswer) (g1 g2 : Tape) (gl : Globals P)
    s f1 f2 gl1 gl2 :
  setup_subject isfile1 answers1 gl = (Subject s f1, gl1) ->
  setup_subject isfile2 answers2 gl = (Subject s f2, gl2) ->
  session NUM_TYPE Trial_init set_colors isfile1 seed_tape answers1 (mkWorld g1 gl)
  = session NUM_TYPE Trial_init set_colors isfile2 seed_tape answers2 (mkWorld g2 gl).
Proof.
  intros H1 H2. unfold session. cbn [globals rng]. rewrite H1, H2.
  apply setup_subject_inv in H1 as [_ ->]. apply setup_subject_inv in H2 as [_ ->].
  reflexivity.
Qed.

(** C7: two runs in which the same subject identifier is accepted, started
    from the scripts' own constants, yield the same trial list, in the same
    order and with the same fields, whatever the generator state before
    seeding, the rejected dialog entries and the files on disk were. *)
Theorem same_subject_same_trials
    (isfile1 isfile2 : string -> bool) (seed_tape : Z -> Tape)
    (answers1 answers2 : list DialogAnswer) (g1 g2 : Tape)
    (s f1 f2 : string) dl1 dl2 cl1 cl2 :
  setup_subject isfile1 answers1 Discrete.initial_globals = (Subject s f1, dl1) ->
  setup_subject isfile2 answers2 Discrete.initial_globals = (Subject s f2, dl2) ->
  setup_subject isfile1 answers1 Continuous.initial_globals = (Subject s f1, cl1) ->
  setup_subject isfile2 answers2 Continuous.initial_globals = (Subject s f2, cl2) ->
  (exists test_set w',
     Discrete.session isfile1 seed_tape answers1 (mkWorld g1 Discrete.initial_globals)
       = Some (Ok (test_set, w')) /\
     Discrete.session isfile2 seed_tape answers2 (mkWorld g2 Discrete.initial_globals)
       = Some (Ok (test_set, w')))
  /\
  (exists test_set w',
     Continuous.session isfile1 seed_tape answers1 (mkWorld g1 Continuous.initial_globals)
       = Some (Ok (test_set, w')) /\
     Continuous.session isfile2 seed_tape answers2 (mkWorld g2 Continuous.initial_globals)
       = Some (Ok (test_set, w'))).
Proof.
  intros Hd1 Hd2 Hc1 Hc2. split.
  - unfold Discrete.session.
    rewrite <- (session_deterministic _ _ _ _ _ seed_tape _ _ g1 g2 _ _ _ _ _ _ Hd1 Hd2).
    unfold session. cbn [globals rng]. rewrite Hd1.
    apply setup_subject_inv in Hd1 as [_ ->].
    destruct (int_of s =? 999)%Z.
    + destruct (discrete_session_returns (seed_tape (int_of s)) 2)
        as (rows & ts & w' & Hr & _).
      exists ts, w'. split; (f_equal; exact Hr).
    + destruct (discrete_session_returns (seed_tape (int_of s)) 50)
        as (rows & ts & w' & Hr & _).
      exists ts, w'. split; (f_equal; exact Hr).
  - unfold Continuous.session.
    rewrite <- (session_deterministic _ _ _ _ _ seed_tape _ _ g1 g2 _ _ _ _ _ _ Hc1 Hc2).
    unfold session. cbn [globals rng]. rewrite Hc1.
    apply setup_subject_inv in Hc1 as [_ ->].
    destruct (int_of s =? 999)%Z.
    + destruct (continuous_session_returns (seed_tape (int_of s)) 2)
        as (rows & ts & w' & Hr & _).
      exists ts, w'. split; (f_equal; exact Hr).
    + destruct (continuous_session_returns (seed_tape (int_of s)) 50)
        as (rows & ts & w' & Hr & _).
      exists ts, w'. split; (f_equal; exact Hr).
Qed.

Lemma same_subject_same_trials_witness :
  exists test_set w',
    Discrete.session (fun _ => false) (fun n => [Z.to_nat n]) [Entered "7"]
      (mkWorld [] Discrete.initial_globals) = Some (Ok (test_set, w')) /\
    Discrete.session (fun f => String.eqb f "12.csv") (fun n => [Z.to_nat n])
      [Entered "x7"; Entered "12"; Entered "7"]
      (mkWorld [5; 5] Discrete.initial_globals) = Some (Ok (test_set, w')).
Proof.
  exact (proj1 (same_subject_same_trials
                  (fun _ => false) (fun f => String.eqb f "12.csv")
                  (fun n => [Z.to_nat n])
                  [Entered "7"] [Entered "x7"; Entered "12"; Entered "7"]
                  [] [5; 5] "7" "7.csv" "7.csv"
                  Discrete.initial_globals Discrete.initial_globals
                  Continuous.initial_globals Continuous.initial_globals
                  eq_refl eq_refl eq_refl eq_refl)).
Defined.

(** ** The colour wheel *)

Lemma argmin_from_spec (L : list R) (l : list R) :
  forall (pre : list R) (best : nat) (bestv : R),
    L = pre ++ l -> best < length pre -> nth best L 0%R = bestv ->
    (forall k, k < length pre -> (bestv <= nth k L 0)%R) ->
    argmin_from best bestv (length pre) l < length L /\
    forall k, k < length L ->
      (nth (argmin_from best bestv (length pre) l) L 0 <= nth k L 0)%R.
Proof.
  induction l as [|v l IH]; intros pre best bestv HL Hbest Hv Hmin.
  - rewrite app_nil_r in HL. subst L. cbn [argmin_from]. split; [exact Hbest|].
    intros k Hk. rewrite Hv. now apply Hmin.
  - assert (HL' : L = (pre ++ [v]) ++ l) by now rewrite <- app_assoc.
    assert (Hnth : nth (length pre) L 0%R = v) by (rewrite HL; apply nth_middle).
    assert (Hlen : length (pre ++ [v]) = S (length pre)) by (rewrite length_app; simpl; lia).
    cbn [argmin_from]. destruct (Rlt_dec v bestv) as [Hlt|Hge].
    + rewrite <- Hlen. apply IH; [exact HL'|lia|exact Hnth| ].
      intros k Hk. rewrite Hlen in Hk.
      destruct (Nat.eq_dec k (length pre)) as [->|Hne].
      * rewrite Hnth. lra.
      * assert (bestv <= nth k L 0)%R by (apply Hmin; lia). lra.
    + rewrite <- Hlen. apply IH; [exact HL'|lia|exact Hv| ].
      intros k Hk. rewrite Hlen in Hk.
      destruct (Nat.eq_dec k (length pre)) as [->|Hne].
      * rewrite Hnth. lra.
      * apply Hmin. lia.
Qed.

Lemma argmin_spec (L : list R) :
  L <> [] ->
  argmin L < length L /\
  forall k, k < length L -> (nth (argmin L) L 0 <= nth k L 0)%R.
Proof.
  destruct L as [|v l]; [congruence|]. intros _. unfold argmin.
  apply (argmin_from_spec (v :: l) l [v] 0 v); [reflexivity|simpl; lia|reflexivity|].
  intros k Hk. simpl in Hk. assert (k = 0) as -> by lia. simpl. lra.
Qed.

(** [np.argmin] returns the first of the smallest entries. *)
Lemma argmin_from_first (L : list R) (l : list R) :
  forall (pre : list R) (best : nat) (bestv : R),
    L = pre ++ l -> best < length pre -> nth best L 0%R = bestv ->
    (forall k, k < best -> (bestv < nth k L 0)%R) ->
    (forall k, k < length pre -> (bestv <= nth k L 0)%R) ->
    forall k, k < argmin_from best bestv (length pre) l ->
      (nth (argmin_from best bestv (length pre) l) L 0 < nth k L 0)%R.
Proof.
  induction l as [|v l IH]; intros pre best bestv HL Hbest Hv Hfirst Hmin.
  - cbn [argmin_from]. intros k Hk. rewrite Hv. now apply Hfirst.
  - assert (HL' : L = (pre ++ [v]) ++ l) by now rewrite <- app_assoc.
    assert (Hnth : nth (length pre) L 0%R = v) by (rewrite HL; apply nth_middle).
    assert (Hlen : length (pre ++ [v]) = S (length pre)) by (rewrite length_app; simpl; lia).
    cbn [argmin_from]. destruct (Rlt_dec v bestv) as [Hlt|Hge].
    + rewrite <- Hlen. apply IH; [exact HL'|lia|exact Hnth| | ].
      * intros k Hk. assert (bestv <= nth k L 0)%R by (apply Hmin; lia). lra.
      * intros k Hk. rewrite Hlen in Hk.
        destruct (Nat.eq_dec k (length pre)) as [->|Hne].
        -- rewrite Hnth. lra.
        -- assert (bestv <= nth k L 0)%R by (apply Hmin; lia). lra.
    + rewrite <- Hlen. apply IH; [exact HL'|lia|exact Hv|exact Hfirst| ].
      intros k Hk. rewrite Hlen in Hk.
      destruct (Nat.eq_dec k (length pre)) as [->|Hne].
      * rewrite Hnth. lra.
      * apply Hmin. lia.
Qed.

Lemma argmin_first (L : list R) (k : nat) :
  k < argmin L -> (nth (argmin L) L 0 < nth k L 0)%R.
Proof.
  destruct L as [|v l]; [cbn; lia|]. unfold argmin.
  apply (argmin_from_first (v :: l) l [v] 0 v); [reflexivity|simpl; lia|reflexivity| | ].
  - intros j Hj. lia.
  - intros j Hj. simpl in Hj. assert (j = 0) as -> by lia. simpl. lra.
Qed.

Lemma nth_distances (mp : Point) (k : nat) :
  k < n_circ ->
  nth k (map (fun p => euclidean_distance (vec2 p) (vec2 mp)) xys) 0%R
  = euclidean_distance (vec2 (wheel_point k)) (vec2 mp).
Proof.
  intros Hk. unfold xys. rewrite map_map.
  rewrite (nth_indep _ 0%R (euclidean_distance (vec2 (wheel_point 0)) (vec2 mp)))
    by (rewrite length_map, length_seq; exact Hk).
  rewrite (map_nth (fun k => euclidean_distance (vec2 (wheel_point k)) (vec2 mp)) (seq 0 n_circ) 0 k).
  now rewrite seq_nth.
Qed.

(** [loc] is the index of a wheel point nearest to the pointer. *)
Lemma loc_of_nearest (mp : Point) :
  loc_of mp < n_circ /\
  forall k, k < n_circ ->
    (euclidean_distance (vec2 (wheel_point (loc_of mp))) (vec2 mp)
     <= euclidean_distance (vec2 (wheel_point k)) (vec2 mp))%R.
Proof.
  unfold loc_of.
  set (ds := map (fun p => euclidean_distance (vec2 p) (vec2 mp)) xys).
  assert (Hlen : length ds = n_circ).
  { unfold ds, xys. now rewrite !length_map, length_seq. }
  destruct (argmin_spec ds) as [Hlt Hmin].
  { intros Hnil. rewrite Hnil in Hlen. discriminate. }
  rewrite Hlen in *. split; [exact Hlt|].
  intros k Hk. specialize (Hmin k Hk). unfold ds in Hmin.
  rewrite !nth_distances in Hmin by assumption. exact Hmin.
Qed.

Lemma loc_of_eq (mp : Point) :
  loc_of mp = argmin (map (fun p => euclidean_distance (vec2 p) (vec2 mp)) xys).
Proof. reflexivity. Qed.

(** Among the nearest wheel points [loc] is the one with the smallest
    index. *)
Lemma loc_of_first (mp : Point) (k : nat) :
  k < loc_of mp ->
  (euclidean_distance (vec2 (wheel_point (loc_of mp))) (vec2 mp)
   < euclidean_distance (vec2 (wheel_point k)) (vec2 mp))%R.
Proof.
  intros Hk. rewrite loc_of_eq in Hk |- *.
  assert (Hlen : length (map (fun p => euclidean_distance (vec2 p) (vec2 mp)) xys) = n_circ).
  { unfold xys. now rewrite !length_map, length_seq. }
  destruct (argmin_spec (map (fun p => euclidean_distance (vec2 p) (vec2 mp)) xys))
    as [Hlt _].
  { intros Hnil. rewrite Hnil in Hlen. discriminate. }
  rewrite Hlen in Hlt.
  pose proof (argmin_first _ k Hk) as H.
  rewrite !nth_distances in H by lia. exact H.
Qed.

(** The distance of wheel point [k] from a point, in coordinates. *)
Lemma wheel_distance (k : nat) (mp : Point) :
  euclidean_distance (vec2 (wheel_point k)) (vec2 mp)
  = sqrt ((8 * cos (INR k * PI / 180) - fst mp) * (8 * cos (INR k * PI / 180) - fst mp)
          + (8 * sin (INR k * PI / 180) - snd mp) * (8 * sin (INR k * PI / 180) - snd mp))%R.
Proof.
  unfold euclidean_distance, wheel_point, loop_radius. f_equal.
  cbn [vec2 sum_sq fst snd]. ring.
Qed.

Lemma sum_sq_nonneg (u v : list R) : (0 <= sum_sq u v)%R.
Proof.
  revert v. induction u as [|a u IH]; intros [|b v]; cbn [sum_sq]; try lra.
  specialize (IH v). pose proof (Rle_0_sqr (a - b)) as Hsq. unfold Rsqr in Hsq. lra.
Qed.

Lemma euclidean_distance_same (u : list R) : euclidean_distance u u = 0%R.
Proof.
  unfold euclidean_distance.
  assert (H : sum_sq u u = 0%R).
  { induction u as [|a u IH]; cbn [sum_sq]; [reflexivity|]. rewrite IH. lra. }
  rewrite H. apply sqrt_0.
Qed.

Lemma euclidean_distance_nonneg (u v : list R) : (0 <= euclidean_distance u v)%R.
Proof. apply sqrt_pos. Qed.

Lemma euclidean_distance_vec3_zero (a b : RColor) :
  euclidean_distance (vec3 a) (vec3 b) = 0%R -> a = b.
Proof.
  unfold euclidean_distance. intros H.
  apply sqrt_eq_0 in H; [|apply sum_sq_nonneg].
  destruct a as [[r1 g1] b1], b as [[r2 g2] b2]. cbn [vec3 sum_sq] in H.
  pose proof (Rle_0_sqr (r1 - r2)) as Hr. pose proof (Rle_0_sqr (g1 - g2)) as Hg.
  pose proof (Rle_0_sqr (b1 - b2)) as Hb. unfold Rsqr in Hr, Hg, Hb.
  assert (Hr0 : Rsqr (r1 - r2) = 0%R) by (unfold Rsqr; lra).
  assert (Hg0 : Rsqr (g1 - g2) = 0%R) by (unfold Rsqr; lra).
  assert (Hb0 : Rsqr (b1 - b2) = 0%R) by (unfold Rsqr; lra).
  apply Rsqr_0_uniq in Hr0, Hg0, Hb0.
  repeat f_equal; lra.
Qed.

(** The distance of two colours, channel by channel. *)
Lemma euclidean_distance_channels (r1 g1 b1 p1 p2 p3 : R) :
  euclidean_distance (vec3 (r1, g1, b1)) (vec3 (p1, p2, p3))
  = sqrt ((r1 - p1) * (r1 - p1) + (g1 - p2) * (g1 - p2) + (b1 - p3) * (b1 - p3))%R.
Proof. unfold euclidean_distance. f_equal. cbn [vec3 sum_sq]. ring. Qed.

Lemma euclidean_distance_vec2_zero (p q : Point) :
  euclidean_distance (vec2 p) (vec2 q) = 0%R -> p = q.
Proof.
  unfold euclidean_distance. intros H.
  apply sqrt_eq_0 in H; [|apply sum_sq_nonneg].
  destruct p as [x1 y1], q as [x2 y2]. cbn [vec2 sum_sq fst snd] in H.
  pose proof (Rle_0_sqr (x1 - x2)) as Hx. pose proof (Rle_0_sqr (y1 - y2)) as Hy.
  unfold Rsqr in Hx, Hy.
  assert (Hx0 : Rsqr (x1 - x2) = 0%R) by (unfold Rsqr; lra).
  assert (Hy0 : Rsqr (y1 - y2) = 0%R) by (unfold Rsqr; lra).
  apply Rsqr_0_uniq in Hx0. apply Rsqr_0_uniq in Hy0.
  f_equal; lra.
Qed.

Lemma wheel_point_inj (j k : nat) :
  j < n_circ -> k < n_circ -> wheel_point j = wheel_point k -> j = k.
Proof.
  unfold n_circ, wheel_point, loop_radius. intros Hj Hk Heq.
  injection Heq as Hc Hs. pose proof PI_RGT_0 as Hpi.
  assert (H360 : INR 360 = 360%R) by (rewrite INR_IZR_INZ; reflexivity).
  assert (HJ : (0 <= INR j < 360)%R).
  { split; [apply pos_INR|]. rewrite <- H360. now apply lt_INR. }
  assert (HK : (0 <= INR k < 360)%R).
  { split; [apply pos_INR|]. rewrite <- H360. now apply lt_INR. }
  assert (Hang : (INR j * PI / 180 = INR k * PI / 180)%R).
  { apply cos_sin_inj; [split; nra|split; nra|lra|lra]. }
  apply INR_eq. nra.
Qed.

(** A pointer exactly on a wheel point resolves to that point. *)
Lemma loc_of_wheel_point (k : nat) : k < n_circ -> loc_of (wheel_point k) = k.
Proof.
  intros Hk. destruct (loc_of_nearest (wheel_point k)) as [Hlt Hmin].
  specialize (Hmin k Hk). rewrite euclidean_distance_same in Hmin.
  pose proof (euclidean_distance_nonneg (vec2 (wheel_point (loc_of (wheel_point k))))
                (vec2 (wheel_point k))) as Hpos.
  apply wheel_point_inj; [exact Hlt|exact Hk|].
  apply euclidean_distance_vec2_zero. lra.
Qed.

(** ** The response loop *)

Section ScorerProperties.

Variable rgb : nat -> RColor.
Variable mask1_contains : Point -> bool.
Variable mask2_contains : Point -> bool.

Lemma response_loop_polling (n probe : nat) (c : Color) (frames : list Frame) :
  Forall (fun f => any (buttons f) = false) frames ->
  response_loop rgb mask1_contains mask2_contains n probe c frames
  = (map (probe_fill rgb mask1_contains mask2_contains probe) frames, None).
Proof.
  induction 1 as [|f frames Hf _ IH]; [reflexivity|].
  cbn [response_loop map]. now rewrite Hf, IH.
Qed.

Lemma response_loop_first_press (n probe : nat) (c : Color) (pre : list Frame)
    (f : Frame) (post : list Frame) :
  Forall (fun f' => any (buttons f') = false) pre ->
  any (buttons f) = true ->
  response_loop rgb mask1_contains mask2_contains n probe c (pre ++ f :: post)
  = (map (probe_fill rgb mask1_contains mask2_contains probe) (pre ++ [f]),
     Some (accepted rgb n c f)).
Proof.
  intros Hpre Hf. induction Hpre as [|f0 pre Hf0 _ IH].
  - cbn [app response_loop map]. now rewrite Hf.
  - cbn [app response_loop map]. now rewrite Hf0, IH.
Qed.

Lemma response_loop_response (n probe : nat) (c : Color) (frames : list Frame)
    (r : Response) :
  snd (response_loop rgb mask1_contains mask2_contains n probe c frames) = Some r ->
  probe_Color r = c /\
  judgement_Error r = euclidean_distance (vec3 (sub_resp_Color r)) (vec3 (color_R c)).
Proof.
  induction frames as [|f frames IH]; [discriminate|].
  cbn [response_loop]. destruct (any (buttons f)).
  - cbn [snd]. intros [= <-]. split; reflexivity.
  - destruct (response_loop rgb mask1_contains mask2_contains n probe c frames)
      as [fills r0].
    exact IH.
Qed.

End ScorerProperties.

(** C3, as the code has it: the annulus decides only the fill of the probe
    square, pass by pass: the nearest wheel colour while the pointer is outside
    [mask1] and inside [mask2], no fill otherwise.  The loop keeps polling as
    long as no button is down, and the first pass in which a button is down is
    accepted wherever the pointer is, freezing the wheel colour nearest to the
    pointer. *)
Theorem annulus_gates_only_the_fill (rgb : nat -> RColor)
    (mask1_contains mask2_contains : Point -> bool) (n probe : nat)
    (c : Color) (pre : list Frame) (f : Frame) (post : list Frame) :
  Forall (fun f' => any (buttons f') = false) pre ->
  any (buttons f) = true ->
  response_loop rgb mask1_contains mask2_contains n probe c pre
    = (map (probe_fill rgb mask1_contains mask2_contains probe) pre, None)
  /\
  response_loop rgb mask1_contains mask2_contains n probe c (pre ++ f :: post)
    = (map (probe_fill rgb mask1_contains mask2_contains probe) (pre ++ [f]),
       Some (accepted rgb n c f))
  /\
  Forall (fun f' =>
            probe_fill rgb mask1_contains mask2_contains probe f'
            = if negb (mask1_contains (mousePos f' probe))
                 && mask2_contains (mousePos f' probe)
              then Some (rgb (loc_of (mousePos f' probe))) else None)
    (pre ++ [f]).
Proof.
  intros Hpre Hf. split; [now apply response_loop_polling|].
  split; [now apply response_loop_first_press|].
  apply Forall_forall. intros f' _. reflexivity.
Qed.

Lemma annulus_gates_only_the_fill_witness :
  response_loop (fun _ => (0, 0, 0)%R) (fun _ => true) (fun _ => true) 2 0 (1, 1, 1)%Q
    ([mkFrame (fun _ => (0, 0)%R) [false; false; false]]
     ++ mkFrame (fun _ => (0, 0)%R) [true; false; false] :: [])
  = ([None; None],
     Some (accepted (fun _ => (0, 0, 0)%R) 2 (1, 1, 1)%Q
             (mkFrame (fun _ => (0, 0)%R) [true; false; false]))).
Proof.
  exact (proj1 (proj2 (annulus_gates_only_the_fill
                         (fun _ => (0, 0, 0)%R) (fun _ => true) (fun _ => true) 2 0
                         (1, 1, 1)%Q
                         [mkFrame (fun _ => (0, 0)%R) [false; false; false]]
                         (mkFrame (fun _ => (0, 0)%R) [true; false; false]) []
                         ltac:(repeat constructor) eq_refl))).
Defined.

Lemma disk_contains_origin (radius : R) :
  (0 <= radius)%R -> disk_contains radius (0, 0)%R = true.
Proof.
  intros Hr. unfold disk_contains. cbn [fst snd].
  replace (0 * 0 + 0 * 0)%R with 0%R by lra. rewrite sqrt_0.
  destruct (Rle_dec 0 radius); [reflexivity|contradiction].
Qed.

(** C3 as stated fails: with the pointer resting at the centre of the
    wheel, inside the inner mask and so outside the annulus, a button press is
    accepted: no colour is shown in the probe square, and a colour is frozen and
    scored. *)
Lemma click_outside_annulus_is_accepted :
  let rgb := fun k : nat => (INR k, 0, 0)%R in
  let mask1 := disk_contains (loop_radius - 0.5) in
  let mask2 := disk_contains (loop_radius + 0.5) in
  let f := mkFrame (fun _ => (0, 0)%R) [true; false; false] in
  (forall target, negb (mask1 (mousePos f target)) && mask2 (mousePos f target) = false)
  /\
  response_loop rgb mask1 mask2 2 0 (1, 1, 1)%Q [f]
  = ([None], Some (accepted rgb 2 (1, 1, 1)%Q f)).
Proof.
  cbv zeta.
  assert (H1 : disk_contains (loop_radius - 0.5) (0, 0)%R = true).
  { apply disk_contains_origin. unfold loop_radius. lra. }
  cbn [mousePos]. split; [intros _; now rewrite H1|].
  cbn [response_loop buttons any existsb orb]. unfold probe_fill.
  cbn [mousePos]. now rewrite H1.
Qed.

(** The colour [(1, 1, -1)] (yellow) as a row of reals. *)
Lemma color_R_yellow : color_R (1, 1, -1)%Q = (1, 1, -1)%R.
Proof.
  unfold color_R, Q2R. cbn [Qnum Qden].
  assert (E1 : (1 * / 1 = 1)%R) by lra.
  assert (E2 : (-1 * / 1 = -1)%R) by lra.
  now rewrite E1, E2.
Qed.

(** C8: the colour frozen at the accepted pass is the [rgb] row of the
    wheel point nearest to the pointer as last read in that pass (of several
    nearest ones the first), distances being taken between the coordinates
    [(8 cos(k pi/180), 8 sin(k pi/180))] of the wheel points and those of the
    pointer; the error is the square root of the summed squared differences of
    the three channels of that row and of the probe colour, and is 0 exactly
    when the two colours are equal.  With the pointer exactly on wheel point 90
    the row is row 90, and if the probe colour equals row 90 the error is 0. *)
Theorem scorer_nearest_point_and_error (rgb : nat -> RColor)
    (mask1_contains mask2_contains : Point -> bool) (n probe : nat)
    (c : Color) (pre : list Frame) (f : Frame) (post : list Frame) :
  Forall (fun f' => any (buttons f') = false) pre ->
  any (buttons f) = true ->
  let pointer := mousePos f (n - 1) in
  let d := fun k : nat =>
    sqrt ((8 * cos (INR k * PI / 180) - fst pointer)
          * (8 * cos (INR k * PI / 180) - fst pointer)
          + (8 * sin (INR k * PI / 180) - snd pointer)
            * (8 * sin (INR k * PI / 180) - snd pointer))%R in
  exists r loc,
    snd (response_loop rgb mask1_contains mask2_contains n probe c (pre ++ f :: post))
      = Some r /\
    loc < n_circ /\
    (forall k, k < n_circ -> (d loc <= d k)%R) /\
    (forall k, k < loc -> (d loc < d k)%R) /\
    sub_resp_Color r = rgb loc /\
    probe_Color r = c /\
    (forall r1 g1 b1 p1 p2 p3,
       rgb loc = (r1, g1, b1) -> color_R c = (p1, p2, p3) ->
       judgement_Error r
       = sqrt ((r1 - p1) * (r1 - p1) + (g1 - p2) * (g1 - p2) + (b1 - p3) * (b1 - p3))%R) /\
    (judgement_Error r = 0%R <-> rgb loc = color_R c) /\
    (pointer = (8 * cos (INR 90 * PI / 180), 8 * sin (INR 90 * PI / 180))%R ->
       loc = 90 /\ sub_resp_Color r = rgb 90
       /\ (color_R c = rgb 90 -> judgement_Error r = 0%R)).
Proof.
  intros Hpre Hf pointer d. exists (accepted rgb n c f), (loc_of pointer).
  split; [now rewrite (response_loop_first_press rgb _ _ n probe c pre f post Hpre Hf)|].
  destruct (loc_of_nearest pointer) as [Hlt Hmin].
  assert (Hd : forall k, d k = euclidean_distance (vec2 (wheel_point k)) (vec2 pointer)).
  { intros k. unfold d. now rewrite wheel_distance. }
  split; [exact Hlt|]. split; [|split].
  - intros k Hk. rewrite !Hd. now apply Hmin.
  - intros k Hk. rewrite !Hd. now apply loc_of_first.
  - cbn [accepted sub_resp_Color probe_Color judgement_Error]. fold pointer.
    split; [reflexivity|]. split; [reflexivity|]. split; [|split].
    + intros r1 g1 b1 p1 p2 p3 -> ->. apply euclidean_distance_channels.
    + split; [apply euclidean_distance_vec3_zero|].
      intros ->. apply euclidean_distance_same.
    + intros Hmp.
      assert (Hw : pointer = wheel_point 90) by (rewrite Hmp; reflexivity).
      rewrite Hw, loc_of_wheel_point by (unfold n_circ; lia).
      split; [reflexivity|]. split; [reflexivity|].
      intros ->. apply euclidean_distance_same.
Qed.

Lemma scorer_nearest_point_and_error_witness :
  exists r,
    snd (response_loop
           (fun k => if k =? 90 then (1, 1, -1)%R else (INR k, 0, 0)%R)
           (fun _ => false) (fun _ => true)
           2 0 (1, 1, -1)%Q
           ([mkFrame (fun _ => (0, 0)%R) [false; false; false]]
            ++ mkFrame (fun _ => wheel_point 90) [true; false; false] :: [])) = Some r
    /\ sub_resp_Color r = (1, 1, -1)%R
    /\ judgement_Error r = 0%R.
Proof.
  destruct (scorer_nearest_point_and_error
              (fun k => if k =? 90 then (1, 1, -1)%R else (INR k, 0, 0)%R)
              (fun _ => false) (fun _ => true)
              2 0 (1, 1, -1)%Q
              [mkFrame (fun _ => (0, 0)%R) [false; false; false]]
              (mkFrame (fun _ => wheel_point 90) [true; false; false]) []
              ltac:(repeat constructor) eq_refl)
    as (r & loc & Hr & _ & _ & _ & _ & _ & _ & _ & Hz).
  destruct (Hz eq_refl) as (_ & Hsub & Hzero).
  exists r. split; [exact Hr|]. split; [exact Hsub|]. exact (Hzero color_R_yellow).
Defined.

(** ** The probe of the continuous script *)

Lemma sample1_seq_returns {G} (n : nat) (w : World G) :
  1 <= n ->
  exists probe g', probe < n /\ returns (sample1 (seq 0 n)) w probe (mkWorld g' (globals w)).
Proof.
  intros Hn. unfold returns, sample1. rewrite length_seq.
  pose proof (randbelow_lt n (rng w)) as Hlt.
  destruct (randbelow n (rng w)) as [j g']. cbn [fst] in Hlt.
  exists j, g'. split; [lia|].
  rewrite lookup_seq_lt by lia. reflexivity.
Qed.

(** C10: at probe time one bounded draw of the random source gives the
    probe index, below [num_stimuli], and every such index is the outcome of
    some draw; the colour scored against is the trial's sample colour at that
    index, the response carries that colour and the distance of the picked
    colour from it, channel by channel; and the trial reaches the result only
    through [num_stimuli] and [stim_colors]: neither [probe_colors] nor [change]
    nor anything else of the trial plays a part. *)
Theorem probe_color_is_a_sample_color (rgb : nat -> RColor)
    (mask1_contains mask2_contains : Point -> bool) {G : Type}
    (t : Trial) (frames : list Frame) (w : World G) :
  1 <= num_stimuli t -> length (stim_colors t) = num_stimuli t ->
  let probe := fst (randbelow (num_stimuli t) (rng w)) in
  let g' := snd (randbelow (num_stimuli t) (rng w)) in
  probe < num_stimuli t /\
  (exists c,
     stim_colors t !! probe = Some c /\
     run_trial rgb mask1_contains mask2_contains t frames w
     = Ok ((probe,
            fst (response_loop rgb mask1_contains mask2_contains
                   (num_stimuli t) probe c frames),
            snd (response_loop rgb mask1_contains mask2_contains
                   (num_stimuli t) probe c frames)),
           mkWorld g' (globals w)) /\
     (forall r,
        snd (response_loop rgb mask1_contains mask2_contains
               (num_stimuli t) probe c frames) = Some r ->
        probe_Color r = c /\
        forall r1 g1 b1 p1 p2 p3,
          sub_resp_Color r = (r1, g1, b1) -> color_R c = (p1, p2, p3) ->
          judgement_Error r
          = sqrt ((r1 - p1) * (r1 - p1) + (g1 - p2) * (g1 - p2) + (b1 - p3) * (b1 - p3))%R))
  /\
  (forall p rest, p < num_stimuli t ->
     exists c,
       stim_colors t !! p = Some c /\
       run_trial rgb mask1_contains mask2_contains t frames (mkWorld (p :: rest) (globals w))
       = Ok ((p,
              fst (response_loop rgb mask1_contains mask2_contains
                     (num_stimuli t) p c frames),
              snd (response_loop rgb mask1_contains mask2_contains
                     (num_stimuli t) p c frames)),
             mkWorld rest (globals w)))
  /\
  (forall t' : Trial,
     num_stimuli t' = num_stimuli t -> stim_colors t' = stim_colors t ->
     run_trial rgb mask1_contains mask2_contains t' frames w
     = run_trial rgb mask1_contains mask2_contains t frames w).
Proof.
  intros Hn Hlen probe g'.
  assert (Hrun : forall (w0 : World G) p,
            p = fst (randbelow (num_stimuli t) (rng w0)) -> p < num_stimuli t ->
            exists c,
              stim_colors t !! p = Some c /\
              run_trial rgb mask1_contains mask2_contains t frames w0
              = Ok ((p,
                     fst (response_loop rgb mask1_contains mask2_contains
                            (num_stimuli t) p c frames),
                     snd (response_loop rgb mask1_contains mask2_contains
                            (num_stimuli t) p c frames)),
                    mkWorld (snd (randbelow (num_stimuli t) (rng w0))) (globals w0))).
  { intros w0 p Hp Hlt.
    destruct (lookup_lt_is_Some_2 (stim_colors t) p) as [c Hc]; [lia|].
    exists c. split; [exact Hc|].
    unfold run_trial, bind, sample1. rewrite length_seq.
    destruct (randbelow (num_stimuli t) (rng w0)) as [j g0]. cbn [fst snd] in Hp |- *.
    subst j. rewrite lookup_seq_lt by exact Hlt. cbn [Nat.add].
    destruct (getitem_returns (stim_colors t) (Z.of_nat p) (mkWorld g0 (globals w0)))
      as (c' & Hc' & Hg); [lia|]. rewrite Nat2Z.id in Hc'.
    assert (c' = c) as -> by congruence.
    unfold returns in Hg. rewrite Hg.
    now destruct (response_loop rgb mask1_contains mask2_contains
                    (num_stimuli t) p c frames). }
  assert (Hlt : probe < num_stimuli t) by (apply randbelow_lt; lia).
  split; [exact Hlt|]. split; [|split].
  - destruct (Hrun w probe eq_refl Hlt) as (c & Hc & Hr).
    exists c. split; [exact Hc|]. split; [exact Hr|].
    intros r Hresp.
    destruct (response_loop_response rgb mask1_contains mask2_contains
                (num_stimuli t) probe c frames r Hresp) as [Hpc Herr].
    split; [exact Hpc|]. intros r1 g1 b1 p1 p2 p3 Hsub Hcol.
    rewrite Herr, Hsub, Hcol. apply euclidean_distance_channels.
  - intros p rest Hp.
    destruct (Hrun (mkWorld (p :: rest) (globals w)) p) as (c & Hc & Hr).
    + cbn [rng]. now rewrite randbelow_any.
    + exact Hp.
    + exists c. split; [exact Hc|].
      cbn [rng globals] in Hr. now rewrite randbelow_any in Hr.
  - intros t' En Es. unfold run_trial. now rewrite En, Es.
Qed.

Lemma probe_color_is_a_sample_color_witness :
  run_trial (fun _ => (0, 0, 0)%R) (fun _ => true) (fun _ => true)
    (mkTrial 0 0 2 [3; 7] true [(1, 1, -1)%Q; (-1, 1, 1)%Q] [(1, 1, -1)%Q; (1, 1, 1)%Q])
    [mkFrame (fun _ => (0, 0)%R) [true]] (mkWorld [5] tt)
  = Ok ((1, [None],
         Some (accepted (fun _ => (0, 0, 0)%R) 2 (-1, 1, 1)%Q
                 (mkFrame (fun _ => (0, 0)%R) [true]))),
        mkWorld [] tt).
Proof.
  destruct (probe_color_is_a_sample_color
              (fun _ => (0, 0, 0)%R) (fun _ => true) (fun _ => true)
              (mkTrial 0 0 2 [3; 7] true [(1, 1, -1)%Q; (-1, 1, 1)%Q]
                 [(1, 1, -1)%Q; (1, 1, 1)%Q])
              [mkFrame (fun _ => (0, 0)%R) [true]] (mkWorld [5] tt))
    as (_ & (c & Hc & Hrun & _) & _).
  - cbn. lia.
  - reflexivity.
  - cbn in Hc. injection Hc as <-. exact Hrun.
Defined.

(** * The random draws behind a session *)

(** ** The shuffle, draw by draw *)

(** A shuffle of a list of [i + 1] entries uses up [i] entries of the
    random source. *)
Lemma shuffle_from_frame {A} (i : nat) :
  forall (x : list A) (pre rest : Tape), length pre = i ->
    shuffle_from i x (pre ++ rest) = (fst (shuffle_from i x pre), rest).
Proof.
  induction i as [|i IH]; intros x pre rest Hlen.
  - destruct pre; [reflexivity|discriminate].
  - destruct pre as [|a pre]; [discriminate|].
    cbn [shuffle_from app randbelow]. apply IH. now injection Hlen.
Qed.

Lemma shuffle_tape_frame {A} (x : list A) (pre rest : Tape) :
  length pre = length x - 1 ->
  shuffle_tape x (pre ++ rest) = (fst (shuffle_tape x pre), rest).
Proof. apply shuffle_from_frame. Qed.

Lemma swap_length {A} (i j : nat) (x : list A) : length (swap i j x) = length x.
Proof.
  unfold swap. destruct (x !! i), (x !! j); try reflexivity.
  now rewrite !length_insert.
Qed.

Lemma swap_lookup_other {A} (i j k : nat) (x : list A) :
  k <> i -> k <> j -> swap i j x !! k = x !! k.
Proof.
  intros Hi Hj. unfold swap. destruct (x !! i), (x !! j); try reflexivity.
  now rewrite !list_lookup_insert_ne by congruence.
Qed.

Lemma swap_lookup_first {A} (i j : nat) (x : list A) (a b : A) :
  x !! i = Some a -> x !! j = Some b -> swap i j x !! i = Some b.
Proof.
  intros Hi Hj. unfold swap. rewrite Hi, Hj.
  pose proof (lookup_lt_Some _ _ _ Hi) as Hli.
  destruct (decide (i = j)) as [->|Hne].
  - rewrite list_lookup_insert_eq by (rewrite length_insert; exact Hli). congruence.
  - rewrite list_lookup_insert_ne by congruence.
    now rewrite list_lookup_insert_eq by exact Hli.
Qed.

(** The loop never touches an entry above its index. *)
Lemma shuffle_from_above {A} (i : nat) :
  forall (x : list A) (g : Tape) (k : nat),
    i < k -> fst (shuffle_from i x g) !! k = x !! k.
Proof.
  induction i as [|i IH]; intros x g k Hk; [reflexivity|].
  cbn [shuffle_from]. pose proof (randbelow_lt (S (S i)) g ltac:(lia)) as Hj.
  destruct (randbelow (S (S i)) g) as [j g']. cbn [fst] in Hj.
  rewrite IH by lia. apply swap_lookup_other; lia.
Qed.

(** Every ordering of the list is the outcome of some draws. *)
Lemma shuffle_from_any {A} (i : nat) :
  forall (x target : list A),
    i < length x -> x ≡ₚ target -> skipn (S i) x = skipn (S i) target ->
    exists pre, length pre = i /\ fst (shuffle_from i x pre) = target.
Proof.
  induction i as [|i IH]; intros x target Hi Hperm Hdrop.
  - exists []. split; [reflexivity|]. cbn [shuffle_from fst].
    pose proof (Permutation_length Hperm) as Hlen.
    destruct x as [|a x]; [cbn in Hi; lia|].
    destruct target as [|b target]; [discriminate|].
    cbn [skipn] in Hdrop. rewrite !drop_0 in Hdrop. subst target.
    change (a :: x) with ([a] ++ x) in Hperm. change (b :: x) with ([b] ++ x) in Hperm.
    apply Permutation_app_inv_r in Hperm. apply Permutation_length_1 in Hperm.
    now subst.
  - pose proof (Permutation_length Hperm) as Hlen.
    destruct (lookup_lt_is_Some_2 target (S i)) as [t Ht]; [lia|].
    destruct (lookup_lt_is_Some_2 x (S i)) as [a Ha]; [lia|].
    assert (Hp : firstn (S (S i)) x ≡ₚ firstn (S (S i)) target).
    { apply (Permutation_app_inv_r (skipn (S (S i)) target)).
      rewrite <- Hdrop at 1. now rewrite !take_drop. }
    assert (Hin : t ∈ firstn (S (S i)) x).
    { rewrite Hp. apply (list_elem_of_lookup_2 _ (S i)).
      now rewrite lookup_take_lt by lia. }
    apply list_elem_of_lookup_1 in Hin as [j Hj].
    pose proof (lookup_lt_Some _ _ _ Hj) as Hjlt. rewrite length_take in Hjlt.
    rewrite lookup_take_lt in Hj by lia.
    set (y := swap (S i) j x).
    assert (Hy : y !! S i = Some t) by (apply (swap_lookup_first _ _ _ a); assumption).
    assert (Hdy : skipn (S (S i)) y = skipn (S (S i)) x).
    { apply list_eq. intros k. rewrite !lookup_drop.
      apply swap_lookup_other; lia. }
    destruct (IH y target) as (pre & Hpl & Hpre).
    + unfold y. rewrite swap_length. lia.
    + unfold y. now rewrite swap_Permutation.
    + rewrite (drop_S _ _ _ Hy), (drop_S _ _ _ Ht). now rewrite Hdy, Hdrop.
    + exists (j :: pre). split; [cbn; now rewrite Hpl|].
      cbn [shuffle_from randbelow]. rewrite Nat.mod_small by lia. exact Hpre.
Qed.

Lemma shuffle_tape_any {A} (x target : list A) :
  x ≡ₚ target ->
  exists pre, length pre = length x - 1 /\
              forall rest, shuffle_tape x (pre ++ rest) = (target, rest).
Proof.
  intros Hperm. pose proof (Permutation_length Hperm) as Hlen.
  destruct x as [|a x].
  - apply Permutation_nil in Hperm. subst target. exists []. split; [reflexivity|].
    intros rest. reflexivity.
  - destruct (shuffle_from_any (length (a :: x) - 1) (a :: x) target)
      as (pre & Hpl & Hpre).
    + cbn. lia.
    + exact Hperm.
    + rewrite !drop_ge; [reflexivity| |]; cbn [length] in *; lia.
    + exists pre. split; [exact Hpl|]. intros rest.
      rewrite shuffle_tape_frame by exact Hpl. unfold shuffle_tape. now rewrite Hpre.
Qed.

(** On a list without repetitions, different draws give different
    orderings. *)
Lemma shuffle_from_draws_inj {A} (i : nat) :
  forall (x : list A) (g1 g2 : Tape),
    NoDup x -> i < length x ->
    fst (shuffle_from i x g1) = fst (shuffle_from i x g2) ->
    shuffle_draws i g1 = shuffle_draws i g2.
Proof.
  induction i as [|i IH]; intros x g1 g2 Hnd Hi Heq; [reflexivity|].
  cbn [shuffle_from shuffle_draws] in *.
  pose proof (randbelow_lt (S (S i)) g1 ltac:(lia)) as Hj1.
  pose proof (randbelow_lt (S (S i)) g2 ltac:(lia)) as Hj2.
  destruct (randbelow (S (S i)) g1) as [j1 g1'].
  destruct (randbelow (S (S i)) g2) as [j2 g2']. cbn [fst] in Hj1, Hj2.
  destruct (lookup_lt_is_Some_2 x (S i)) as [a Ha]; [lia|].
  destruct (lookup_lt_is_Some_2 x j1) as [b1 Hb1]; [lia|].
  destruct (lookup_lt_is_Some_2 x j2) as [b2 Hb2]; [lia|].
  assert (Hat : fst (shuffle_from i (swap (S i) j1 x) g1') !! S i
                = fst (shuffle_from i (swap (S i) j2 x) g2') !! S i) by now rewrite Heq.
  rewrite !shuffle_from_above in Hat by lia.
  rewrite (swap_lookup_first _ _ _ a b1 Ha Hb1), (swap_lookup_first _ _ _ a b2 Ha Hb2) in Hat.
  injection Hat as <-.
  assert (j1 = j2) as <- by exact (NoDup_lookup _ _ _ _ Hnd Hb1 Hb2).
  f_equal. apply (IH (swap (S i) j1 x)); [|rewrite swap_length; lia|exact Heq].
  now rewrite swap_Permutation.
Qed.

(** ** Computations that use up a given stretch of the random source *)

Lemma framed_returns {G A} (c : M G A) gl pre a gl' :
  framed c gl pre a gl' -> returns c (mkWorld pre gl) a (mkWorld [] gl').
Proof. intros H. unfold returns. rewrite <- (app_nil_r pre) at 1. apply H. Qed.

Lemma framed_ret {G A} (a : A) (gl : G) : framed (ret a) gl [] a gl.
Proof. intros rest. reflexivity. Qed.

Lemma framed_bind {G A B} (c : M G A) (k : A -> M G B) gl pre1 a gl1 pre2 b gl2 :
  framed c gl pre1 a gl1 -> framed (k a) gl1 pre2 b gl2 ->
  framed (bind c k) gl (pre1 ++ pre2) b gl2.
Proof. intros H1 H2 rest. unfold bind. rewrite <- app_assoc, H1. apply H2. Qed.

Lemma framed_get {G} (gl : G) : framed get_globals gl [] gl gl.
Proof. intros rest. reflexivity. Qed.

Lemma framed_put {G} (g gl : G) : framed (put_globals g) gl [] tt g.
Proof. intros rest. reflexivity. Qed.

Lemma framed_shuffle {G A} (x target : list A) (gl : G) :
  x ≡ₚ target -> exists pre, framed (shuffle x) gl pre target gl.
Proof.
  intros Hperm. destruct (shuffle_tape_any x target Hperm) as (pre & _ & Hpre).
  exists pre. intros rest. unfold shuffle. cbn [rng globals]. now rewrite Hpre.
Qed.

(** ** The two draws of a change trial *)

Lemma randint_exact {G} (a b : Z) (w : World G) :
  (a <= b)%Z ->
  randint a b w
  = Ok ((a + Z.of_nat (fst (randbelow (Z.to_nat (b - a + 1)) (rng w))))%Z,
        mkWorld (snd (randbelow (Z.to_nat (b - a + 1)) (rng w))) (globals w)).
Proof.
  intros Hab. unfold randint. destruct (Z.leb_spec a b); [|lia].
  now destruct (randbelow (Z.to_nat (b - a + 1)) (rng w)).
Qed.

Lemma change_draws_range (n hi : nat) (g : Tape) :
  1 <= n <= hi ->
  fst (fst (change_draws n hi g)) < n /\
  n <= snd (fst (change_draws n hi g)) <= hi.
Proof.
  intros Hn. unfold change_draws.
  pose proof (randbelow_lt n g ltac:(lia)) as H1.
  destruct (randbelow n g) as [r1 g1]. cbn [fst] in H1.
  pose proof (randbelow_lt (hi - n + 1) g1 ltac:(lia)) as H2.
  destruct (randbelow (hi - n + 1) g1) as [r2 g2]. cbn [fst snd] in *. lia.
Qed.

(** Every pair of indices in the two ranges is drawn by some source. *)
Lemma change_draws_any (n hi i0 j0 : nat) (rest : Tape) :
  i0 < n -> n <= j0 <= hi ->
  change_draws n hi (i0 :: (j0 - n) :: rest) = (i0, j0, rest).
Proof.
  intros Hi Hj. unfold change_draws. cbn [randbelow].
  rewrite !Nat.mod_small by lia. repeat f_equal. lia.
Qed.

Lemma change_step_exact {G} (hi : nat) (self : Trial) (pool : list Color) (w : World G) :
  rep_num self mod 2 = 0 ->
  1 <= num_stimuli self <= hi -> hi < length (probe_colors self ++ pool) ->
  exists v,
    (probe_colors self ++ pool) !! snd (fst (change_draws (num_stimuli self) hi (rng w)))
    = Some v /\
    returns (change_step (Z.of_nat hi) self pool) w
      (with_colors self true
         (firstn (num_stimuli self) (stim_colors self ++ pool))
         (firstn (num_stimuli self)
            (<[fst (fst (change_draws (num_stimuli self) hi (rng w))) := v]>
               (probe_colors self ++ pool))))
      (mkWorld (snd (change_draws (num_stimuli self) hi (rng w))) (globals w)).
Proof.
  intros Heven Hn Hlen.
  pose proof (change_draws_range (num_stimuli self) hi (rng w) Hn) as [Hi Hj].
  unfold change_draws in *.
  pose proof (randint_exact (G:=G) 0 (Z.of_nat (num_stimuli self) - 1) w ltac:(lia)) as H1.
  replace (Z.to_nat (Z.of_nat (num_stimuli self) - 1 - 0 + 1)) with (num_stimuli self)
    in H1 by lia.
  destruct (randbelow (num_stimuli self) (rng w)) as [r1 g1]. cbn [fst snd] in H1.
  pose proof (randint_exact (Z.of_nat (num_stimuli self)) (Z.of_nat hi)
                (mkWorld g1 (globals w)) ltac:(lia)) as H2.
  replace (Z.to_nat (Z.of_nat hi - Z.of_nat (num_stimuli self) + 1))
    with (hi - num_stimuli self + 1) in H2 by lia.
  cbn [rng globals] in H2.
  destruct (randbelow (hi - num_stimuli self + 1) g1) as [r2 g2]. cbn [fst snd] in *.
  set (probe := probe_colors self ++ pool) in *.
  destruct (getitem_returns probe (Z.of_nat (num_stimuli self) + Z.of_nat r2)
              (mkWorld g2 (globals w))) as (v & Hv & Hgv); [lia|].
  replace (Z.to_nat (Z.of_nat (num_stimuli self) + Z.of_nat r2))
    with (num_stimuli self + r2) in Hv by lia.
  exists v. split; [exact Hv|].
  unfold change_step. rewrite Heven. cbn [Nat.eqb]. fold probe.
  eapply returns_bind; [exact H1|].
  eapply returns_bind; [exact H2|].
  eapply returns_bind; [exact Hgv|].
  pose proof (setitem_returns probe (0 + Z.of_nat r1) v (mkWorld g2 (globals w))
                ltac:(lia)) as Hset.
  replace (Z.to_nat (0 + Z.of_nat r1)) with r1 in Hset by lia.
  eapply returns_bind; [exact Hset|]. reflexivity.
Qed.

Lemma discrete_shuffled_pool (w : World (Globals Discrete.Palettes)) :
  discrete_state (globals w) ->
  exists s1 s2,
    fst (discrete_shuffled w) = s1 ++ s2 /\ s1 ≡ₚ Discrete.palette /\ s2 ≡ₚ Discrete.palette
    /\ globals (snd (discrete_shuffled w)) = mkGlobals (s1, s2) (NUM_REPS (globals w)).
Proof.
  intros [H1 H2]. unfold discrete_shuffled.
  pose proof (shuffle_tape_Permutation (fst (colors (globals w))) (rng w)) as P1.
  destruct (shuffle_tape (fst (colors (globals w))) (rng w)) as [s1 g1].
  pose proof (shuffle_tape_Permutation (snd (colors (globals w))) g1) as P2.
  destruct (shuffle_tape (snd (colors (globals w))) g1) as [s2 g2].
  cbn [fst snd] in *. exists s1, s2. split; [reflexivity|].
  split; [now rewrite P1|]. split; [now rewrite P2|reflexivity].
Qed.

Lemma discrete_shuffled_returns (self : Trial) (w : World (Globals Discrete.Palettes))
    (t : Trial) (w' : World (Globals Discrete.Palettes)) :
  returns (change_step 13 self (fst (discrete_shuffled w))) (snd (discrete_shuffled w)) t w' ->
  returns (Discrete.set_colors self) w t w'.
Proof.
  unfold discrete_shuffled.
  pose proof (shuffle_exact (fst (colors (globals w))) w) as Hs1.
  destruct (shuffle_tape (fst (colors (globals w))) (rng w)) as [s1 g1].
  cbn [fst snd] in Hs1.
  pose proof (shuffle_exact (snd (colors (globals w)))
                (mkWorld g1 (mkGlobals (s1, snd (colors (globals w)))
                               (NUM_REPS (globals w))))) as Hs2.
  cbn [rng globals] in Hs2.
  destruct (shuffle_tape (snd (colors (globals w))) g1) as [s2 g2].
  cbn [fst snd] in Hs2 |- *. intros Hstep.
  rewrite discrete_set_colors_unfold.
  eapply returns_bind; [reflexivity|].
  step_returns Hs1. eapply returns_bind; [reflexivity|].
  step_returns Hs2. eapply returns_bind; [reflexivity|].
  exact Hstep.
Qed.

Lemma continuous_shuffled_returns (self : Trial) (w : World (Globals (list Color)))
    (t : Trial) (w' : World (Globals (list Color))) :
  returns (change_step 7 self (fst (continuous_shuffled w))) (snd (continuous_shuffled w))
    t w' ->
  returns (Continuous.set_colors self) w t w'.
Proof.
  unfold continuous_shuffled.
  pose proof (shuffle_exact (colors (globals w)) w) as Hs1.
  destruct (shuffle_tape (colors (globals w)) (rng w)) as [s1 g1].
  cbn [fst snd] in Hs1 |- *. intros Hstep.
  rewrite continuous_set_colors_unfold.
  eapply returns_bind; [reflexivity|].
  step_returns Hs1. eapply returns_bind; [reflexivity|].
  exact Hstep.
Qed.

(** What [set_colors] of the discrete script does on a change trial, in
    terms of the shuffled pool and the two draws. *)
Lemma discrete_set_colors_exact (self : Trial) (w : World (Globals Discrete.Palettes)) :
  rep_num self mod 2 = 0 -> stim_colors self = [] -> probe_colors self = [] ->
  1 <= num_stimuli self <= 13 -> discrete_state (globals w) ->
  let n := num_stimuli self in
  let pool := fst (discrete_shuffled w) in
  let ws := snd (discrete_shuffled w) in
  let dr := change_draws n 13 (rng ws) in
  length pool = 16 /\ fst (fst dr) < n /\ n <= snd (fst dr) <= 13 /\
  exists v,
    pool !! snd (fst dr) = Some v /\
    returns (Discrete.set_colors self) w
      (with_colors self true (firstn n pool) (firstn n (<[fst (fst dr) := v]> pool)))
      (mkWorld (snd dr) (globals ws)) /\
    (8 <= n -> forall k, 14 <= k -> pool !! k <> Some v).
Proof.
  intros Heven Hs Hp Hn Hstate n pool ws dr.
  destruct (discrete_shuffled_pool w Hstate) as (s1 & s2 & Epool & P1 & P2 & _).
  assert (L1 : length s1 = 8) by now rewrite (Permutation_length P1).
  assert (L2 : length s2 = 8) by now rewrite (Permutation_length P2).
  assert (Hlen : length pool = 16) by (unfold pool; rewrite Epool, length_app; lia).
  destruct (change_draws_range n 13 (rng ws) Hn) as [Hi Hj]. fold dr in Hi, Hj.
  split; [exact Hlen|]. split; [exact Hi|]. split; [exact Hj|].
  destruct (change_step_exact 13 self pool ws Heven Hn) as (v & Hv & Hr).
  { rewrite Hp. cbn [app]. lia. }
  rewrite Hs, Hp in Hr. rewrite Hp in Hv. cbn [app] in Hr, Hv.
  fold n in Hr, Hv. fold dr in Hr, Hv.
  exists v. split; [exact Hv|]. split.
  - apply discrete_shuffled_returns. exact Hr.
  - intros H8 k Hk Hkv. unfold pool in Hv, Hkv. rewrite Epool in Hv, Hkv.
    rewrite lookup_app_r in Hv by lia. rewrite lookup_app_r in Hkv by lia.
    assert (Hnd : NoDup s2) by (rewrite P2; apply discrete_palette_NoDup).
    pose proof (NoDup_lookup _ _ _ _ Hnd Hv Hkv). lia.
Qed.

Lemma continuous_set_colors_exact (self : Trial) (w : World (Globals (list Color))) :
  rep_num self mod 2 = 0 -> stim_colors self = [] -> probe_colors self = [] ->
  1 <= num_stimuli self <= 7 -> continuous_state (globals w) ->
  let n := num_stimuli self in
  let pool := fst (continuous_shuffled w) in
  let ws := snd (continuous_shuffled w) in
  let dr := change_draws n 7 (rng ws) in
  length pool = 8 /\ fst (fst dr) < n /\ n <= snd (fst dr) < length pool /\
  exists v,
    pool !! snd (fst dr) = Some v /\
    returns (Continuous.set_colors self) w
      (with_colors self true (firstn n pool) (firstn n (<[fst (fst dr) := v]> pool)))
      (mkWorld (snd dr) (globals ws)).
Proof.
  intros Heven Hs Hp Hn Hstate n pool ws dr.
  assert (Hlen : length pool = 8).
  { unfold pool, continuous_shuffled.
    pose proof (shuffle_tape_Permutation (colors (globals w)) (rng w)) as P1.
    destruct (shuffle_tape (colors (globals w)) (rng w)) as [s1 g1]. cbn [fst] in *.
    unfold continuous_state in Hstate.
    now rewrite (Permutation_length P1), (Permutation_length Hstate). }
  destruct (change_draws_range n 7 (rng ws) Hn) as [Hi Hj]. fold dr in Hi, Hj.
  split; [exact Hlen|]. split; [exact Hi|]. split; [lia|].
  destruct (change_step_exact 7 self pool ws Heven Hn) as (v & Hv & Hr).
  { rewrite Hp. cbn [app]. lia. }
  rewrite Hs, Hp in Hr. rewrite Hp in Hv. cbn [app] in Hr, Hv.
  fold n in Hr, Hv. fold dr in Hr, Hv.
  exists v. split; [exact Hv|]. apply continuous_shuffled_returns. exact Hr.
Qed.

(** The random source that makes the shuffles of [set_colors] leave the
    palettes as they are and then hands out [rest]. *)
Lemma discrete_shuffled_any (gl : Globals Discrete.Palettes) (rest : Tape) :
  exists g, discrete_shuffled (mkWorld g gl)
            = (fst (colors gl) ++ snd (colors gl),
               mkWorld rest (mkGlobals (fst (colors gl), snd (colors gl)) (NUM_REPS gl))).
Proof.
  destruct (shuffle_tape_any (fst (colors gl)) (fst (colors gl)) (Permutation_refl _))
    as (pre1 & _ & H1).
  destruct (shuffle_tape_any (snd (colors gl)) (snd (colors gl)) (Permutation_refl _))
    as (pre2 & _ & H2).
  exists (pre1 ++ pre2 ++ rest). unfold discrete_shuffled. cbn [rng globals].
  now rewrite H1, H2.
Qed.

Lemma continuous_shuffled_any (gl : Globals (list Color)) (rest : Tape) :
  exists g, continuous_shuffled (mkWorld g gl)
            = (colors gl, mkWorld rest (mkGlobals (colors gl) (NUM_REPS gl))).
Proof.
  destruct (shuffle_tape_any (colors gl) (colors gl) (Permutation_refl _))
    as (pre1 & _ & H1).
  exists (pre1 ++ rest). unfold continuous_shuffled. cbn [rng globals].
  now rewrite H1.
Qed.

(** The body of the loops of [set_trials] on an even repetition: the
    positions are shuffled, then the palette(s), then the two draws are made. *)
Lemma set_positions_exact {G} (trial rep n : nat) (w : World G) :
  returns (set_positions (mkTrial rep trial n [] false [] [])) w
    (mkTrial rep trial n (firstn n (fst (shuffle_tape (seq 0 12) (rng w)))) false [] [])
    (mkWorld (snd (shuffle_tape (seq 0 12) (rng w))) (globals w)).
Proof.
  unfold set_positions. cbn [stim_positions app].
  eapply returns_bind; [apply shuffle_exact|reflexivity].
Qed.

Lemma discrete_build_trial_exact (trial rep : nat) (w : World (Globals Discrete.Palettes)) :
  trial < Discrete.NUM_TYPE -> rep mod 2 = 0 -> discrete_state (globals w) ->
  let n := num_stimuli (Discrete.Trial_init trial rep) in
  let ps := fst (shuffle_tape (seq 0 12) (rng w)) in
  let w1 := mkWorld (snd (shuffle_tape (seq 0 12) (rng w))) (globals w) in
  let pool := fst (discrete_shuffled w1) in
  let ws := snd (discrete_shuffled w1) in
  let dr := change_draws n 13 (rng ws) in
  length pool = 16 /\ fst (fst dr) < n /\ n <= snd (fst dr) <= 13 /\
  exists v,
    pool !! snd (fst dr) = Some v /\
    returns (Discrete.build_trial trial rep) w
      (mkTrial rep trial n (firstn n ps) true
         (firstn n pool) (firstn n (<[fst (fst dr) := v]> pool)))
      (mkWorld (snd dr) (globals ws)).
Proof.
  intros Ht Heven Hst n ps w1 pool ws dr.
  pose proof (discrete_Trial_init_load trial Ht) as Hload.
  change (num_stimuli (Discrete.Trial_init trial 0)) with n in Hload.
  destruct (discrete_set_colors_exact (mkTrial rep trial n (firstn n ps) false [] []) w1)
    as (Hlen & Hi & Hj & v & Hv & Hr & _);
    [exact Heven|reflexivity|reflexivity|cbn [num_stimuli]; lia|exact Hst|].
  split; [exact Hlen|]. split; [exact Hi|]. split; [exact Hj|].
  exists v. split; [exact Hv|].
  unfold Discrete.build_trial, build_trial.
  eapply returns_bind; [apply (set_positions_exact trial rep n w)|exact Hr].
Qed.

Lemma continuous_build_trial_exact (trial rep : nat) (w : World (Globals (list Color))) :
  trial < Continuous.NUM_TYPE -> rep mod 2 = 0 -> continuous_state (globals w) ->
  let n := num_stimuli (Continuous.Trial_init trial rep) in
  let ps := fst (shuffle_tape (seq 0 12) (rng w)) in
  let w1 := mkWorld (snd (shuffle_tape (seq 0 12) (rng w))) (globals w) in
  let pool := fst (continuous_shuffled w1) in
  let ws := snd (continuous_shuffled w1) in
  let dr := change_draws n 7 (rng ws) in
  length pool = 8 /\ fst (fst dr) < n /\ n <= snd (fst dr) < length pool /\
  exists v,
    pool !! snd (fst dr) = Some v /\
    returns (Continuous.build_trial trial rep) w
      (mkTrial rep trial n (firstn n ps) true
         (firstn n pool) (firstn n (<[fst (fst dr) := v]> pool)))
      (mkWorld (snd dr) (globals ws)).
Proof.
  intros Ht Heven Hst n ps w1 pool ws dr.
  pose proof (continuous_Trial_init_load trial Ht) as Hload.
  change (num_stimuli (Continuous.Trial_init trial 0)) with n in Hload.
  destruct (continuous_set_colors_exact (mkTrial rep trial n (firstn n ps) false [] []) w1)
    as (Hlen & Hi & Hj & v & Hv & Hr);
    [exact Heven|reflexivity|reflexivity|cbn [num_stimuli]; lia|exact Hst|].
  split; [exact Hlen|]. split; [exact Hi|]. split; [exact Hj|].
  exists v. split; [exact Hv|].
  unfold Continuous.build_trial, build_trial.
  eapply returns_bind; [apply (set_positions_exact trial rep n w)|exact Hr].
Qed.

(** C5 on the code.  On a change trial [set_colors] overwrites entry [i]
    of the probe list with entry [j] of the shuffled pool, where [i] and [j] are
    the two bounded draws [randint(0, n - 1)] and [randint(n, hi)] that follow
    the shuffles: [i] is below [num_stimuli], and every index below
    [num_stimuli] is drawn by some source.  In the continuous script [hi = 7]
    and [j] ranges over the whole rest [[num_stimuli, 8)] of the 8-entry pool.
    In the discrete script [hi] is the literal 13: [j] ranges over
    [[num_stimuli, 13]] of a pool of 16 entries, every such index is drawn by
    some source, and entries 14 and 15 never are; from eight stimuli on, the
    two colours they hold are never the replacement.  The same holds of the
    body of the loops of [set_trials] on every even repetition of every
    condition, the draws being those that follow the shuffles of the positions
    and of the palette(s). *)
Theorem replacement_index_ranges (self_d self_c : Trial)
    (wd : World (Globals Discrete.Palettes)) (wc : World (Globals (list Color))) :
  rep_num self_d mod 2 = 0 -> stim_colors self_d = [] -> probe_colors self_d = [] ->
  1 <= num_stimuli self_d <= 12 -> discrete_state (globals wd) ->
  rep_num self_c mod 2 = 0 -> stim_colors self_c = [] -> probe_colors self_c = [] ->
  1 <= num_stimuli self_c <= 6 -> continuous_state (globals wc) ->
  (let n := num_stimuli self_d in
   let pool := fst (discrete_shuffled wd) in
   let ws := snd (discrete_shuffled wd) in
   let dr := change_draws n 13 (rng ws) in
   length pool = 16 /\ fst (fst dr) < n /\ n <= snd (fst dr) <= 13 /\
   exists v,
     pool !! snd (fst dr) = Some v /\
     returns (Discrete.set_colors self_d) wd
       (with_colors self_d true (firstn n pool) (firstn n (<[fst (fst dr) := v]> pool)))
       (mkWorld (snd dr) (globals ws)) /\
     (8 <= n -> forall k, 14 <= k -> pool !! k <> Some v))
  /\
  (forall i0 j0 rest,
     i0 < num_stimuli self_d -> num_stimuli self_d <= j0 <= 13 ->
     exists g pool v w',
       length pool = 16 /\ pool !! j0 = Some v /\
       returns (Discrete.set_colors self_d) (mkWorld g (globals wd))
         (with_colors self_d true (firstn (num_stimuli self_d) pool)
            (firstn (num_stimuli self_d) (<[i0 := v]> pool))) w'
       /\ rng w' = rest)
  /\
  (let n := num_stimuli self_c in
   let pool := fst (continuous_shuffled wc) in
   let ws := snd (continuous_shuffled wc) in
   let dr := change_draws n 7 (rng ws) in
   length pool = 8 /\ fst (fst dr) < n /\ n <= snd (fst dr) < length pool /\
   exists v,
     pool !! snd (fst dr) = Some v /\
     returns (Continuous.set_colors self_c) wc
       (with_colors self_c true (firstn n pool) (firstn n (<[fst (fst dr) := v]> pool)))
       (mkWorld (snd dr) (globals ws)))
  /\
  (forall i0 j0 rest,
     i0 < num_stimuli self_c -> num_stimuli self_c <= j0 < 8 ->
     exists g pool v w',
       length pool = 8 /\ pool !! j0 = Some v /\
       returns (Continuous.set_colors self_c) (mkWorld g (globals wc))
         (with_colors self_c true (firstn (num_stimuli self_c) pool)
            (firstn (num_stimuli self_c) (<[i0 := v]> pool))) w'
       /\ rng w' = rest)
  /\
  (forall trial rep (w : World (Globals Discrete.Palettes)),
     trial < Discrete.NUM_TYPE -> rep mod 2 = 0 -> discrete_state (globals w) ->
     let n := num_stimuli (Discrete.Trial_init trial rep) in
     let ps := fst (shuffle_tape (seq 0 12) (rng w)) in
     let w1 := mkWorld (snd (shuffle_tape (seq 0 12) (rng w))) (globals w) in
     let pool := fst (discrete_shuffled w1) in
     let ws := snd (discrete_shuffled w1) in
     let dr := change_draws n 13 (rng ws) in
     length pool = 16 /\ fst (fst dr) < n /\ n <= snd (fst dr) <= 13 /\
     exists v,
       pool !! snd (fst dr) = Some v /\
       returns (Discrete.build_trial trial rep) w
         (mkTrial rep trial n (firstn n ps) true
            (firstn n pool) (firstn n (<[fst (fst dr) := v]> pool)))
         (mkWorld (snd dr) (globals ws)))
  /\
  (forall trial rep (w : World (Globals (list Color))),
     trial < Continuous.NUM_TYPE -> rep mod 2 = 0 -> continuous_state (globals w) ->
     let n := num_stimuli (Continuous.Trial_init trial rep) in
     let ps := fst (shuffle_tape (seq 0 12) (rng w)) in
     let w1 := mkWorld (snd (shuffle_tape (seq 0 12) (rng w))) (globals w) in
     let pool := fst (continuous_shuffled w1) in
     let ws := snd (continuous_shuffled w1) in
     let dr := change_draws n 7 (rng ws) in
     length pool = 8 /\ fst (fst dr) < n /\ n <= snd (fst dr) < length pool /\
     exists v,
       pool !! snd (fst dr) = Some v /\
       returns (Continuous.build_trial trial rep) w
         (mkTrial rep trial n (firstn n ps) true
            (firstn n pool) (firstn n (<[fst (fst dr) := v]> pool)))
         (mkWorld (snd dr) (globals ws))).
Proof.
  intros Hed Hsd Hpd Hnd Hstd Hec Hsc Hpc Hnc Hstc.
  split; [apply discrete_set_colors_exact; try assumption; lia|].
  split; [|split; [apply continuous_set_colors_exact; try assumption; lia|
                   split; [|split; [exact discrete_build_trial_exact
                                   |exact continuous_build_trial_exact]]]].
  - intros i0 j0 rest Hi Hj.
    destruct (discrete_shuffled_any (globals wd) (i0 :: (j0 - num_stimuli self_d) :: rest))
      as (g & Hg).
    pose proof (discrete_set_colors_exact self_d (mkWorld g (globals wd))
                  Hed Hsd Hpd ltac:(lia) Hstd) as H.
    cbv zeta in H. rewrite Hg in H. cbn [fst snd rng globals] in H.
    rewrite change_draws_any in H by lia. cbn [fst snd] in H.
    destruct H as (Hlen & _ & _ & v & Hv & Hr & _).
    eexists g, _, v, _. split; [exact Hlen|]. split; [exact Hv|].
    split; [exact Hr|reflexivity].
  - intros i0 j0 rest Hi Hj.
    destruct (continuous_shuffled_any (globals wc) (i0 :: (j0 - num_stimuli self_c) :: rest))
      as (g & Hg).
    pose proof (continuous_set_colors_exact self_c (mkWorld g (globals wc))
                  Hec Hsc Hpc ltac:(lia) Hstc) as H.
    cbv zeta in H. rewrite Hg in H. cbn [fst snd rng globals] in H.
    rewrite change_draws_any in H by lia. cbn [fst snd] in H.
    destruct H as (Hlen & _ & _ & v & Hv & Hr).
    eexists g, _, v, _. split; [exact Hlen|]. split; [exact Hv|].
    split; [exact Hr|reflexivity].
Qed.

Lemma replacement_index_ranges_witness :
  length (fst (discrete_shuffled (discrete_world [3; 1; 4; 1; 5] 50))) = 16
  /\ 12 <= snd (fst (change_draws 12 13
                       (rng (snd (discrete_shuffled (discrete_world [3; 1; 4; 1; 5] 50))))))
     <= 13
  /\ exists g pool v w',
       length pool = 16 /\ pool !! 13 = Some v /\
       returns (Discrete.set_colors (mkTrial 0 5 12 (seq 0 12) false [] []))
         (mkWorld g (globals (discrete_world [3; 1; 4; 1; 5] 50)))
         (with_colors (mkTrial 0 5 12 (seq 0 12) false [] []) true
            (firstn 12 pool) (firstn 12 (<[11 := v]> pool))) w'
       /\ rng w' = [].
Proof.
  pose proof (replacement_index_ranges
                (mkTrial 0 5 12 (seq 0 12) false [] [])
                (mkTrial 0 2 6 (seq 0 6) false [] [])
                (discrete_world [3; 1; 4; 1; 5] 50) (continuous_world [2; 7] 50)) as H.
  cbv zeta in H.
  destruct H as ((H1 & _ & H3 & _) & H4 & _).
  - reflexivity.
  - reflexivity.
  - reflexivity.
  - cbn. lia.
  - split; apply Permutation_refl.
  - reflexivity.
  - reflexivity.
  - reflexivity.
  - cbn. lia.
  - apply Permutation_refl.
  - split; [exact H1|]. split; [exact H3|].
    apply (H4 11 13 []); cbn; lia.
Defined.

(** ** Every order can come out of [set_trials] *)

Lemma framed_set_positions {G} (self : Trial) (gl : G) :
  exists pre t,
    framed (set_positions self) gl pre t gl /\
    num_stimuli t = num_stimuli self /\ probe_colors t = probe_colors self.
Proof.
  destruct (framed_shuffle (stim_positions self ++ seq 0 12) _ gl (Permutation_refl _))
    as (pre & Hpre).
  eexists _, _. split.
  - unfold set_positions. eapply framed_bind; [exact Hpre|apply framed_ret].
  - split; reflexivity.
Qed.

Lemma framed_change_step {G} (hi : nat) (self : Trial) (pool : list Color) (gl : G) :
  1 <= num_stimuli self <= hi -> hi < length (probe_colors self ++ pool) ->
  exists pre t, framed (change_step (Z.of_nat hi) self pool) gl pre t gl.
Proof.
  intros Hn Hlen. destruct (Nat.eq_dec (rep_num self mod 2) 0) as [Heven|Hodd].
  - destruct (lookup_lt_is_Some_2 (probe_colors self ++ pool) (num_stimuli self))
      as [v Hv]; [lia|].
    exists [0; 0],
      (with_colors self true
         (firstn (num_stimuli self) (stim_colors self ++ pool))
         (firstn (num_stimuli self) (<[0 := v]> (probe_colors self ++ pool)))).
    intros rest.
    destruct (change_step_exact hi self pool (mkWorld ([0; 0] ++ rest) gl) Heven Hn Hlen)
      as (v' & Hv' & Hr).
    cbn [rng app globals] in Hv', Hr.
    assert (E : change_draws (num_stimuli self) hi (0 :: 0 :: rest)
                = (0, num_stimuli self, rest)).
    { pose proof (change_draws_any (num_stimuli self) hi 0 (num_stimuli self) rest
                    ltac:(lia) ltac:(lia)) as E0.
      now rewrite Nat.sub_diag in E0. }
    rewrite E in Hv', Hr. cbn [fst snd] in Hv', Hr.
    assert (v' = v) as -> by congruence. exact Hr.
  - exists [],
      (with_colors self (change self)
         (firstn (num_stimuli self) (stim_colors self ++ pool))
         (firstn (num_stimuli self) (probe_colors self ++ pool))).
    intros rest. now apply change_step_odd.
Qed.

Lemma framed_discrete_set_colors (self : Trial) (gl : Globals Discrete.Palettes) :
  probe_colors self = [] -> 1 <= num_stimuli self <= 13 -> discrete_state gl ->
  exists pre t gl', framed (Discrete.set_colors self) gl pre t gl' /\ discrete_state gl'.
Proof.
  intros Hp Hn [H1 H2].
  destruct (framed_shuffle (fst (colors gl)) _ gl (Permutation_refl _)) as (pre1 & F1).
  set (gl0 := mkGlobals (fst (colors gl), snd (colors gl)) (NUM_REPS gl)).
  destruct (framed_shuffle (snd (colors gl)) _ gl0 (Permutation_refl _)) as (pre2 & F2).
  destruct (framed_change_step 13 self (fst (colors gl) ++ snd (colors gl)) gl0)
    as (pre3 & t & F3); [lia| |].
  { rewrite Hp. cbn [app].
    rewrite length_app, (Permutation_length H1), (Permutation_length H2). cbn. lia. }
  eexists _, t, gl0. split; [|exact (conj H1 H2)].
  rewrite discrete_set_colors_unfold.
  eapply framed_bind; [apply framed_get|].
  eapply framed_bind; [exact F1|].
  eapply framed_bind; [apply framed_put|].
  eapply framed_bind; [exact F2|].
  eapply framed_bind; [apply framed_put|].
  exact F3.
Qed.

Lemma framed_continuous_set_colors (self : Trial) (gl : Globals (list Color)) :
  probe_colors self = [] -> 1 <= num_stimuli self <= 7 -> continuous_state gl ->
  exists pre t gl', framed (Continuous.set_colors self) gl pre t gl' /\ continuous_state gl'.
Proof.
  intros Hp Hn H1. unfold continuous_state in H1.
  destruct (framed_shuffle (colors gl) _ gl (Permutation_refl _)) as (pre1 & F1).
  set (gl0 := mkGlobals (colors gl) (NUM_REPS gl)).
  destruct (framed_change_step 7 self (colors gl) gl0) as (pre3 & t & F3); [lia| |].
  { rewrite Hp. cbn [app]. rewrite (Permutation_length H1). cbn. lia. }
  eexists _, t, gl0. split; [|exact H1].
  rewrite continuous_set_colors_unfold.
  eapply framed_bind; [apply framed_get|].
  eapply framed_bind; [exact F1|].
  eapply framed_bind; [apply framed_put|].
  exact F3.
Qed.

Lemma framed_discrete_build_trial (trial rep : nat) (gl : Globals Discrete.Palettes) :
  trial < Discrete.NUM_TYPE -> discrete_state gl ->
  exists pre t gl', framed (Discrete.build_trial trial rep) gl pre t gl' /\ discrete_state gl'.
Proof.
  intros Ht Hst. pose proof (discrete_Trial_init_load trial Ht) as Hload.
  destruct (framed_set_positions (Discrete.Trial_init trial rep) gl)
    as (pre1 & t1 & F1 & Hn & Hp).
  destruct (framed_discrete_set_colors t1 gl) as (pre2 & t & gl' & F2 & Hst').
  - now rewrite Hp.
  - rewrite Hn.
    change (num_stimuli (Discrete.Trial_init trial rep))
      with (num_stimuli (Discrete.Trial_init trial 0)). lia.
  - exact Hst.
  - exists (pre1 ++ pre2), t, gl'. split; [|exact Hst'].
    unfold Discrete.build_trial, build_trial. eapply framed_bind; eassumption.
Qed.

Lemma framed_continuous_build_trial (trial rep : nat) (gl : Globals (list Color)) :
  trial < Continuous.NUM_TYPE -> continuous_state gl ->
  exists pre t gl',
    framed (Continuous.build_trial trial rep) gl pre t gl' /\ continuous_state gl'.
Proof.
  intros Ht Hst. pose proof (continuous_Trial_init_load trial Ht) as Hload.
  destruct (framed_set_positions (Continuous.Trial_init trial rep) gl)
    as (pre1 & t1 & F1 & Hn & Hp).
  destruct (framed_continuous_set_colors t1 gl) as (pre2 & t & gl' & F2 & Hst').
  - now rewrite Hp.
  - rewrite Hn.
    change (num_stimuli (Continuous.Trial_init trial rep))
      with (num_stimuli (Continuous.Trial_init trial 0)). lia.
  - exact Hst.
  - exists (pre1 ++ pre2), t, gl'. split; [|exact Hst'].
    unfold Continuous.build_trial, build_trial. eapply framed_bind; eassumption.
Qed.

Lemma framed_for_each {G A B} (I : G -> Prop) (xs : list A) (body : A -> M G B) :
  (forall x gl, In x xs -> I gl ->
     exists pre b gl', framed (body x) gl pre b gl' /\ I gl') ->
  forall gl, I gl ->
    exists pre bs gl', framed (for_each xs body) gl pre bs gl' /\ I gl'.
Proof.
  induction xs as [|x xs IH]; intros Hbody gl Hgl.
  - exists [], [], gl. split; [apply framed_ret|exact Hgl].
  - destruct (Hbody x gl) as (pre1 & b & gl1 & F1 & H1); [now left|exact Hgl|].
    destruct IH with (gl := gl1) as (pre2 & bs & gl2 & F2 & H2); [|exact H1|].
    { intros y gl0 Hy. apply Hbody. now right. }
    eexists _, (b :: bs), gl2. split; [|exact H2].
    cbn [for_each]. eapply framed_bind; [exact F1|].
    eapply framed_bind; [exact F2|apply framed_ret].
Qed.

Section FramedScript.

Variable P : Type.
Variable NUM_TYPE : nat.
Variable Trial_init : nat -> nat -> Trial.
Variable set_colors : Trial -> M (Globals P) Trial.
Variable I : Globals P -> Prop.

Hypothesis framed_build_trial :
  forall trial rep gl, trial < NUM_TYPE -> I gl ->
    exists pre t gl',
      framed (build_trial Trial_init set_colors trial rep) gl pre t gl' /\ I gl'.

Lemma framed_build_all (gl : Globals P) :
  I gl ->
  exists pre built gl',
    framed (build_all NUM_TYPE Trial_init set_colors) gl pre built gl'.
Proof.
  intros Hgl.
  destruct (framed_for_each I (seq 0 (NUM_REPS gl))
              (fun rep => for_each (seq 0 NUM_TYPE)
                            (fun trial => build_trial Trial_init set_colors trial rep)))
    with (gl := gl) as (pre & rows & gl' & F & _); [|exact Hgl|].
  - intros rep gl0 _ H0. apply (framed_for_each I); [|exact H0].
    intros trial gl1 Hin H1. apply framed_build_trial; [|exact H1].
    apply in_seq in Hin. lia.
  - eexists _, (concat rows), gl'. unfold build_all.
    eapply framed_bind; [apply framed_get|].
    eapply framed_bind; [exact F|apply framed_ret].
Qed.

(** Some source makes the loops build a list [built], and then, for each
    ordering of [built], some continuation of that source makes [set_trials]
    return it. *)
Lemma framed_set_trials_any (gl : Globals P) :
  I gl ->
  exists pre built gl',
    framed (build_all NUM_TYPE Trial_init set_colors) gl pre built gl' /\
    forall target, built ≡ₚ target ->
      exists pre', framed (set_trials NUM_TYPE Trial_init set_colors) gl pre' target gl'.
Proof.
  intros Hgl. destruct (framed_build_all gl Hgl) as (pre & built & gl' & F).
  exists pre, built, gl'. split; [exact F|].
  intros target Ht. destruct (framed_shuffle built target gl' Ht) as (pre2 & F2).
  exists (pre ++ pre2). unfold set_trials. eapply framed_bind; [exact F|exact F2].
Qed.

End FramedScript.

Lemma pairs_S (reps types : nat) :
  pairs (S reps) types = pairs reps types ++ map (fun trial => (reps, trial)) (seq 0 types).
Proof.
  unfold pairs. rewrite seq_S, flat_map_app. cbn [flat_map Nat.add].
  now rewrite app_nil_r.
Qed.

Lemma pairs_NoDup (reps types : nat) : NoDup (pairs reps types).
Proof.
  induction reps as [|reps IH]; [constructor|].
  rewrite pairs_S. apply NoDup_app. split; [exact IH|]. split.
  - intros [a b] Hin Hin2. apply list_elem_of_In in Hin, Hin2.
    unfold pairs in Hin. apply in_flat_map in Hin as (rep & Hrep & Hab).
    apply in_map_iff in Hab as (trial & E1 & _). apply in_seq in Hrep.
    apply in_map_iff in Hin2 as (trial2 & E2 & _).
    injection E1 as <- _. injection E2 as E _. lia.
  - change (NoDup ((fun trial => (reps, trial)) <$> seq 0 types)).
    apply NoDup_fmap_2; [|apply NoDup_seq]. intros a b E. now injection E.
Qed.

Lemma NoDup_keys (l : list Trial) : NoDup (map key l) -> NoDup l.
Proof. change (map key l) with (key <$> l). apply NoDup_fmap_1. Qed.

Lemma discrete_any_order (reps : nat) :
  exists built,
    length built = reps * Discrete.NUM_TYPE /\
    map key built = pairs reps Discrete.NUM_TYPE /\
    NoDup built /\
    forall target, built ≡ₚ target ->
      exists g w2, returns Discrete.set_trials (discrete_world g reps) target w2.
Proof.
  destruct (framed_set_trials_any _ Discrete.NUM_TYPE Discrete.Trial_init
              Discrete.set_colors discrete_state framed_discrete_build_trial
              (mkGlobals (Discrete.palette, Discrete.palette) reps))
    as (pre & built & gl' & Fb & Hany); [split; apply Permutation_refl|].
  pose proof (framed_returns _ _ _ _ _ Fb) as Hb.
  destruct (built_count Discrete.NUM_TYPE Discrete.Trial_init Discrete.set_colors
              discrete_state discrete_generated (discrete_world pre reps))
    as (built0 & w1 & ts & w2 & Hb0 & Hlen & Hkeys & _).
  { apply discrete_build_trial_returns. }
  { intros trial rep t. apply generated_key. }
  { split; apply Permutation_refl. }
  destruct (returns_functional _ _ _ _ _ _ Hb Hb0) as [<- _].
  exists built. split; [exact Hlen|]. split; [exact Hkeys|]. split.
  - apply NoDup_keys. cbn [discrete_world globals NUM_REPS] in Hkeys.
    rewrite Hkeys. apply pairs_NoDup.
  - intros target Ht. destruct (Hany target Ht) as (pre' & F).
    exists pre', (mkWorld [] gl'). exact (framed_returns _ _ _ _ _ F).
Qed.

Lemma continuous_any_order (reps : nat) :
  exists built,
    length built = reps * Continuous.NUM_TYPE /\
    map key built = pairs reps Continuous.NUM_TYPE /\
    NoDup built /\
    forall target, built ≡ₚ target ->
      exists g w2, returns Continuous.set_trials (continuous_world g reps) target w2.
Proof.
  destruct (framed_set_trials_any _ Continuous.NUM_TYPE Continuous.Trial_init
              Continuous.set_colors continuous_state framed_continuous_build_trial
              (mkGlobals Continuous.palette reps))
    as (pre & built & gl' & Fb & Hany); [apply Permutation_refl|].
  pose proof (framed_returns _ _ _ _ _ Fb) as Hb.
  destruct (built_count Continuous.NUM_TYPE Continuous.Trial_init Continuous.set_colors
              continuous_state continuous_generated (continuous_world pre reps))
    as (built0 & w1 & ts & w2 & Hb0 & Hlen & Hkeys & _).
  { apply continuous_build_trial_returns. }
  { intros trial rep t. apply generated_key. }
  { apply Permutation_refl. }
  destruct (returns_functional _ _ _ _ _ _ Hb Hb0) as [<- _].
  exists built. split; [exact Hlen|]. split; [exact Hkeys|]. split.
  - apply NoDup_keys. cbn [continuous_world globals NUM_REPS] in Hkeys.
    rewrite Hkeys. apply pairs_NoDup.
  - intros target Ht. destruct (Hany target Ht) as (pre' & F).
    exists pre', (mkWorld [] gl'). exact (framed_returns _ _ _ _ _ F).
Qed.

Lemma shuffle_tape_draws_inj {A} (x : list A) (g1 g2 : Tape) :
  NoDup x -> fst (shuffle_tape x g1) = fst (shuffle_tape x g2) ->
  shuffle_draws (length x - 1) g1 = shuffle_draws (length x - 1) g2.
Proof.
  intros Hnd Heq. destruct x as [|a x]; [reflexivity|].
  apply (shuffle_from_draws_inj _ (a :: x)); [exact Hnd|cbn; lia|exact Heq].
Qed.

(** C9: the two loops of [set_trials] build exactly [NUM_REPS * NUM_TYPE]
    trials, one per (repetition, condition) pair in repetition-major order, and
    the returned list is the result of one [shuffle] of that list.  In the
    discrete script, entering subject 999 sets [NUM_REPS] to 2, and the session
    then builds exactly 12 trials before the shuffle.  The shuffle is a real
    one: for some list that the loops build, every ordering of it is returned
    by [set_trials] under some random source; and the loop of the shuffle maps
    the vectors of its bounded draws one-to-one onto the orderings of a list
    without repetitions (every ordering is reached, different draws give
    different orderings), so that uniform draws give each ordering with the
    same probability. *)
Theorem set_trials_count (g : Tape) (reps : nat) :
  (exists built w1 test_set w2,
     returns Discrete.build_all (discrete_world g reps) built w1 /\
     length built = reps * Discrete.NUM_TYPE /\
     map key built = pairs reps Discrete.NUM_TYPE /\
     returns (shuffle built) w1 test_set w2 /\
     returns Discrete.set_trials (discrete_world g reps) test_set w2 /\
     test_set ≡ₚ built)
  /\
  (exists built w1 test_set w2,
     returns Continuous.build_all (continuous_world g reps) built w1 /\
     length built = reps * Continuous.NUM_TYPE /\
     map key built = pairs reps Continuous.NUM_TYPE /\
     returns (shuffle built) w1 test_set w2 /\
     returns Continuous.set_trials (continuous_world g reps) test_set w2 /\
     test_set ≡ₚ built)
  /\
  (forall (isfile : string -> bool) (seed_tape : Z -> Tape) (rest : list DialogAnswer),
     setup_subject isfile (Entered "999" :: rest) Discrete.initial_globals
       = (Subject "999" "999.csv", mkGlobals (Discrete.palette, Discrete.palette) 2)
     /\
     exists built w1 test_set w2,
       returns Discrete.build_all (discrete_world (seed_tape 999%Z) 2) built w1 /\
       length built = 12 /\
       returns (shuffle built) w1 test_set w2 /\
       Discrete.session isfile seed_tape (Entered "999" :: rest)
         (mkWorld g Discrete.initial_globals) = Some (Ok (test_set, w2)))
  /\
  (exists built,
     length built = reps * Discrete.NUM_TYPE /\
     map key built = pairs reps Discrete.NUM_TYPE /\
     NoDup built /\
     forall target, built ≡ₚ target ->
       exists g' w2, returns Discrete.set_trials (discrete_world g' reps) target w2)
  /\
  (exists built,
     length built = reps * Continuous.NUM_TYPE /\
     map key built = pairs reps Continuous.NUM_TYPE /\
     NoDup built /\
     forall target, built ≡ₚ target ->
       exists g' w2, returns Continuous.set_trials (continuous_world g' reps) target w2)
  /\
  (forall x target : list Trial,
     x ≡ₚ target ->
     exists pre, length pre = length x - 1 /\
                 forall rest, shuffle_tape x (pre ++ rest) = (target, rest))
  /\
  (forall (x : list Trial) (g1 g2 : Tape),
     NoDup x -> fst (shuffle_tape x g1) = fst (shuffle_tape x g2) ->
     shuffle_draws (length x - 1) g1 = shuffle_draws (length x - 1) g2).
Proof.
  split; [|split; [|split; [|split; [|split; [|split]]]]].
  - apply (built_count Discrete.NUM_TYPE Discrete.Trial_init Discrete.set_colors
             discrete_state discrete_generated (discrete_world g reps)).
    + apply discrete_build_trial_returns.
    + intros trial rep t. apply generated_key.
    + split; apply Permutation_refl.
  - apply (built_count Continuous.NUM_TYPE Continuous.Trial_init Continuous.set_colors
             continuous_state continuous_generated (continuous_world g reps)).
    + apply continuous_build_trial_returns.
    + intros trial rep t. apply generated_key.
    + apply Permutation_refl.
  - intros isfile seed_tape rest. split; [reflexivity|].
    destruct (built_count Discrete.NUM_TYPE Discrete.Trial_init Discrete.set_colors
                discrete_state discrete_generated (discrete_world (seed_tape 999%Z) 2))
      as (built & w1 & ts & w2 & Hb & Hlen & _ & Hs & Hst & _).
    + apply discrete_build_trial_returns.
    + intros trial rep t. apply generated_key.
    + split; apply Permutation_refl.
    + exists built, w1, ts, w2. split; [exact Hb|]. split; [exact Hlen|].
      split; [exact Hs|]. unfold Discrete.session, session.
      cbn [setup_subject isdigit all_digits]. cbn. f_equal. exact Hst.
  - apply discrete_any_order.
  - apply continuous_any_order.
  - intros x target. apply shuffle_tape_any.
  - intros x g1 g2. apply shuffle_tape_draws_inj.
Qed.

(** * Further properties of the scripts *)

(** ** The subject dialog *)

(** X1: [setup_subject] accepts only an answer that was typed, consists of
    digits, and either is the test subject 999 (then [NUM_REPS] becomes 2) or
    names a save file that does not exist yet (then the module state is
    untouched); the file name is the answer followed by [.csv]. *)
Theorem setup_subject_accepts {P} (isfile : string -> bool)
    (answers : list DialogAnswer) (g : Globals P) (s f : string) (g' : Globals P) :
  setup_subject isfile answers g = (Subject s f, g') ->
  In (Entered s) answers /\ isdigit s = true /\ f = (s ++ ".csv")%string /\
  ((int_of s = 999%Z /\ g' = mkGlobals (colors g) 2)
   \/ (int_of s <> 999%Z /\ isfile f = false /\ g' = g)).
Proof.
  induction answers as [|a rest IH]; [discriminate|].
  destruct a as [|text]; [discriminate|]. cbn [setup_subject].
  assert (Hrest : setup_subject isfile rest g = (Subject s f, g') ->
                  In (Entered s) (Entered text :: rest) /\ isdigit s = true /\
                  f = (s ++ ".csv")%string /\
                  ((int_of s = 999%Z /\ g' = mkGlobals (colors g) 2)
                   \/ (int_of s <> 999%Z /\ isfile f = false /\ g' = g))).
  { intros H. destruct (IH H) as (Hin & Hrest). split; [now right|exact Hrest]. }
  destruct (isdigit text) eqn:Hd; [|exact Hrest].
  destruct (Z.eqb_spec (int_of text) 999) as [H999|H999].
  - intros [= <- <- <-]. split; [now left|]. split; [exact Hd|]. split; [reflexivity|].
    left. now split.
  - destruct (isfile (text ++ ".csv")%string) eqn:Hf; cbn [negb]; [exact Hrest|].
    intros [= <- <- <-]. split; [now left|]. split; [exact Hd|]. split; [reflexivity|].
    right. now repeat split.
Qed.

Lemma setup_subject_accepts_witness :
  In (Entered "12") [Entered "x"; Entered "7"; Entered "12"] /\ isdigit "12" = true.
Proof.
  destruct (setup_subject_accepts (fun f => String.eqb f "7.csv")
              [Entered "x"; Entered "7"; Entered "12"]
              Discrete.initial_globals "12" "12.csv" Discrete.initial_globals eq_refl)
    as (Hin & Hd & _).
  split; [exact Hin|exact Hd].
Defined.

(** X2: answers that are not digits, or that name an existing save file
    without being the test subject, leave no trace: the dialog goes on with the
    next answer, and a cancel after them quits with the module state
    untouched. *)
Theorem setup_subject_skips_rejected {P} (isfile : string -> bool)
    (pre rest : list DialogAnswer) (g : Globals P) :
  forallb (rejected isfile) pre = true ->
  setup_subject isfile (pre ++ rest) g = setup_subject isfile rest g /\
  setup_subject isfile (pre ++ Cancel :: rest) g = (Quit, g) /\
  setup_subject isfile pre g = (StillAsking, g).
Proof.
  intros Hpre.
  assert (Hskip : forall rest', setup_subject isfile (pre ++ rest') g
                                = setup_subject isfile rest' g).
  { induction pre as [|a pre IH]; intros rest'; [reflexivity|].
    cbn [forallb] in Hpre. apply andb_prop in Hpre as [Ha Hpre].
    destruct a as [|text]; [discriminate|].
    cbn [app setup_subject]. cbn [rejected] in Ha.
    destruct (isdigit text); cbn [negb orb] in Ha; [|now apply IH].
    destruct (int_of text =? 999)%Z; cbn [negb andb] in Ha; [discriminate|].
    rewrite Ha. cbn [negb]. now apply IH. }
  split; [apply Hskip|]. split; [now rewrite Hskip|].
  rewrite <- (app_nil_r pre) at 1. now rewrite Hskip.
Qed.

Lemma setup_subject_skips_rejected_witness :
  setup_subject (fun f => String.eqb f "7.csv")
    ([Entered "x"; Entered "7"] ++ [Entered "12"]) Continuous.initial_globals
  = setup_subject (fun f => String.eqb f "7.csv") [Entered "12"] Continuous.initial_globals.
Proof.
  exact (proj1 (setup_subject_skips_rejected (fun f => String.eqb f "7.csv")
                  [Entered "x"; Entered "7"] [Entered "12"]
                  Continuous.initial_globals eq_refl)).
Defined.

(** X3: the trial list depends on the accepted answer only through
    [int(subj_num)]: answers with the same number, such as [7] and [007], seed
    the generator alike and yield the same session, although they name
    different save files. *)
Theorem same_number_same_trials
    (isfile1 isfile2 : string -> bool) (seed_tape : Z -> Tape)
    (answers1 answers2 : list DialogAnswer) (g1 g2 : Tape)
    (s1 s2 f1 f2 : string) dl1 dl2 cl1 cl2 :
  setup_subject isfile1 answers1 Discrete.initial_globals = (Subject s1 f1, dl1) ->
  setup_subject isfile2 answers2 Discrete.initial_globals = (Subject s2 f2, dl2) ->
  setup_subject isfile1 answers1 Continuous.initial_globals = (Subject s1 f1, cl1) ->
  setup_subject isfile2 answers2 Continuous.initial_globals = (Subject s2 f2, cl2) ->
  int_of s1 = int_of s2 ->
  Discrete.session isfile1 seed_tape answers1 (mkWorld g1 Discrete.initial_globals)
  = Discrete.session isfile2 seed_tape answers2 (mkWorld g2 Discrete.initial_globals)
  /\
  Continuous.session isfile1 seed_tape answers1 (mkWorld g1 Continuous.initial_globals)
  = Continuous.session isfile2 seed_tape answers2 (mkWorld g2 Continuous.initial_globals)
  /\
  int_of (String "0" s1) = int_of s1.
Proof.
  intros Hd1 Hd2 Hc1 Hc2 Hint. split; [|split; [|reflexivity]].
  - unfold Discrete.session, session. cbn [globals rng]. rewrite Hd1, Hd2.
    apply setup_subject_inv in Hd1 as [_ ->]. apply setup_subject_inv in Hd2 as [_ ->].
    now rewrite Hint.
  - unfold Continuous.session, session. cbn [globals rng]. rewrite Hc1, Hc2.
    apply setup_subject_inv in Hc1 as [_ ->]. apply setup_subject_inv in Hc2 as [_ ->].
    now rewrite Hint.
Qed.

Lemma same_number_same_trials_witness :
  Discrete.session (fun _ => false) (fun n => [Z.to_nat n]) [Entered "7"]
    (mkWorld [] Discrete.initial_globals)
  = Discrete.session (fun f => String.eqb f "7.csv") (fun n => [Z.to_nat n])
      [Entered "7"; Entered "007"] (mkWorld [3] Discrete.initial_globals).
Proof.
  exact (proj1 (same_number_same_trials
                  (fun _ => false) (fun f => String.eqb f "7.csv")
                  (fun n => [Z.to_nat n])
                  [Entered "7"] [Entered "7"; Entered "007"] [] [3]
                  "7" "007" "7.csv" "007.csv"
                  Discrete.initial_globals Discrete.initial_globals
                  Continuous.initial_globals Continuous.initial_globals
                  eq_refl eq_refl eq_refl eq_refl eq_refl)).
Defined.

(** ** The module state after [set_trials] *)

Lemma continuous_build_trial_keeps_reps trial rep w t w' :
  returns (Continuous.build_trial trial rep) w t w' ->
  NUM_REPS (globals w') = NUM_REPS (globals w).
Proof.
  unfold Continuous.build_trial, build_trial. intros H.
  apply returns_bind_inv in H as (t1 & w1 & Hpos & H).
  apply set_positions_inv in Hpos as (E1 & _).
  rewrite continuous_set_colors_unfold in H.
  apply returns_bind_inv in H as (g & w2 & Hg & H).
  unfold returns in Hg. cbn in Hg. injection Hg as <- <-.
  apply returns_bind_inv in H as (s1 & w3 & Hs & H).
  apply shuffle_inv in Hs as (Hp & E3).
  apply returns_bind_inv in H as (u & w4 & Hput & H).
  unfold returns in Hput. cbn in Hput. injection Hput as _ <-.
  apply change_step_inv in H. rewrite H. cbn. now rewrite E1.
Qed.

Lemma discrete_build_trial_keeps_reps trial rep w t w' :
  returns (Discrete.build_trial trial rep) w t w' ->
  NUM_REPS (globals w') = NUM_REPS (globals w).
Proof.
  unfold Discrete.build_trial, build_trial. intros H.
  apply returns_bind_inv in H as (t1 & w1 & Hpos & H).
  apply set_positions_inv in Hpos as (E1 & _).
  rewrite discrete_set_colors_unfold in H.
  apply returns_bind_inv in H as (g & w2 & Hg & H).
  unfold returns in Hg. cbn in Hg. injection Hg as <- <-.
  apply returns_bind_inv in H as (s1 & w3 & Hs1 & H).
  apply shuffle_inv in Hs1 as (Hp1 & E3).
  apply returns_bind_inv in H as (u & w4 & Hput & H).
  unfold returns in Hput. cbn in Hput. injection Hput as _ <-.
  apply returns_bind_inv in H as (s2 & w5 & Hs2 & H).
  apply shuffle_inv in Hs2 as (Hp2 & E5).
  apply returns_bind_inv in H as (u' & w6 & Hput & H).
  unfold returns in Hput. cbn in Hput. injection Hput as _ <-.
  apply change_step_inv in H. rewrite H. cbn.
  unfold Discrete.Palettes in *. now rewrite E1.
Qed.

Lemma discrete_build_trial_state (reps trial rep : nat) (w : World (Globals Discrete.Palettes)) :
  trial < Discrete.NUM_TYPE ->
  discrete_state (globals w) /\ NUM_REPS (globals w) = reps ->
  exists t w', returns (build_trial Discrete.Trial_init Discrete.set_colors trial rep) w t w'
               /\ discrete_generated trial rep t
               /\ (discrete_state (globals w') /\ NUM_REPS (globals w') = reps).
Proof.
  intros Ht [Hs Hr].
  destruct (discrete_build_trial_returns trial rep w Ht Hs) as (t & w' & Hret & Hg & Hs').
  exists t, w'. split; [exact Hret|]. split; [exact Hg|]. split; [exact Hs'|].
  now rewrite (discrete_build_trial_keeps_reps trial rep w t w' Hret).
Qed.

Lemma continuous_build_trial_state (reps trial rep : nat) (w : World (Globals (list Color))) :
  trial < Continuous.NUM_TYPE ->
  continuous_state (globals w) /\ NUM_REPS (globals w) = reps ->
  exists t w', returns (build_trial Continuous.Trial_init Continuous.set_colors trial rep) w t w'
               /\ continuous_generated trial rep t
               /\ (continuous_state (globals w') /\ NUM_REPS (globals w') = reps).
Proof.
  intros Ht [Hs Hr].
  destruct (continuous_build_trial_returns trial rep w Ht Hs) as (t & w' & Hret & Hg & Hs').
  exists t, w'. split; [exact Hret|]. split; [exact Hg|]. split; [exact Hs'|].
  now rewrite (continuous_build_trial_keeps_reps trial rep w t w' Hret).
Qed.

Lemma set_trials_twice {P} NUM_TYPE Trial_init set_colors
    (I : Globals P -> Prop) (Q : nat -> nat -> Trial -> Prop) (reps : nat)
    (w : World (Globals P)) :
  (forall trial rep w, trial < NUM_TYPE -> I (globals w) /\ NUM_REPS (globals w) = reps ->
     exists t w', returns (build_trial Trial_init set_colors trial rep) w t w'
                  /\ Q trial rep t /\ (I (globals w') /\ NUM_REPS (globals w') = reps)) ->
  I (globals w) -> NUM_REPS (globals w) = reps ->
  exists ts w1 ts2 w2,
    returns (set_trials NUM_TYPE Trial_init set_colors) w ts w1 /\
    I (globals w1) /\ NUM_REPS (globals w1) = reps /\
    returns (set_trials NUM_TYPE Trial_init set_colors) w1 ts2 w2 /\
    length ts = reps * NUM_TYPE /\ length ts2 = reps * NUM_TYPE.
Proof.
  intros Hbuild Hw Hreps.
  destruct (set_trials_returns P NUM_TYPE Trial_init set_colors
              (fun g => I g /\ NUM_REPS g = reps) Q Hbuild w (conj Hw Hreps))
    as (rows & ts & w1 & Hr1 & Hp1 & Hg1 & Hi1 & Hn1).
  destruct (set_trials_returns P NUM_TYPE Trial_init set_colors
              (fun g => I g /\ NUM_REPS g = reps) Q Hbuild w1 (conj Hi1 Hn1))
    as (rows2 & ts2 & w2 & Hr2 & Hp2 & Hg2 & _).
  exists ts, w1, ts2, w2. repeat split; try assumption.
  - rewrite (Permutation_length Hp1), (grid_length _ _ _ _ Hg1), !length_seq. now rewrite Hreps.
  - rewrite (Permutation_length Hp2), (grid_length _ _ _ _ Hg2), !length_seq. now rewrite Hn1.
Qed.

(** X4: [set_trials] leaves the module state usable: afterwards each
    palette list still holds the eight colours of the script, in some order,
    [NUM_REPS] is unchanged, and a second call returns a list of the same
    length. *)
Theorem set_trials_keeps_module_state (g : Tape) (reps : nat) :
  (exists ts w1 ts2 w2,
     returns Discrete.set_trials (discrete_world g reps) ts w1 /\
     discrete_state (globals w1) /\ NUM_REPS (globals w1) = reps /\
     returns Discrete.set_trials w1 ts2 w2 /\
     length ts = reps * Discrete.NUM_TYPE /\ length ts2 = reps * Discrete.NUM_TYPE)
  /\
  (exists ts w1 ts2 w2,
     returns Continuous.set_trials (continuous_world g reps) ts w1 /\
     continuous_state (globals w1) /\ NUM_REPS (globals w1) = reps /\
     returns Continuous.set_trials w1 ts2 w2 /\
     length ts = reps * Continuous.NUM_TYPE /\ length ts2 = reps * Continuous.NUM_TYPE).
Proof.
  split.
  - apply (set_trials_twice Discrete.NUM_TYPE Discrete.Trial_init Discrete.set_colors
             discrete_state discrete_generated reps (discrete_world g reps)).
    + apply discrete_build_trial_state.
    + split; apply Permutation_refl.
    + reflexivity.
  - apply (set_trials_twice Continuous.NUM_TYPE Continuous.Trial_init Continuous.set_colors
             continuous_state continuous_generated reps (continuous_world g reps)).
    + apply continuous_build_trial_state.
    + apply Permutation_refl.
    + reflexivity.
Qed.

(** ** The design of a session *)

Lemma count_trials_Permutation (p : Trial -> bool) (ts ts' : list Trial) :
  ts ≡ₚ ts' -> count_trials p ts = count_trials p ts'.
Proof.
  unfold count_trials. induction 1 as [|t l l' _ IH|t u l|l l' l'' _ IH1 _ IH2]; cbn.
  - reflexivity.
  - destruct (p t); cbn; now rewrite IH.
  - destruct (p t), (p u); reflexivity.
  - now rewrite IH1.
Qed.

Lemma count_trials_keys (p : Trial -> bool) (q : nat * nat -> bool) (ts : list Trial) :
  Forall (fun t => p t = q (key t)) ts ->
  count_trials p ts = length (List.filter q (map key ts)).
Proof.
  unfold count_trials. induction 1 as [|t ts Ht _ IH]; [reflexivity|].
  cbn. rewrite Ht. destruct (q (key t)); cbn; now rewrite IH.
Qed.

Lemma filter_row (q : nat * nat -> bool) (r : nat) (cols : list nat) :
  length (List.filter q (map (fun trial => (r, trial)) cols))
  = length (List.filter (fun trial => q (r, trial)) cols).
Proof.
  induction cols as [|c cols IH]; [reflexivity|].
  cbn. destruct (q (r, c)); cbn; now rewrite IH.
Qed.

Lemma filter_const {A} (b : bool) (l : list A) :
  length (List.filter (fun _ => b) l) = if b then length l else 0.
Proof. induction l as [|x l IH]; destruct b; cbn in *; auto. Qed.

Lemma count_eq_seq (c0 a n : nat) :
  length (List.filter (fun c => c =? c0) (seq a n))
  = if (a <=? c0) && (c0 <? a + n) then 1 else 0.
Proof.
  revert a. induction n as [|n IH]; intros a.
  - cbn [seq List.filter length]. rewrite Nat.add_0_r.
    destruct (Nat.leb_spec a c0); destruct (Nat.ltb_spec c0 a); cbn [andb]; lia.
  - cbn [seq List.filter]. destruct (Nat.eqb_spec a c0) as [->|Hne].
    + cbn [length]. rewrite IH.
      destruct (Nat.leb_spec (S c0) c0); [lia|].
      destruct (Nat.leb_spec c0 c0); [|lia].
      destruct (Nat.ltb_spec c0 (c0 + S n)); [|lia]. reflexivity.
    + rewrite IH. replace (S a + n) with (a + S n) by lia.
      destruct (Nat.ltb_spec c0 (a + S n)); rewrite ?andb_false_r; [|reflexivity].
      rewrite !andb_true_r.
      destruct (Nat.leb_spec (S a) c0); destruct (Nat.leb_spec a c0); lia || reflexivity.
Qed.

Lemma half_S (n : nat) :
  (S n + 1) / 2 = (n + 1) / 2 + (if n mod 2 =? 0 then 1 else 0) /\
  S n / 2 = n / 2 + (if n mod 2 =? 0 then 0 else 1).
Proof.
  pose proof (Nat.div_mod_eq n 2). pose proof (Nat.div_mod_eq (S n + 1) 2).
  pose proof (Nat.div_mod_eq (n + 1) 2). pose proof (Nat.div_mod_eq (S n) 2).
  pose proof (Nat.mod_upper_bound (S n + 1) 2). pose proof (Nat.mod_upper_bound (n + 1) 2).
  pose proof (Nat.mod_upper_bound n 2). pose proof (Nat.mod_upper_bound (S n) 2).
  destruct (Nat.eqb_spec (n mod 2) 0); lia.
Qed.

Lemma pairs_counts (types reps c0 : nat) :
  c0 < types ->
  length (List.filter (fun k => fst k mod 2 =? 0) (pairs reps types))
    = types * ((reps + 1) / 2) /\
  length (List.filter (fun k => negb (fst k mod 2 =? 0)) (pairs reps types))
    = types * (reps / 2) /\
  length (List.filter (fun k => snd k =? c0) (pairs reps types)) = reps /\
  length (List.filter (fun k => (snd k =? c0) && (fst k mod 2 =? 0)) (pairs reps types))
    = (reps + 1) / 2.
Proof.
  intros Hc. induction reps as [|reps (IH1 & IH2 & IH3 & IH4)].
  - cbn. rewrite Nat.mul_0_r. auto.
  - destruct (half_S reps) as [Hh1 Hh2].
    rewrite pairs_S, !List.filter_app, !length_app, IH1, IH2, IH3, IH4, !filter_row.
    cbn [fst snd]. rewrite Hh1, Hh2.
    rewrite (count_eq_seq c0 0 types).
    destruct (Nat.leb_spec 0 c0); [|lia]. destruct (Nat.ltb_spec c0 (0 + types)); [|lia].
    cbn [andb].
    destruct (reps mod 2 =? 0) eqn:Hpar.
    + cbn [negb]. rewrite !filter_const, length_seq.
      assert (Hc1 : length (List.filter (fun trial => (trial =? c0) && true) (seq 0 types)) = 1).
      { erewrite List.filter_ext; [rewrite (count_eq_seq c0 0 types)|].
        - destruct (Nat.leb_spec 0 c0), (Nat.ltb_spec c0 (0 + types)); cbn; lia.
        - intros x. cbn. now rewrite andb_true_r. }
      rewrite Hc1. repeat split; lia.
    + cbn [negb]. rewrite !filter_const, length_seq.
      assert (Hc0 : length (List.filter (fun trial => (trial =? c0) && false) (seq 0 types)) = 0).
      { erewrite List.filter_ext; [apply (filter_const false)|].
        intros x. cbn. now rewrite andb_false_r. }
      rewrite Hc0. repeat split; lia.
Qed.

Lemma pairs_zero (reps : nat) : pairs reps 0 = [].
Proof.
  induction reps as [|reps IH]; [reflexivity|]. now rewrite pairs_S, IH.
Qed.

Lemma colors_from_parity pool hi t :
  colors_from pool hi t -> change t = (rep_num t mod 2 =? 0).
Proof.
  intros [_ H]. destruct (rep_num t mod 2 =? 0); now destruct H as [-> _].
Qed.

Lemma generated_balanced num_of is_pool hi (types reps : nat) rows ts :
  ts ≡ₚ concat rows ->
  grid (generated num_of is_pool hi) (seq 0 reps) (seq 0 types) rows ->
  balanced types reps ts.
Proof.
  intros Hperm Hgrid.
  assert (Hkeys : map key (concat rows) = pairs reps types).
  { apply grid_keys. eapply grid_impl; [|exact Hgrid].
    intros trial rep t. apply generated_key. }
  assert (Hpar : Forall (fun t => change t = (rep_num t mod 2 =? 0)) (concat rows)).
  { eapply Forall_impl; [exact (grid_Forall _ _ _ _ Hgrid)|].
    intros t (trial & rep & _ & _ & (_ & _ & _ & _ & (pool & _ & Hcol))).
    exact (colors_from_parity pool hi t Hcol). }
  unfold balanced. rewrite !(count_trials_Permutation _ _ _ Hperm).
  rewrite (count_trials_keys change (fun k => fst k mod 2 =? 0)) by exact Hpar.
  rewrite (count_trials_keys (fun t => negb (change t)) (fun k => negb (fst k mod 2 =? 0))).
  2:{ eapply Forall_impl; [exact Hpar|]. intros t Ht. cbn. now rewrite Ht. }
  rewrite Hkeys. destruct types as [|types'].
  - rewrite pairs_zero. cbn. repeat split; constructor.
  - destruct (pairs_counts (S types') reps 0) as (H1 & H2 & _); [lia|].
    split; [exact H1|]. split; [exact H2|].
    apply Forall_seq. intros c Hc.
    rewrite !(count_trials_Permutation _ _ _ Hperm).
    rewrite (count_trials_keys (fun t => trial_num t =? c) (fun k => snd k =? c))
      by (apply Forall_forall; intros; reflexivity).
    rewrite (count_trials_keys (fun t => (trial_num t =? c) && change t)
               (fun k => (snd k =? c) && (fst k mod 2 =? 0))).
    2:{ eapply Forall_impl; [exact Hpar|]. intros t Ht. cbn. now rewrite Ht. }
    rewrite Hkeys. destruct (pairs_counts (S types') reps c) as (_ & _ & H3 & H4); [lia|].
    split; assumption.
Qed.

(** X5: the session is balanced.  Whatever the draws, the list that
    [set_trials] returns holds, for every condition, [NUM_REPS] trials of which
    the even repetitions, [(NUM_REPS + 1) / 2], are change trials; in all
    [NUM_TYPE * ((NUM_REPS + 1) / 2)] change trials and
    [NUM_TYPE * (NUM_REPS / 2)] no-change trials. *)
Theorem generated_session_balanced (g : Tape) (reps : nat) :
  (exists test_set w',
     returns Discrete.set_trials (discrete_world g reps) test_set w'
     /\ balanced Discrete.NUM_TYPE reps test_set)
  /\
  (exists test_set w',
     returns Continuous.set_trials (continuous_world g reps) test_set w'
     /\ balanced Continuous.NUM_TYPE reps test_set).
Proof.
  split.
  - destruct (discrete_session_returns g reps) as (rows & ts & w' & Hr & Hp & Hg).
    exists ts, w'. split; [exact Hr|]. eapply generated_balanced; eassumption.
  - destruct (continuous_session_returns g reps) as (rows & ts & w' & Hr & Hp & Hg).
    exists ts, w'. split; [exact Hr|]. eapply generated_balanced; eassumption.
Qed.

(** ** The colours of a trial *)

Lemma occurrences_app (c : Color) (l k : list Color) :
  occurrences c (l ++ k) = occurrences c l + occurrences c k.
Proof. unfold occurrences. now rewrite List.filter_app, length_app. Qed.

Lemma occurrences_notin (c : Color) (l : list Color) : c ∉ l -> occurrences c l = 0.
Proof.
  unfold occurrences. induction l as [|x l IH]; intros Hc; [reflexivity|].
  cbn. apply not_elem_of_cons in Hc as [Hne Hc].
  rewrite bool_decide_eq_false_2 by congruence. now apply IH.
Qed.

Lemma occurrences_NoDup (c : Color) (l : list Color) : NoDup l -> occurrences c l <= 1.
Proof.
  induction 1 as [|x l Hx _ IH]; [cbn; lia|].
  change (x :: l) with ([x] ++ l). rewrite occurrences_app.
  unfold occurrences at 1. cbn. destruct (bool_decide_reflect (x = c)) as [->|_]; cbn.
  - rewrite occurrences_notin by exact Hx. lia.
  - lia.
Qed.

Lemma occurrences_take (c : Color) (n : nat) (l : list Color) :
  occurrences c (firstn n l) + occurrences c (skipn n l) = occurrences c l.
Proof. now rewrite <- occurrences_app, firstn_skipn. Qed.

Lemma occurrences_lookup (c : Color) (l : list Color) (j : nat) :
  l !! j = Some c -> 1 <= occurrences c l.
Proof.
  intros Hj. apply list_elem_of_split_length in Hj as (l1 & l2 & -> & _).
  change (c :: l2) with ([c] ++ l2). rewrite !occurrences_app.
  unfold occurrences at 2. cbn. rewrite bool_decide_eq_true_2 by reflexivity. cbn. lia.
Qed.

Lemma occurrences_cons (c x : Color) (l : list Color) :
  occurrences c (x :: l) = (if bool_decide (x = c) then 1 else 0) + occurrences c l.
Proof. unfold occurrences. cbn [List.filter]. now destruct (bool_decide (x = c)). Qed.

Lemma occurrences_insert (c v : Color) (i : nat) (l : list Color) :
  occurrences c (<[i := v]> l) <= occurrences c l + (if bool_decide (v = c) then 1 else 0).
Proof.
  revert i. induction l as [|x l IH]; intros i.
  { destruct i; cbn; lia. }
  destruct i as [|i].
  - change (<[0 := v]> (x :: l)) with (v :: l). rewrite !occurrences_cons.
    destruct (bool_decide (v = c)), (bool_decide (x = c)); lia.
  - change (<[S i := v]> (x :: l)) with (x :: <[i := v]> l). rewrite !occurrences_cons.
    specialize (IH i). destruct (bool_decide (v = c)), (bool_decide (x = c)); lia.
Qed.

Lemma discrete_pool_twice pool c : discrete_pool pool -> occurrences c pool <= 2.
Proof.
  intros (s1 & s2 & -> & H1 & H2). rewrite occurrences_app.
  assert (occurrences c s1 <= 1).
  { apply occurrences_NoDup. rewrite H1. apply discrete_palette_NoDup. }
  assert (occurrences c s2 <= 1).
  { apply occurrences_NoDup. rewrite H2. apply discrete_palette_NoDup. }
  lia.
Qed.

Lemma discrete_pool_palette pool : discrete_pool pool -> Forall (fun c => c ∈ Discrete.palette) pool.
Proof.
  intros (s1 & s2 & -> & H1 & H2). apply Forall_app. split; apply Forall_forall; intros c Hc.
  - now rewrite <- H1.
  - now rewrite <- H2.
Qed.

(** The probe array in terms of the sample array. *)
Lemma colors_from_probe pool hi t :
  colors_from pool hi t -> num_stimuli t <= length pool ->
  if rep_num t mod 2 =? 0
  then exists i j v, i < num_stimuli t /\ num_stimuli t <= j /\ pool !! j = Some v /\
                     probe_colors t = <[i := v]> (stim_colors t)
  else probe_colors t = stim_colors t.
Proof.
  intros [Hst Hpr] Hlen. destruct (rep_num t mod 2 =? 0).
  - destruct Hpr as (_ & i & j & v & Hi & Hj & Hv & Hp).
    exists i, j, v. split; [exact Hi|]. split; [lia|]. split; [exact Hv|].
    now rewrite Hp, Hst, take_insert_lt.
  - destruct Hpr as [_ ->]. now rewrite Hst.
Qed.

Lemma Forall_insert_in {A} (Pr : A -> Prop) (l : list A) (i : nat) (v : A) :
  Forall Pr l -> Pr v -> Forall Pr (<[i := v]> l).
Proof.
  intros Hl Hv. revert i. induction Hl as [|x l Hx Hl IH]; intros i.
  - destruct i; constructor.
  - destruct i as [|i].
    + change (<[0 := v]> (x :: l)) with (v :: l). now constructor.
    + change (<[S i := v]> (x :: l)) with (x :: <[i := v]> l). constructor; auto.
Qed.

Lemma discrete_generated_colors trial rep t :
  trial < Discrete.NUM_TYPE -> discrete_generated trial rep t -> discrete_colors t.
Proof.
  intros Ht (_ & _ & Hn & _ & (pool & Hpool & Hcol)).
  pose proof (discrete_Trial_init_load trial Ht) as Hload.
  pose proof (discrete_pool_length pool Hpool) as Hlen.
  pose proof (discrete_pool_palette pool Hpool) as Hpal.
  assert (Hnl : num_stimuli t <= length pool) by (rewrite Hn, Hlen; lia).
  pose proof (colors_from_probe pool 13 t Hcol Hnl) as Hprobe.
  destruct Hcol as [Hst _].
  assert (Hstim : Forall (fun c => c ∈ Discrete.palette) (stim_colors t)).
  { rewrite Hst. now apply Forall_take. }
  assert (Hocc : forall c, occurrences c (stim_colors t) <= 2).
  { intros c. pose proof (occurrences_take c (num_stimuli t) pool).
    pose proof (discrete_pool_twice pool c Hpool). rewrite Hst. lia. }
  unfold discrete_colors. split; [exact Hstim|].
  destruct (rep_num t mod 2 =? 0).
  - destruct Hprobe as (i & j & v & Hi & Hj & Hv & Hp). rewrite Hp. split; [|split; [exact Hocc|]].
    + apply Forall_insert_in; [exact Hstim|].
      rewrite Forall_forall in Hpal. apply Hpal. eapply list_elem_of_lookup_2; exact Hv.
    + intros c. pose proof (occurrences_insert c v i (stim_colors t)) as Hins.
      destruct (bool_decide_reflect (v = c)) as [->|_]; [|specialize (Hocc c); lia].
      pose proof (occurrences_take c (num_stimuli t) pool) as Hsplit.
      pose proof (discrete_pool_twice pool c Hpool).
      assert (1 <= occurrences c (skipn (num_stimuli t) pool)).
      { apply (occurrences_lookup c _ (j - num_stimuli t)).
        rewrite lookup_drop. now replace (num_stimuli t + (j - num_stimuli t)) with j by lia. }
      rewrite <- Hst in Hsplit. lia.
  - rewrite Hprobe. split; [exact Hstim|]. split; exact Hocc.
Qed.

Lemma continuous_generated_colors trial rep t :
  trial < Continuous.NUM_TYPE -> continuous_generated trial rep t -> continuous_colors t.
Proof.
  intros Ht (_ & _ & Hn & _ & (pool & Hpool & Hcol)).
  pose proof (continuous_Trial_init_load trial Ht) as Hload.
  pose proof (continuous_pool_length pool Hpool) as Hlen.
  assert (Hnd : NoDup pool).
  { unfold continuous_pool in Hpool. rewrite Hpool. apply continuous_palette_NoDup. }
  assert (Hpal : Forall (fun c => c ∈ Continuous.palette) pool).
  { apply Forall_forall. intros c Hc. unfold continuous_pool in Hpool. now rewrite <- Hpool. }
  assert (Hnl : num_stimuli t <= length pool) by (rewrite Hn, Hlen; lia).
  pose proof (colors_from_probe pool 7 t Hcol Hnl) as Hprobe.
  destruct Hcol as [Hst _].
  assert (Hstim : Forall (fun c => c ∈ Continuous.palette) (stim_colors t)).
  { rewrite Hst. now apply Forall_take. }
  assert (Hsnd : NoDup (stim_colors t)) by (rewrite Hst; now apply NoDup_firstn).
  unfold continuous_colors. split; [exact Hstim|].
  destruct (rep_num t mod 2 =? 0).
  - destruct Hprobe as (i & j & v & Hi & Hj & Hv & Hp).
    assert (Hfresh : v ∉ stim_colors t).
    { rewrite Hst. intros Hin. apply list_elem_of_lookup in Hin as [k Hk].
      pose proof (lookup_lt_Some _ _ _ Hk) as Hklt. rewrite length_take in Hklt.
      rewrite lookup_take_lt in Hk by lia.
      pose proof (NoDup_lookup _ _ _ _ Hnd Hk Hv). lia. }
    split; [|split; [|now exists i, v]].
    + rewrite Hp. apply Forall_insert_in; [exact Hstim|].
      rewrite Forall_forall in Hpal. apply Hpal. eapply list_elem_of_lookup_2; exact Hv.
    + assert (Hil : i < length (stim_colors t)) by (rewrite Hst, length_take; lia).
      rewrite Hp. apply NoDup_alt. intros a b x Ha Hb.
      destruct (decide (a = i)) as [->|Hai], (decide (b = i)) as [->|Hbi]; [reflexivity| | |].
      * rewrite list_lookup_insert_ne in Hb by congruence.
        rewrite list_lookup_insert_eq in Ha by exact Hil.
        injection Ha as <-. exfalso. apply Hfresh. eapply list_elem_of_lookup_2; exact Hb.
      * rewrite list_lookup_insert_ne in Ha by congruence.
        rewrite list_lookup_insert_eq in Hb by exact Hil.
        injection Hb as <-. exfalso. apply Hfresh. eapply list_elem_of_lookup_2; exact Ha.
      * rewrite list_lookup_insert_ne in Ha by congruence.
        rewrite list_lookup_insert_ne in Hb by congruence.
        exact (NoDup_lookup _ _ _ _ Hsnd Ha Hb).
  - rewrite Hprobe. split; [exact Hstim|]. split; [exact Hsnd|exact I].
Qed.

(** X6: in the discrete script every sample and probe colour of a
    generated trial is one of the eight palette colours, and no colour is shown
    more than twice in a sample array, nor more than twice in a probe array. *)
Theorem discrete_colors_at_most_twice (g : Tape) (reps : nat) :
  exists test_set w',
    returns Discrete.set_trials (discrete_world g reps) test_set w'
    /\ Forall discrete_colors test_set.
Proof.
  destruct (discrete_session_returns g reps) as (rows & ts & w' & Hr & Hp & Hg).
  exists ts, w'. split; [exact Hr|].
  eapply session_Forall; [|exact Hp|exact Hg].
  intros trial rep t. apply discrete_generated_colors.
Qed.

(** X7: in the continuous script every colour of a generated trial is a
    palette colour, the probe colours are pairwise distinct, and on a change
    trial the probe array is the sample array with one entry overwritten by a
    colour that the sample array does not show. *)
Theorem continuous_change_shows_new_color (g : Tape) (reps : nat) :
  exists test_set w',
    returns Continuous.set_trials (continuous_world g reps) test_set w'
    /\ Forall continuous_colors test_set.
Proof.
  destruct (continuous_session_returns g reps) as (rows & ts & w' & Hr & Hp & Hg).
  exists ts, w'. split; [exact Hr|].
  eapply session_Forall; [|exact Hp|exact Hg].
  intros trial rep t. apply continuous_generated_colors.
Qed.

(** ** The screens of a trial *)

Lemma screen_from_ok n_objects colors t a m :
  a + m <= n_objects -> a + m <= length (stim_positions t) -> a + m <= length colors ->
  screen_from (screen_item n_objects colors t) (seq a m)
  = Ok (zip (firstn m (skipn a (stim_positions t))) (firstn m (skipn a colors))).
Proof.
  revert a. induction m as [|m IH]; intros a H1 H2 H3; [reflexivity|].
  cbn [seq screen_from]. unfold screen_item at 1.
  destruct (Nat.ltb_spec a n_objects) as [_|Hge]; [|lia].
  destruct (lookup_lt_is_Some_2 (stim_positions t) a) as [p Hp]; [lia|].
  destruct (lookup_lt_is_Some_2 colors a) as [c Hc]; [lia|].
  rewrite Hp, Hc, (IH (S a)) by lia.
  rewrite (drop_S _ _ _ Hp), (drop_S _ _ _ Hc). reflexivity.
Qed.

Lemma screen_from_inv n_objects colors t a m its :
  screen_from (screen_item n_objects colors t) (seq a m) = Ok its ->
  m = 0 \/ (a + m <= n_objects /\ a + m <= length (stim_positions t) /\ a + m <= length colors).
Proof.
  revert a its. induction m as [|m IH]; intros a its H; [now left|]. right.
  cbn [seq screen_from] in H. unfold screen_item at 1 in H.
  destruct (Nat.ltb_spec a n_objects) as [Hlt|_]; [|discriminate H].
  destruct (stim_positions t !! a) as [p|] eqn:Hp; [|discriminate H].
  destruct (colors !! a) as [c|] eqn:Hc; [|discriminate H].
  destruct (screen_from _ (seq (S a) m)) as [its'|e] eqn:Hrest; [|discriminate H].
  apply lookup_lt_Some in Hp, Hc.
  destruct (IH _ _ Hrest) as [->|(H1 & H2 & H3)]; lia.
Qed.

Lemma screen_renderable colors t :
  num_stimuli t <= 12 -> num_stimuli t <= length (stim_positions t) ->
  num_stimuli t <= length colors ->
  screen DiscreteRun.n_objects colors t = Ok (items_of colors t).
Proof.
  intros H1 H2 H3. unfold screen, items_of.
  now rewrite screen_from_ok by (cbn; unfold DiscreteRun.n_objects; lia).
Qed.

(** X8: setting up a screen succeeds exactly when the trial has no more
    stimuli than there are objects, positions and colours; the screen then shows
    item [k] at the trial's position [k] in colour [k], and otherwise the set-up
    stops with IndexError. *)
Theorem screen_shows_the_trial (n_objects : nat) (colors : list Color) (t : Trial) :
  (num_stimuli t <= n_objects /\ num_stimuli t <= length (stim_positions t) /\
   num_stimuli t <= length colors
   -> screen n_objects colors t = Ok (items_of colors t))
  /\ (forall its, screen n_objects colors t = Ok its ->
        num_stimuli t = 0 \/
        (num_stimuli t <= n_objects /\ num_stimuli t <= length (stim_positions t) /\
         num_stimuli t <= length colors))
  /\ (forall e, screen n_objects colors t = Raise e -> e = IndexError).
Proof.
  split; [|split].
  - intros (H1 & H2 & H3). unfold screen, items_of. now rewrite screen_from_ok by (cbn; lia).
  - intros its H. unfold screen in H. apply screen_from_inv in H. cbn in H. exact H.
  - unfold screen. generalize (seq 0 (num_stimuli t)) as targets.
    induction targets as [|target rest IH]; intros e H; [discriminate H|].
    cbn [screen_from] in H. destruct (screen_item _ _ _ target); [|now injection H].
    destruct (screen_from _ rest) as [its|e'] eqn:Hr; [discriminate H|].
    injection H as <-. now apply IH.
Qed.

(** ** The rows of the output file *)

Lemma dict_get_absent (d : list (string * string)) (k : string) (acc : option string) :
  k ∉ map fst d ->
  fold_left (fun acc kv => if String.eqb (fst kv) k then Some (snd kv) else acc) d acc = acc.
Proof.
  revert acc. induction d as [|[k' v'] d IH]; intros acc Hk; [reflexivity|].
  cbn [map fst] in Hk. apply not_elem_of_cons in Hk as [Hne Hk].
  cbn [fold_left fst snd]. destruct (String.eqb_spec k' k) as [->|_]; [congruence|].
  now apply IH.
Qed.

Lemma dict_get_NoDup (d : list (string * string)) (k v : string) :
  NoDup (map fst d) -> (k, v) ∈ d -> dict_get d k = Some v.
Proof.
  unfold dict_get. generalize (@None string) as acc.
  induction d as [|[k' v'] d IH]; intros acc Hnd Hin; [now apply elem_of_nil in Hin|].
  cbn [map fst] in Hnd. apply NoDup_cons in Hnd as [Hk' Hnd].
  cbn [fold_left fst snd]. apply elem_of_cons in Hin as [Heq|Hin].
  - injection Heq as <- <-. rewrite String.eqb_refl. now apply dict_get_absent.
  - now apply IH.
Qed.

Lemma color_NAMES_keys py_str :
  map fst (DiscreteRun.color_NAMES py_str) = map py_str Discrete.palette.
Proof. reflexivity. Qed.

Lemma palette_name py_str (c : Color) :
  NoDup (map py_str Discrete.palette) -> c ∈ Discrete.palette ->
  exists name, dict_get (DiscreteRun.color_NAMES py_str) (py_str c) = Some name
               /\ color_of_name name = Some c.
Proof.
  intros Hnd Hc. rewrite <- color_NAMES_keys in Hnd.
  unfold Discrete.palette in Hc.
  repeat (apply elem_of_cons in Hc as [->|Hc]);
    [..|now apply elem_of_nil in Hc];
    eexists; (split; [apply (dict_get_NoDup _ _ _ Hnd); unfold DiscreteRun.color_NAMES;
                      repeat first [apply list_elem_of_here | apply list_elem_of_further]
                     |reflexivity]).
Qed.

Lemma decode_names py_str (colors : list Color) (a m : nat) :
  NoDup (map py_str Discrete.palette) ->
  Forall (fun c => c ∈ Discrete.palette) colors ->
  decode_colors (map (name_cell (Some (DiscreteRun.color_NAMES py_str)) py_str colors) (seq a m))
  = firstn m (skipn a colors).
Proof.
  intros Hnd Hpal. revert a. induction m as [|m IH]; intros a; [reflexivity|].
  cbn [seq map]. unfold decode_colors in *. cbn [omap list_omap]. fold (@omap list _).
  unfold name_cell at 1. destruct (colors !! a) as [c|] eqn:Hc.
  - assert (Hin : c ∈ Discrete.palette).
    { rewrite Forall_forall in Hpal. apply Hpal. eapply list_elem_of_lookup_2; exact Hc. }
    destruct (palette_name py_str c Hnd Hin) as (name & -> & Hname).
    cbn [decode_cell]. rewrite Hname. rewrite (drop_S _ _ _ Hc). cbn [firstn].
    f_equal. apply IH.
  - cbn. rewrite IH. apply lookup_ge_None in Hc.
    rewrite !drop_ge by lia. now destruct m.
Qed.

Lemma firstn_map_seq {B} (f : nat -> B) (rest : list B) :
  firstn 12 (map f (seq 0 12) ++ rest) = map f (seq 0 12).
Proof. reflexivity. Qed.

Lemma output_row_decodes (py_str : Color -> string) (subj_num : string)
    (current_trial : nat) (t : Trial) (response : bool) (resp_time : Q) :
  NoDup (map py_str Discrete.palette) ->
  Forall (fun c => c ∈ Discrete.palette) (stim_colors t) ->
  Forall (fun c => c ∈ Discrete.palette) (probe_colors t) ->
  length (stim_colors t) <= 12 -> length (probe_colors t) <= 12 ->
  let row := DiscreteRun.output_row py_str subj_num current_trial t response resp_time in
  decode_colors (firstn 12 (skipn 3 row)) = stim_colors t
  /\ decode_colors (firstn 12 (skipn 15 row)) = probe_colors t.
Proof.
  intros Hnd Hs Hp Hls Hlp row. subst row. unfold DiscreteRun.output_row. split.
  - change (decode_colors
              (firstn 12 (map (name_cell (Some (DiscreteRun.color_NAMES py_str)) py_str
                                 (stim_colors t)) (seq 0 12)
                          ++ map (name_cell (Some (DiscreteRun.color_NAMES py_str)) py_str
                                    (probe_colors t)) (seq 0 12)
                          ++ [Flag (change t); Flag response; Seconds resp_time]))
            = stim_colors t).
    rewrite firstn_map_seq, (decode_names py_str _ 0 12 Hnd Hs).
    cbn [skipn]. now apply firstn_all2.
  - change (decode_colors
              (firstn 12 (map (name_cell (Some (DiscreteRun.color_NAMES py_str)) py_str
                                 (probe_colors t)) (seq 0 12)
                          ++ [Flag (change t); Flag response; Seconds resp_time]))
            = probe_colors t).
    rewrite firstn_map_seq, (decode_names py_str _ 0 12 Hnd Hp).
    cbn [skipn]. now apply firstn_all2.
Qed.

(** X9: a row of the discrete script has one cell per column of the
    header, for any trial; and when [str] tells the eight palette colours apart,
    the row of a trial with at most twelve palette colours gives back its sample
    and probe colours, its set size and its change flag: the colour cells are
    the names of the trial's colours in order, followed by ['NaN'] cells. *)
Theorem discrete_row_reads_back (py_str : Color -> string) (subj_num : string)
    (current_trial : nat) (t : Trial) (response : bool) (resp_time : Q) :
  NoDup (map py_str Discrete.palette) ->
  Forall (fun c => c ∈ Discrete.palette) (stim_colors t) ->
  Forall (fun c => c ∈ Discrete.palette) (probe_colors t) ->
  length (stim_colors t) <= 12 -> length (probe_colors t) <= 12 ->
  let row := DiscreteRun.output_row py_str subj_num current_trial t response resp_time in
  length row = length DiscreteRun.HEADER_LIST
  /\ decode_colors (firstn 12 (skipn 3 row)) = stim_colors t
  /\ decode_colors (firstn 12 (skipn 15 row)) = probe_colors t
  /\ row !! 1 = Some (Number current_trial)
  /\ row !! 2 = Some (Number (num_stimuli t))
  /\ row !! 27 = Some (Flag (change t))
  /\ row !! 28 = Some (Flag response).
Proof.
  intros Hnd Hs Hp Hls Hlp row.
  destruct (output_row_decodes py_str subj_num current_trial t response resp_time
              Hnd Hs Hp Hls Hlp) as [Hstim Hprobe].
  split; [reflexivity|].
  split; [exact Hstim|]. split; [exact Hprobe|].
  subst row. unfold DiscreteRun.output_row. repeat split.
Qed.

Lemma str_ints_palette : NoDup (map str_ints Discrete.palette).
Proof.
  vm_compute.
  repeat (constructor;
          [intros H; repeat (apply elem_of_cons in H as [H|H]; [discriminate H|]);
           now apply elem_of_nil in H|]).
  constructor.
Qed.

Lemma discrete_row_reads_back_witness :
  decode_colors
    (firstn 12 (skipn 3
       (DiscreteRun.output_row str_ints "7" 1
          (mkTrial 0 1 2 [0; 1] true [(1, 1, 1)%Q; (-1, -1, -1)%Q] [(1, 1, 1)%Q; (1, -1, -1)%Q])
          true 1)))
  = [(1, 1, 1)%Q; (-1, -1, -1)%Q].
Proof.
  refine (proj1 (proj2 (discrete_row_reads_back str_ints "7" 1
                   (mkTrial 0 1 2 [0; 1] true [(1, 1, 1)%Q; (-1, -1, -1)%Q]
                      [(1, 1, 1)%Q; (1, -1, -1)%Q])
                   true 1 str_ints_palette _ _ _ _)));
    try (apply (bool_decide_unpack _); vm_compute; exact I); cbn; lia.
Defined.

(** ** The trial loop *)

Lemma rows_of_app (e1 e2 : list Event) : rows_of (e1 ++ e2) = rows_of e1 ++ rows_of e2.
Proof. unfold rows_of. apply flat_map_app. Qed.

Lemma breaks_of_app (e1 e2 : list Event) : breaks_of (e1 ++ e2) = breaks_of e1 + breaks_of e2.
Proof. unfold breaks_of. now rewrite List.filter_app, length_app. Qed.

Lemma break_due_div (c : nat) :
  S c / 25 = c / 25 + (if break_due (S c) then 1 else 0).
Proof.
  unfold break_due. cbn [Nat.eqb negb]. rewrite andb_true_r.
  pose proof (Nat.div_mod_eq c 25) as Hc. pose proof (Nat.div_mod_eq (S c) 25) as Hs.
  pose proof (Nat.mod_upper_bound c 25 ltac:(lia)) as Hcb.
  pose proof (Nat.mod_upper_bound (S c) 25 ltac:(lia)) as Hsb.
  remember (c / 25) as q. remember (S c / 25) as q'.
  remember (c mod 25) as r. remember (S c mod 25) as r'.
  destruct (Nat.eqb_spec r' 0); lia.
Qed.

Lemma pause_rows (c : nat) :
  rows_of (if break_due c then [Message BREAK_MSG] else []) = []
  /\ breaks_of (if break_due c then [Message BREAK_MSG] else [])
     = (if break_due c then 1 else 0).
Proof. now destruct (break_due c). Qed.

Section Loop.

Variable py_str : Color -> string.
Variable subj_num : string.

(** One pass of the loop body on a trial whose screens can be set up. *)
Lemma run_trials_cons c t rest answers :
  renderable 12 t ->
  DiscreteRun.run_trials py_str subj_num c (t :: rest) answers
  = let shown := (if break_due (S c) then [Message BREAK_MSG] else [])
                 ++ [SampleScreen (items_of (stim_colors t) t);
                     ProbeScreen (items_of (probe_colors t) t)] in
    match answers with
    | [] => (shown, Waiting)
    | Escape :: _ => (shown, Quitted)
    | Responded response resp_time :: answers' =>
        let '(events, outcome) := DiscreteRun.run_trials py_str subj_num (S c) rest answers' in
        (shown ++ RowWritten (DiscreteRun.output_row py_str subj_num (S c) t response resp_time)
                  :: events, outcome)
    end.
Proof.
  intros (H1 & H2 & H3 & H4). cbn [DiscreteRun.run_trials].
  now rewrite !screen_renderable by assumption.
Qed.

Lemma run_trials_answered c ts answers :
  Forall (renderable 12) ts -> Forall answered answers -> length ts <= length answers ->
  exists events,
    DiscreteRun.run_trials py_str subj_num c ts answers = (events, Finished)
    /\ length (rows_of events) = length ts
    /\ c / 25 + breaks_of events = (c + length ts) / 25
    /\ (forall k row, rows_of events !! k = Some row ->
          exists t response resp_time,
            ts !! k = Some t /\ answers !! k = Some (Responded response resp_time)
            /\ row = DiscreteRun.output_row py_str subj_num (c + S k) t response resp_time)
    /\ (forall m, Message m ∈ events -> m = BREAK_MSG).
Proof.
  intros Hts. revert c answers. induction Hts as [|t ts Ht _ IH]; intros c answers Ha Hlen.
  - exists []. cbn [DiscreteRun.run_trials length].
    split; [reflexivity|]. split; [reflexivity|].
    split; [change (breaks_of []) with 0; now rewrite !Nat.add_0_r|]. split.
    + intros k row H. destruct k; discriminate H.
    + intros m H. now apply elem_of_nil in H.
  - destruct answers as [|a answers]; [cbn in Hlen; lia|].
    apply Forall_cons in Ha as [Ha Has]. cbn [length] in Hlen.
    destruct a as [response resp_time|]; [|now exfalso; apply Ha].
    destruct (IH (S c) answers Has ltac:(lia)) as (events & Hrun & Hrows & Hbr & Hrow & Hmsg).
    rewrite run_trials_cons by exact Ht. cbv zeta. rewrite Hrun.
    eexists. split; [reflexivity|].
    destruct (pause_rows (S c)) as [Hp1 Hp2].
    rewrite !rows_of_app, !breaks_of_app, Hp1, Hp2.
    change (rows_of (RowWritten ?r :: events)) with (r :: rows_of events).
    change (breaks_of (RowWritten ?r :: events)) with (breaks_of events).
    cbn [rows_of breaks_of flat_map List.filter app length Nat.add].
    split; [now rewrite Hrows|]. split; [|split].
    + replace (c + S (length ts)) with (S c + length ts) by lia.
      rewrite <- Hbr, (break_due_div c). lia.
    + intros [|k] row H.
      * injection H as <-. exists t, response, resp_time.
        repeat split. now rewrite Nat.add_1_r.
      * destruct (Hrow k row H) as (t' & r' & rt' & H1 & H2 & H3).
        exists t', r', rt'. repeat split; try assumption.
        rewrite H3. f_equal. lia.
    + intros m Hm. rewrite !elem_of_app in Hm. destruct Hm as [[Hm|Hm]|Hm].
      * destruct (break_due (S c)); [|now apply elem_of_nil in Hm].
        apply list_elem_of_singleton in Hm. now injection Hm.
      * repeat (apply elem_of_cons in Hm as [Hm|Hm]; [discriminate Hm|]).
        now apply elem_of_nil in Hm.
      * apply elem_of_cons in Hm as [Hm|Hm]; [discriminate Hm|]. now apply Hmsg.
Qed.

Lemma run_trials_escape c ts pre rest :
  Forall (renderable 12) ts -> Forall answered pre -> length pre < length ts ->
  exists events,
    DiscreteRun.run_trials py_str subj_num c ts (pre ++ Escape :: rest) = (events, Quitted)
    /\ DiscreteRun.run_trials py_str subj_num c ts pre = (events, Waiting)
    /\ length (rows_of events) = length pre
    /\ (forall m, Message m ∈ events -> m = BREAK_MSG).
Proof.
  intros Hts. revert c pre. induction Hts as [|t ts Ht _ IH]; intros c pre Ha Hlen.
  - cbn in Hlen. lia.
  - assert (Hshown : forall m,
              Message m ∈ (if break_due (S c) then [Message BREAK_MSG] else [])
                          ++ [SampleScreen (items_of (stim_colors t) t);
                              ProbeScreen (items_of (probe_colors t) t)] ->
              m = BREAK_MSG).
    { intros m Hm. rewrite elem_of_app in Hm. destruct Hm as [Hm|Hm].
      - destruct (break_due (S c)); [|now apply elem_of_nil in Hm].
        apply list_elem_of_singleton in Hm. now injection Hm.
      - repeat (apply elem_of_cons in Hm as [Hm|Hm]; [discriminate Hm|]).
        now apply elem_of_nil in Hm. }
    destruct (pause_rows (S c)) as [Hp1 Hp2].
    rewrite !run_trials_cons by exact Ht. cbv zeta.
    destruct pre as [|a pre].
    + cbn [app]. eexists. split; [reflexivity|]. split; [reflexivity|].
      split; [|exact Hshown]. now rewrite rows_of_app, Hp1.
    + apply Forall_cons in Ha as [Ha Has]. cbn [length] in Hlen.
      destruct a as [response resp_time|]; [|now exfalso; apply Ha].
      destruct (IH (S c) pre Has ltac:(lia)) as (events & Hq & Hw & Hrows & Hmsg).
      cbn [app]. rewrite Hq, Hw. eexists. split; [reflexivity|]. split; [reflexivity|].
      split.
      * rewrite !rows_of_app, Hp1.
        change (rows_of (RowWritten ?r :: events)) with (r :: rows_of events).
        cbn [rows_of flat_map app length]. now rewrite Hrows.
      * intros m Hm. rewrite elem_of_app in Hm. destruct Hm as [Hm|Hm]; [now apply Hshown|].
        apply elem_of_cons in Hm as [Hm|Hm]; [discriminate Hm|]. now apply Hmsg.
Qed.

End Loop.

(** X10: when every trial can be set up and the participant answers
    every probe screen with z or m, the discrete script runs from the
    instructions to the thanks, writes one row per trial in the order of the
    trial list, numbered from 1 and carrying that trial's answer, and shows the
    break message once per 25 trials. *)
Theorem answered_session_runs_to_the_end (py_str : Color -> string) (subj_num : string)
    (ts : list Trial) (answers : list Answer) :
  Forall (renderable 12) ts -> Forall answered answers -> length ts <= length answers ->
  exists events,
    DiscreteRun.experiment py_str subj_num ts answers
    = (Message INS_MSG :: events ++ [Message THANK_MSG], Finished)
    /\ length (rows_of events) = length ts
    /\ breaks_of events = length ts / 25
    /\ (forall k row, rows_of events !! k = Some row ->
          exists t response resp_time,
            ts !! k = Some t /\ answers !! k = Some (Responded response resp_time)
            /\ row = DiscreteRun.output_row py_str subj_num (S k) t response resp_time).
Proof.
  intros Hts Ha Hlen.
  destruct (run_trials_answered py_str subj_num 0 ts answers Hts Ha Hlen)
    as (events & Hrun & Hrows & Hbr & Hrow & _).
  exists events. unfold DiscreteRun.experiment. rewrite Hrun.
  split; [reflexivity|]. split; [exact Hrows|]. split; [exact Hbr|exact Hrow].
Qed.

(** X11: escape at a probe screen ends the discrete script at once: the
    rows written are those of the probes answered before it, what happened up to
    then is what a participant who has not pressed a key yet would have seen,
    and the thanks message is not shown. *)
Theorem escape_stops_the_session (py_str : Color -> string) (subj_num : string)
    (ts : list Trial) (pre rest : list Answer) :
  Forall (renderable 12) ts -> Forall answered pre -> length pre < length ts ->
  exists events,
    DiscreteRun.experiment py_str subj_num ts (pre ++ Escape :: rest) = (events, Quitted)
    /\ DiscreteRun.experiment py_str subj_num ts pre = (events, Waiting)
    /\ length (rows_of events) = length pre
    /\ Message THANK_MSG ∉ events.
Proof.
  intros Hts Ha Hlen.
  destruct (run_trials_escape py_str subj_num 0 ts pre rest Hts Ha Hlen)
    as (events & Hq & Hw & Hrows & Hmsg).
  exists (Message INS_MSG :: events). unfold DiscreteRun.experiment. rewrite Hq, Hw.
  split; [reflexivity|]. split; [reflexivity|]. split; [exact Hrows|].
  intros Hin. apply elem_of_cons in Hin as [Hin|Hin]; [discriminate Hin|].
  specialize (Hmsg _ Hin). discriminate Hmsg.
Qed.

Lemma answered_session_runs_to_the_end_witness :
  exists events,
    DiscreteRun.experiment str_ints "7"
      [mkTrial 0 0 1 [0] false [(1, 1, 1)%Q] [(1, 1, 1)%Q]] [Responded false 1]
    = (Message INS_MSG :: events ++ [Message THANK_MSG], Finished)
    /\ length (rows_of events) = 1.
Proof.
  destruct (answered_session_runs_to_the_end str_ints "7"
              [mkTrial 0 0 1 [0] false [(1, 1, 1)%Q] [(1, 1, 1)%Q]] [Responded false 1])
    as (events & H1 & H2 & _).
  - constructor; [|constructor]. unfold renderable. cbn. lia.
  - constructor; [discriminate|constructor].
  - cbn. lia.
  - exists events. split; [exact H1|exact H2].
Defined.

Lemma escape_stops_the_session_witness :
  exists events,
    DiscreteRun.experiment str_ints "7"
      [mkTrial 0 0 1 [0] false [(1, 1, 1)%Q] [(1, 1, 1)%Q];
       mkTrial 1 0 1 [3] true [(1, 1, 1)%Q] [(1, -1, 1)%Q]]
      ([Responded false 1] ++ Escape :: [Responded true 1])
    = (events, Quitted)
    /\ length (rows_of events) = 1.
Proof.
  destruct (escape_stops_the_session str_ints "7"
              [mkTrial 0 0 1 [0] false [(1, 1, 1)%Q] [(1, 1, 1)%Q];
               mkTrial 1 0 1 [3] true [(1, 1, 1)%Q] [(1, -1, 1)%Q]]
              [Responded false 1] [Responded true 1])
    as (events & H1 & _ & H2 & _).
  - repeat (constructor; [unfold renderable; cbn; lia|]). constructor.
  - constructor; [discriminate|constructor].
  - cbn. lia.
  - exists events. split; [exact H1|exact H2].
Defined.

(** ** From the generator to the output file *)

Lemma discrete_generated_renderable trial rep t :
  trial < Discrete.NUM_TYPE -> discrete_generated trial rep t -> renderable 12 t.
Proof.
  intros Ht Hg. pose proof (discrete_generated_well_shaped trial rep t Ht Hg) as Hw.
  destruct Hw as (H1 & H2 & H3 & _).
  destruct Hg as (_ & _ & Hn & _). pose proof (discrete_Trial_init_load trial Ht).
  unfold renderable. rewrite H1, H2, H3. lia.
Qed.

Lemma discrete_generated_lengths trial rep t :
  trial < Discrete.NUM_TYPE -> discrete_generated trial rep t ->
  length (stim_colors t) = num_stimuli t /\ length (probe_colors t) = num_stimuli t
  /\ num_stimuli t <= 12.
Proof.
  intros Ht Hg. pose proof (discrete_generated_well_shaped trial rep t Ht Hg) as Hw.
  destruct Hw as (H1 & H2 & H3 & _).
  destruct Hg as (_ & _ & Hn & _). pose proof (discrete_Trial_init_load trial Ht).
  repeat split; [exact H2|exact H3|lia].
Qed.

(** X12: the generator and the trial loop fit together.  Whatever the
    shuffles and draws, the trial list of the discrete script can be run to the
    end by a participant who answers every probe: the file gets one row per
    trial ([NUM_TYPE * NUM_REPS]), a break is offered once per 25 trials, and,
    when [str] tells the palette colours apart, every row names exactly as many
    sample colours and as many probe colours as its set-size cell says. *)
Theorem generated_session_fills_the_file (py_str : Color -> string) (subj_num : string)
    (g : Tape) (reps : nat) (answers : list Answer) :
  NoDup (map py_str Discrete.palette) ->
  Forall answered answers -> Discrete.NUM_TYPE * reps <= length answers ->
  exists test_set w' events,
    returns Discrete.set_trials (discrete_world g reps) test_set w'
    /\ DiscreteRun.experiment py_str subj_num test_set answers
       = (Message INS_MSG :: events ++ [Message THANK_MSG], Finished)
    /\ length (rows_of events) = Discrete.NUM_TYPE * reps
    /\ breaks_of events = Discrete.NUM_TYPE * reps / 25
    /\ Forall (fun row =>
                 length row = length DiscreteRun.HEADER_LIST /\
                 exists n, row !! 2 = Some (Number n)
                           /\ length (decode_colors (firstn 12 (skipn 3 row))) = n
                           /\ length (decode_colors (firstn 12 (skipn 15 row))) = n)
              (rows_of events).
Proof.
  intros Hnd Ha Hlen.
  destruct (discrete_session_returns g reps) as (rows & ts & w' & Hr & Hp & Hg).
  assert (Hn : length ts = Discrete.NUM_TYPE * reps).
  { rewrite Hp, (grid_length _ _ _ _ Hg), !length_seq. lia. }
  assert (Hrend : Forall (renderable 12) ts).
  { eapply session_Forall; [|exact Hp|exact Hg].
    intros trial rep t. apply discrete_generated_renderable. }
  assert (Hcol : Forall discrete_colors ts).
  { eapply session_Forall; [|exact Hp|exact Hg].
    intros trial rep t. apply discrete_generated_colors. }
  assert (Hlens : Forall (fun t => length (stim_colors t) = num_stimuli t
                                   /\ length (probe_colors t) = num_stimuli t
                                   /\ num_stimuli t <= 12) ts).
  { eapply session_Forall; [|exact Hp|exact Hg].
    intros trial rep t. apply discrete_generated_lengths. }
  destruct (run_trials_answered py_str subj_num 0 ts answers Hrend Ha ltac:(lia))
    as (events & Hrun & Hrows & Hbr & Hrow & _).
  exists ts, w', events. split; [exact Hr|].
  unfold DiscreteRun.experiment. rewrite Hrun. split; [reflexivity|].
  split; [now rewrite Hrows|]. split; [rewrite <- Hn; exact Hbr|].
  apply Forall_lookup. intros k row Hk.
  destruct (Hrow k row Hk) as (t & response & resp_time & Ht & _ & ->).
  rewrite Forall_lookup in Hcol, Hlens.
  destruct (Hcol k t Ht) as (Hs & Hpc & _). destruct (Hlens k t Ht) as (L1 & L2 & L3).
  destruct (output_row_decodes py_str subj_num (0 + S k) t response resp_time
              Hnd Hs Hpc ltac:(lia) ltac:(lia)) as (R2 & R3).
  split; [reflexivity|]. exists (num_stimuli t). split; [reflexivity|].
  now rewrite R2, R3.
Qed.

Lemma generated_session_fills_the_file_witness :
  exists test_set w' events,
    returns Discrete.set_trials (discrete_world [] 1) test_set w'
    /\ DiscreteRun.experiment str_ints "7" test_set (repeat (Responded true 1) 6)
       = (Message INS_MSG :: events ++ [Message THANK_MSG], Finished)
    /\ length (rows_of events) = 6.
Proof.
  destruct (generated_session_fills_the_file str_ints "7" [] 1 (repeat (Responded true 1) 6))
    as (ts & w' & events & H1 & H2 & H3 & _).
  - exact str_ints_palette.
  - repeat (constructor; [discriminate|]). constructor.
  - cbn. lia.
  - exists ts, w', events. split; [exact H1|]. split; [exact H2|exact H3].
Defined.

(** ** The colour wheel *)

Lemma radius_of_wheel_point (k : nat) : radius_of (wheel_point k) = loop_radius.
Proof.
  unfold radius_of, wheel_point, loop_radius. cbn [fst snd].
  set (a := (INR k * PI / 180)%R). pose proof (sin2_cos2 a) as H. unfold Rsqr in H.
  replace (8 * cos a * (8 * cos a) + 8 * sin a * (8 * sin a))%R
    with (8 * 8 * (sin a * sin a + cos a * cos a))%R by ring.
  rewrite H, Rmult_1_r. apply sqrt_square. lra.
Qed.

Lemma disk_contains_inside (radius : R) (p : Point) :
  disk_contains radius p = true -> (radius_of p <= radius)%R.
Proof.
  unfold disk_contains, radius_of. now destruct (Rle_dec _ radius).
Qed.

Lemma disk_contains_covers (radius bound : R) (p : Point) :
  (bound <= radius)%R -> (radius_of p <= bound)%R -> disk_contains radius p = true.
Proof.
  unfold disk_contains, radius_of. intros Hb Hp.
  destruct (Rle_dec _ radius) as [_|Hn]; [reflexivity|]. exfalso. apply Hn. lra.
Qed.

(** X13: the wheel lies in the annulus.  Every wheel point is at distance
    [loop_radius] from the centre, so with an inner mask that stays within
    radius [loop_radius - 0.5] and an outer mask that covers radius
    [loop_radius], a pointer resting on wheel point [k] fills the probe square
    with the colour of row [k]. *)
Theorem pointer_on_the_wheel_shows_its_color (rgb : nat -> RColor)
    (mask1_contains mask2_contains : Point -> bool) (probe : nat) (f : Frame) (k : nat) :
  (forall p, mask1_contains p = true -> (radius_of p <= loop_radius - 0.5)%R) ->
  (forall p, (radius_of p <= loop_radius)%R -> mask2_contains p = true) ->
  k < n_circ -> mousePos f probe = wheel_point k ->
  radius_of (mousePos f probe) = loop_radius
  /\ probe_fill rgb mask1_contains mask2_contains probe f = Some (rgb k).
Proof.
  intros H1 H2 Hk Hp. pose proof (radius_of_wheel_point k) as Hr.
  rewrite <- Hp in Hr. split; [exact Hr|].
  unfold probe_fill.
  assert (Hin : mask2_contains (mousePos f probe) = true) by (apply H2; lra).
  assert (Hout : mask1_contains (mousePos f probe) = false).
  { destruct (mask1_contains (mousePos f probe)) eqn:E; [|reflexivity].
    specialize (H1 _ E). unfold loop_radius in *. lra. }
  rewrite Hin, Hout. cbn [negb andb]. now rewrite Hp, loc_of_wheel_point.
Qed.

Lemma pointer_on_the_wheel_shows_its_color_witness :
  probe_fill (fun k => (INR k, 0, 0)%R)
    (disk_contains (loop_radius - 0.5)) (disk_contains (loop_radius + 0.5))
    1 (mkFrame (fun _ => wheel_point 90) [false])
  = Some (INR 90, 0, 0)%R.
Proof.
  refine (proj2 (pointer_on_the_wheel_shows_its_color (fun k => (INR k, 0, 0)%R)
                   (disk_contains (loop_radius - 0.5)) (disk_contains (loop_radius + 0.5))
                   1 (mkFrame (fun _ => wheel_point 90) [false]) 90 _ _ _ _)).
  - intros p. apply disk_contains_inside.
  - intros p. apply disk_contains_covers. unfold loop_radius. lra.
  - unfold n_circ. lia.
  - reflexivity.
Defined.

Lemma sum_sq_vec2 (x1 y1 x2 y2 : R) :
  sum_sq (vec2 (x1, y1)) (vec2 (x2, y2))
  = ((x1 - x2) * (x1 - x2) + (y1 - y2) * (y1 - y2))%R.
Proof. cbn [vec2 fst snd sum_sq]. ring. Qed.

(** X14: the colour picked depends on the direction of the pointer: for
    a pointer at distance [r > 0] from the centre in direction [a], the chosen
    wheel point is one whose angle is nearest to [a], wherever on that ray the
    pointer is. *)
Theorem nearest_wheel_point_is_nearest_in_direction (r a : R) (k : nat) :
  (0 < r)%R -> k < n_circ ->
  (cos (INR k * PI / 180 - a)
   <= cos (INR (loc_of (r * cos a, r * sin a)%R) * PI / 180 - a))%R.
Proof.
  intros Hr Hk. set (p := (r * cos a, r * sin a)%R).
  destruct (loc_of_nearest p) as [_ Hmin]. specialize (Hmin k Hk).
  unfold euclidean_distance in Hmin.
  apply sqrt_le_0 in Hmin; [|apply sum_sq_nonneg|apply sum_sq_nonneg].
  unfold p, wheel_point, loop_radius in Hmin. rewrite !sum_sq_vec2 in Hmin.
  rewrite !cos_minus.
  set (t1 := (INR (loc_of (r * cos a, r * sin a)%R) * PI / 180)%R) in *.
  set (t2 := (INR k * PI / 180)%R) in *.
  pose proof (sin2_cos2 t1) as E1. pose proof (sin2_cos2 t2) as E2.
  unfold Rsqr in E1, E2.
  assert (H : (r * (cos t2 * cos a + sin t2 * sin a)
               <= r * (cos t1 * cos a + sin t1 * sin a))%R) by nra.
  now apply Rmult_le_reg_l in H.
Qed.

Lemma nearest_wheel_point_is_nearest_in_direction_witness :
  (cos (INR 180 * PI / 180 - 0)
   <= cos (INR (loc_of (1 * cos 0, 1 * sin 0)%R) * PI / 180 - 0))%R.
Proof.
  apply (nearest_wheel_point_is_nearest_in_direction 1 0 180).
  - lra.
  - unfold n_circ. lia.
Defined.

(** ** The judgement error *)

Lemma response_loop_accepted (rgb : nat -> RColor)
    (mask1_contains mask2_contains : Point -> bool) (n probe : nat) (c : Color)
    (frames : list Frame) (r : Response) :
  snd (response_loop rgb mask1_contains mask2_contains n probe c frames) = Some r ->
  exists f, f ∈ frames /\ any (buttons f) = true /\ r = accepted rgb n c f.
Proof.
  induction frames as [|f frames IH]; [discriminate|].
  cbn [response_loop]. destruct (any (buttons f)) eqn:Hf.
  - cbn [snd]. intros [= <-]. exists f. split; [apply list_elem_of_here|]. now split.
  - destruct (response_loop rgb mask1_contains mask2_contains n probe c frames)
      as [fills r0]. cbn [snd] in *. intros H.
    destruct (IH H) as (f' & Hin & Hb & ->). exists f'.
    split; [now apply list_elem_of_further|]. now split.
Qed.

Lemma in_cube_distance (a b : RColor) :
  in_cube a -> in_cube b -> (euclidean_distance (vec3 a) (vec3 b) <= sqrt 12)%R.
Proof.
  destruct a as [[r1 g1] b1], b as [[r2 g2] b2]. unfold in_cube.
  intros (Hr1 & Hg1 & Hb1) (Hr2 & Hg2 & Hb2).
  unfold euclidean_distance. apply sqrt_le_1_alt. cbn [vec3 sum_sq].
  assert (forall x y, (-1 <= x <= 1 -> -1 <= y <= 1 -> (x - y) * (x - y) <= 4)%R) as Hsq
    by (intros x y Hx Hy; nra).
  pose proof (Hsq r1 r2 Hr1 Hr2). pose proof (Hsq g1 g2 Hg1 Hg2).
  pose proof (Hsq b1 b2 Hb1 Hb2). lra.
Qed.

Lemma continuous_palette_in_cube (c : Color) :
  c ∈ Continuous.palette -> in_cube (color_R c).
Proof.
  unfold Continuous.palette. intros Hc.
  repeat (apply elem_of_cons in Hc as [->|Hc]); [..|now apply elem_of_nil in Hc];
    unfold in_cube, color_R, Q2R; cbn; lra.
Qed.

(** X15: the error written for a response lies between 0 and [sqrt 12],
    the diagonal of the colour cube, whenever the wheel table holds colours of
    the ['rgb'] space and the probe colour is a palette colour; and it is 0
    exactly when the colour picked is the probe colour. *)
Theorem judgement_error_range (rgb : nat -> RColor)
    (mask1_contains mask2_contains : Point -> bool) (n probe : nat) (c : Color)
    (frames : list Frame) (r : Response) :
  (forall k, in_cube (rgb k)) -> c ∈ Continuous.palette ->
  snd (response_loop rgb mask1_contains mask2_contains n probe c frames) = Some r ->
  (0 <= judgement_Error r <= sqrt 12)%R
  /\ (judgement_Error r = 0%R <-> sub_resp_Color r = color_R (probe_Color r)).
Proof.
  intros Hrgb Hc Hr.
  destruct (response_loop_accepted _ _ _ _ _ _ _ _ Hr) as (f & _ & _ & ->).
  cbn [accepted judgement_Error sub_resp_Color probe_Color]. split; [split|split].
  - apply euclidean_distance_nonneg.
  - apply in_cube_distance; [apply Hrgb|now apply continuous_palette_in_cube].
  - apply euclidean_distance_vec3_zero.
  - intros ->. apply euclidean_distance_same.
Qed.

Lemma judgement_error_range_witness :
  (0 <= judgement_Error
          (accepted (fun _ => (0, 0, 0)%R) 2 (1, 1, -1)%Q (mkFrame (fun _ => (0, 0)%R) [true]))
   <= sqrt 12)%R.
Proof.
  refine (proj1 (judgement_error_range (fun _ => (0, 0, 0)%R) (fun _ => true) (fun _ => true)
                   2 0 (1, 1, -1)%Q [mkFrame (fun _ => (0, 0)%R) [true]]
                   (accepted (fun _ => (0, 0, 0)%R) 2 (1, 1, -1)%Q
                      (mkFrame (fun _ => (0, 0)%R) [true])) _ _ _)).
  - intros k. unfold in_cube. lra.
  - apply (bool_decide_unpack _). vm_compute. exact I.
  - reflexivity.
Defined.

(** ** A trial of the continuous script, from the generator to the probe *)

Lemma continuous_generated_lengths trial rep t :
  trial < Continuous.NUM_TYPE -> continuous_generated trial rep t ->
  length (stim_positions t) = num_stimuli t /\ length (stim_colors t) = num_stimuli t
  /\ 1 <= num_stimuli t <= 6.
Proof.
  intros Ht Hg. pose proof (continuous_generated_well_shaped trial rep t Ht Hg) as Hw.
  destruct Hw as (H1 & H2 & _).
  destruct Hg as (_ & _ & Hn & _). pose proof (continuous_Trial_init_load trial Ht).
  repeat split; [exact H1|exact H2|lia|lia].
Qed.

Lemma run_trial_returns (rgb : nat -> RColor)
    (mask1_contains mask2_contains : Point -> bool) {G : Type}
    (t : Trial) (frames : list Frame) (w : World G) :
  1 <= num_stimuli t -> length (stim_colors t) = num_stimuli t ->
  exists probe c g',
    probe < num_stimuli t /\ stim_colors t !! probe = Some c /\
    run_trial rgb mask1_contains mask2_contains t frames w
    = Ok ((probe,
           fst (response_loop rgb mask1_contains mask2_contains
                  (num_stimuli t) probe c frames),
           snd (response_loop rgb mask1_contains mask2_contains
                  (num_stimuli t) probe c frames)),
          mkWorld g' (globals w)).
Proof.
  intros Hn Hlen.
  destruct (sample1_seq_returns (num_stimuli t) w Hn) as (probe & g' & Hlt & Hs).
  destruct (getitem_returns (stim_colors t) (Z.of_nat probe) (mkWorld g' (globals w)))
    as (c & Hc & Hg); [lia|]. rewrite Nat2Z.id in Hc.
  exists probe, c, g'. split; [exact Hlt|]. split; [exact Hc|].
  unfold run_trial, bind. rewrite Hs, Hg.
  now destruct (response_loop rgb mask1_contains mask2_contains
                  (num_stimuli t) probe c frames).
Qed.

Lemma sample_fill_own_color (rgb : nat -> RColor) (colors : list Color) :
  NoDup colors ->
  exists skip, forall target c ix,
    colors !! target = Some c -> target <> skip -> sample_fill rgb ix c = color_R c.
Proof.
  intros Hnd. destruct (decide (black ∈ colors)) as [Hin|Hout].
  - apply list_elem_of_lookup in Hin as [skip Hskip]. exists skip.
    intros target c ix Hc Hne. unfold sample_fill.
    destruct (bool_decide_reflect (c = black)) as [->|_]; [|reflexivity].
    exfalso. apply Hne. exact (NoDup_lookup _ _ _ _ Hnd Hc Hskip).
  - exists 0. intros target c ix Hc _. unfold sample_fill.
    destruct (bool_decide_reflect (c = black)) as [->|_]; [|reflexivity].
    exfalso. apply Hout. eapply list_elem_of_lookup_2; exact Hc.
Qed.

(** X16: whatever the shuffles and draws, every trial the continuous
    script generates can be shown and probed: its sample screen fits the six
    stimulus objects and shows every item in its own colour except at most one
    (black, which is replaced by a wheel colour), and drawing the probe yields
    an index below [num_stimuli] whose sample colour, a palette colour, is the
    one scored against. *)
Theorem generated_continuous_trials_can_be_probed (rgb : nat -> RColor)
    (mask1_contains mask2_contains : Point -> bool) (g : Tape) (reps : nat) :
  exists test_set w',
    returns Continuous.set_trials (continuous_world g reps) test_set w'
    /\ Forall (fun t =>
         screen 6 (stim_colors t) t = Ok (items_of (stim_colors t) t)
         /\ (exists skip, forall target c ix,
               stim_colors t !! target = Some c -> target <> skip ->
               sample_fill rgb ix c = color_R c)
         /\ (forall (frames : list Frame) (w : World unit),
               exists probe c g',
                 probe < num_stimuli t /\ stim_colors t !! probe = Some c
                 /\ c ∈ Continuous.palette
                 /\ run_trial rgb mask1_contains mask2_contains t frames w
                    = Ok ((probe,
                           fst (response_loop rgb mask1_contains mask2_contains
                                  (num_stimuli t) probe c frames),
                           snd (response_loop rgb mask1_contains mask2_contains
                                  (num_stimuli t) probe c frames)),
                          mkWorld g' (globals w))))
         test_set.
Proof.
  destruct (continuous_session_returns g reps) as (rows & ts & w' & Hr & Hp & Hg).
  exists ts, w'. split; [exact Hr|].
  eapply session_Forall; [|exact Hp|exact Hg].
  intros trial rep t Ht Hgen.
  destruct (continuous_generated_lengths trial rep t Ht Hgen) as (L1 & L2 & L3).
  destruct (continuous_generated_colors trial rep t Ht Hgen) as (Hpal & _).
  split; [|split].
  - unfold screen, items_of. now rewrite screen_from_ok by (cbn; lia).
  - apply sample_fill_own_color. exact (continuous_generated_NoDup trial rep t Hgen).
  - intros frames w.
    destruct (run_trial_returns rgb mask1_contains mask2_contains t frames w
                ltac:(lia) L2) as (probe & c & g' & Hlt & Hc & Hrun).
    exists probe, c, g'. split; [exact Hlt|]. split; [exact Hc|]. split; [|exact Hrun].
    rewrite Forall_forall in Hpal. apply Hpal. eapply list_elem_of_lookup_2; exact Hc.
Qed.

(** ** [pol2cart] *)

Lemma pol2cart_norm (rho phi : R) :
  (fst (pol2cart rho phi) * fst (pol2cart rho phi)
   + snd (pol2cart rho phi) * snd (pol2cart rho phi) = rho * rho)%R.
Proof.
  unfold pol2cart. cbn [fst snd]. pose proof (sin2_cos2 phi) as H. unfold Rsqr in H.
  replace (rho * cos phi * (rho * cos phi) + rho * sin phi * (rho * sin phi))%R
    with (rho * rho * (sin phi * sin phi + cos phi * cos phi))%R by ring.
  rewrite H. ring.
Qed.

(** X18: [pol2cart rho phi] is at distance [|rho|] from the origin.  In
    [elementArray1.py] the call passes the angles as [rho] and the radius as
    [phi]: the thirty points it computes lie on one line through the origin, at
    distances [|circ_angle k|], and none of them is on the circle of radius
    10. *)
Theorem pol2cart_swapped_arguments (rho phi : R) (k : nat) :
  (fst (pol2cart rho phi) * fst (pol2cart rho phi)
   + snd (pol2cart rho phi) * snd (pol2cart rho phi) = rho * rho)%R
  /\ (fst (circ_point k) * sin 10 = snd (circ_point k) * cos 10)%R
  /\ (fst (circ_point k) * fst (circ_point k) + snd (circ_point k) * snd (circ_point k)
      = circ_angle k * circ_angle k)%R
  /\ (fst (circ_point k) * fst (circ_point k) + snd (circ_point k) * snd (circ_point k)
      <> 10 * 10)%R.
Proof.
  split; [apply pol2cart_norm|]. split; [|split].
  - unfold circ_point, pol2cart. cbn [fst snd]. ring.
  - apply pol2cart_norm.
  - unfold circ_point. rewrite pol2cart_norm. unfold circ_angle. intros H.
    assert (Hk : (INR k * 36 = 290 \/ INR k * 36 = 232)%R).
    { assert (Hf : ((INR k * 36 - 290) * (INR k * 36 - 232) = 0)%R) by (field_simplify in H; nra).
      apply Rmult_integral in Hf. destruct Hf; [left|right]; lra. }
    destruct Hk as [Hk|Hk].
    + assert (E : INR (k * 36) = INR 290).
      { rewrite mult_INR. replace (INR 36) with 36%R by (rewrite INR_IZR_INZ; reflexivity).
        replace (INR 290) with 290%R by (rewrite INR_IZR_INZ; reflexivity). exact Hk. }
      apply INR_eq in E. lia.
    + assert (E : INR (k * 36) = INR 232).
      { rewrite mult_INR. replace (INR 36) with 36%R by (rewrite INR_IZR_INZ; reflexivity).
        replace (INR 232) with 232%R by (rewrite INR_IZR_INZ; reflexivity). exact Hk. }
      apply INR_eq in E. lia.
Qed.

(** ** Stimuli on the ring *)

Lemma sqrt3_bound : (sqrt 3 <= 7 / 4)%R.
Proof.
  replace (7 / 4)%R with (sqrt (7 / 4 * (7 / 4)))%R by (apply sqrt_square; lra).
  apply sqrt_le_1_alt. lra.
Qed.

Lemma cos_far (x : R) : (PI / 6 <= x <= 2 * PI - PI / 6)%R -> (cos x <= 7 / 8)%R.
Proof.
  intros [Hlo Hhi]. pose proof PI_RGT_0 as Hpi. pose proof sqrt3_bound as H3.
  assert (H6 : (cos (PI / 6) <= 7 / 8)%R) by (rewrite cos_PI6; lra).
  destruct (Rle_dec x PI) as [Hle|Hgt].
  - apply Rle_trans with (cos (PI / 6)); [|exact H6]. apply cos_decr_1; lra.
  - replace x with (- (2 * PI - x) + 2 * PI)%R by ring.
    rewrite cos_plus, cos_2PI, sin_2PI, cos_neg. ring_simplify.
    apply Rle_trans with (cos (PI / 6)); [|exact H6]. apply cos_decr_1; lra.
Qed.

Lemma ring_chord_gt (p q : Position) :
  q < p -> p < 12 -> (4 <= sum_sq (vec2 (coords p)) (vec2 (coords q)))%R.
Proof.
  intros Hqp Hp. unfold coords. rewrite !coords_angle. unfold STIM_POS_RADIUS.
  rewrite sum_sq_vec2.
  set (a := (2 * PI * INR p / 12)%R). set (b := (2 * PI * INR q / 12)%R).
  pose proof PI_RGT_0 as Hpi.
  assert (HQ : (0 <= INR q)%R) by apply pos_INR.
  assert (HPQ : (INR q + 1 <= INR p)%R).
  { rewrite <- S_INR. apply le_INR. lia. }
  assert (HP : (INR p <= 11)%R).
  { replace 11%R with (INR 11) by (rewrite INR_IZR_INZ; reflexivity). apply le_INR. lia. }
  assert (Hc : (cos (a - b) <= 7 / 8)%R).
  { apply cos_far. unfold a, b. split; nra. }
  rewrite cos_minus in Hc.
  pose proof (sin2_cos2 a) as Ea. pose proof (sin2_cos2 b) as Eb. unfold Rsqr in Ea, Eb.
  nra.
Qed.

Lemma sum_sq_sym (u v : list R) : sum_sq u v = sum_sq v u.
Proof.
  revert v. induction u as [|a u IH]; intros [|b v]; cbn [sum_sq]; try reflexivity.
  rewrite IH. ring.
Qed.

Lemma ring_chord (p q : Position) :
  p <> q -> p < 12 -> q < 12 -> (4 <= sum_sq (vec2 (coords p)) (vec2 (coords q)))%R.
Proof.
  intros Hne Hp Hq. destruct (Nat.lt_ge_cases q p) as [Hlt|Hge].
  - now apply ring_chord_gt.
  - rewrite sum_sq_sym. apply ring_chord_gt; lia.
Qed.

Lemma ring_slots_apart (size : R) (p q : Position) :
  (size <= 1)%R -> p <> q -> p < 12 -> q < 12 ->
  (2 <= euclidean_distance (vec2 (coords p)) (vec2 (coords q)))%R
  /\ ~ overlap size (coords p) (coords q).
Proof.
  intros Hs Hne Hp Hq. pose proof (ring_chord p q Hne Hp Hq) as Hc. split.
  - unfold euclidean_distance.
    replace 2%R with (sqrt (2 * 2))%R by (apply sqrt_square; lra).
    apply sqrt_le_1_alt. lra.
  - intros [Hx Hy]. destruct (coords p) as [x1 y1], (coords q) as [x2 y2].
    rewrite sum_sq_vec2 in Hc. cbn [fst snd] in Hx, Hy.
    apply Rabs_def2 in Hx, Hy. nra.
Qed.

Lemma generated_apart num_of is_pool hi (size : R) trial rep t :
  (size <= 1)%R -> generated num_of is_pool hi trial rep t -> apart size t.
Proof.
  intros Hs (_ & _ & _ & (ps & Hps & Hpos) & _) i j p q Hne Hi Hj.
  assert (Hnd : NoDup (stim_positions t)).
  { rewrite Hpos. apply NoDup_firstn. rewrite Hps. apply NoDup_seq. }
  assert (Hlt : forall k x, stim_positions t !! k = Some x -> x < 12).
  { intros k x Hk. rewrite Hpos in Hk. apply list_elem_of_lookup_2 in Hk.
    apply elem_of_take in Hk as (k' & Hk' & _). apply list_elem_of_lookup_2 in Hk'.
    rewrite Hps in Hk'. apply elem_of_seq in Hk'. lia. }
  apply ring_slots_apart; [exact Hs| |eapply Hlt; exact Hi|eapply Hlt; exact Hj].
  intros ->. apply Hne. exact (NoDup_lookup _ _ _ _ Hnd Hi Hj).
Qed.

(** X19: the stimuli of a trial never overlap.  Two items of a generated
    trial sit on different ring slots, so their centres are at least 2 degrees
    apart (the chord of a twelfth of the ring of radius 4), more than the
    squares of side [STIM_SIZE] need, in both scripts and whatever the
    shuffles. *)
Theorem stimuli_never_overlap (g : Tape) (reps : nat) :
  (exists test_set w',
     returns Discrete.set_trials (discrete_world g reps) test_set w'
     /\ Forall (apart discrete_STIM_SIZE) test_set)
  /\
  (exists test_set w',
     returns Continuous.set_trials (continuous_world g reps) test_set w'
     /\ Forall (apart continuous_STIM_SIZE) test_set).
Proof.
  split.
  - destruct (discrete_session_returns g reps) as (rows & ts & w' & Hr & Hp & Hg).
    exists ts, w'. split; [exact Hr|].
    eapply session_Forall; [|exact Hp|exact Hg].
    intros trial rep t _. apply generated_apart. unfold discrete_STIM_SIZE. lra.
  - destruct (continuous_session_returns g reps) as (rows & ts & w' & Hr & Hp & Hg).
    exists ts, w'. split; [exact Hr|].
    eapply session_Forall; [|exact Hp|exact Hg].
    intros trial rep t _. apply generated_apart. unfold continuous_STIM_SIZE. lra.
Qed.

(** ** The two screens of a trial *)

Lemma map_fst_zip {A B} (l : list A) (k : list B) :
  length l <= length k -> map fst (zip l k) = l.
Proof.
  revert k. induction l as [|x l IH]; intros [|y k] H; cbn in *; try reflexivity; try lia.
  f_equal. apply IH. lia.
Qed.

Lemma colors_from_no_change pool hi t :
  colors_from pool hi t -> change t = false -> probe_colors t = stim_colors t.
Proof.
  intros [Hst Hpr] Hch. destruct (rep_num t mod 2 =? 0).
  - destruct Hpr as [Hc _]. congruence.
  - destruct Hpr as [_ ->]. now rewrite Hst.
Qed.

Lemma zip_insert_same_but_one {A B} (l : list A) (k : list B) (i : nat) (v : B) :
  same_but_one (zip l k) (zip l (<[i := v]> k)).
Proof.
  split.
  - now rewrite !length_zip_with, length_insert.
  - exists i. intros j Hj. rewrite !lookup_zip_with.
    now rewrite list_lookup_insert_ne by congruence.
Qed.

Lemma discrete_generated_screens trial rep t :
  trial < Discrete.NUM_TYPE -> discrete_generated trial rep t -> screens_agree t.
Proof.
  intros Ht Hg. pose proof (discrete_generated_well_shaped trial rep t Ht Hg) as Hw.
  destruct Hw as (L1 & L2 & L3 & _).
  destruct Hg as (_ & _ & Hn & _ & (pool & Hpool & Hcol)).
  pose proof (discrete_Trial_init_load trial Ht) as Hload.
  pose proof (discrete_pool_length pool Hpool) as Hlen.
  assert (Hnl : num_stimuli t <= length pool) by (rewrite Hn, Hlen; lia).
  pose proof (colors_from_probe pool 13 t Hcol Hnl) as Hprobe.
  pose proof (colors_from_no_change pool 13 t Hcol) as Hsame.
  unfold screens_agree, items_of.
  rewrite !(firstn_all2 (stim_positions t)), !(firstn_all2 (stim_colors t)),
    !(firstn_all2 (probe_colors t)) by lia.
  split; [apply map_fst_zip; lia|]. split; [apply map_fst_zip; lia|].
  split; [|now intros Hch; rewrite (Hsame Hch)].
  destruct (rep_num t mod 2 =? 0).
  - destruct Hprobe as (i & j & v & _ & _ & _ & ->). apply zip_insert_same_but_one.
  - rewrite Hprobe. split; [reflexivity|]. now exists 0.
Qed.

(** X20: in the discrete script the probe screen of a generated trial
    shows its items at the positions of the sample screen and differs from the
    sample screen in at most one item; when the trial is not flagged as a change
    trial the two screens are the same. *)
Theorem probe_screen_differs_in_one_item (g : Tape) (reps : nat) :
  exists test_set w',
    returns Discrete.set_trials (discrete_world g reps) test_set w'
    /\ Forall (fun t =>
         screen DiscreteRun.n_objects (stim_colors t) t = Ok (items_of (stim_colors t) t)
         /\ screen DiscreteRun.n_objects (probe_colors t) t = Ok (items_of (probe_colors t) t)
         /\ screens_agree t) test_set.
Proof.
  destruct (discrete_session_returns g reps) as (rows & ts & w' & Hr & Hp & Hg).
  exists ts, w'. split; [exact Hr|].
  eapply session_Forall; [|exact Hp|exact Hg].
  intros trial rep t Ht Hgen.
  destruct (discrete_generated_renderable trial rep t Ht Hgen) as (R1 & R2 & R3 & R4).
  split; [now apply screen_renderable|]. split; [now apply screen_renderable|].
  exact (discrete_generated_screens trial rep t Ht Hgen).
Qed.

(** ** The trial loop of the continuous script *)

Lemma response_loop_press (rgb : nat -> RColor)
    (mask1_contains mask2_contains : Point -> bool) (n probe : nat) (c : Color)
    (frames : list Frame) :
  Exists (fun f => any (buttons f) = true) frames ->
  exists r, snd (response_loop rgb mask1_contains mask2_contains n probe c frames) = Some r
            /\ probe_Color r = c.
Proof.
  induction frames as [|f frames IH]; intros H; [now apply Exists_nil in H|].
  cbn [response_loop]. destruct (any (buttons f)) eqn:Hf.
  - eexists. split; reflexivity.
  - apply Exists_cons in H as [H|H]; [congruence|].
    destruct (IH H) as (r & Hr & Hc).
    destruct (response_loop rgb mask1_contains mask2_contains n probe c frames)
      as [fills r0]. exists r. now split.
Qed.

Lemma wheel_rows_app (e1 e2 : list WheelEvent) :
  wheel_rows (e1 ++ e2) = wheel_rows e1 ++ wheel_rows e2.
Proof. unfold wheel_rows. apply flat_map_app. Qed.

Lemma wheel_pause_rows (c : nat) :
  wheel_rows (if break_due c then [WMessage BREAK_MSG] else []) = [].
Proof. now destruct (break_due c). Qed.

Section WheelLoop.

Variable rgb : nat -> RColor.
Variable mask1_contains : Point -> bool.
Variable mask2_contains : Point -> bool.
Variable py_str : Color -> string.
Variable subj_num : string.
Variable G : Type.

Lemma wheel_trials_clicked c ts passes (w : World G) :
  Forall probeable ts -> Forall clicked passes -> length ts <= length passes ->
  exists events w',
    ContinuousLoop.run_trials rgb mask1_contains mask2_contains py_str subj_num G
      c ts passes w = (events, Finished, w')
    /\ globals w' = globals w
    /\ length (wheel_rows events) = length ts
    /\ (forall k row, wheel_rows events !! k = Some row ->
          exists t p r col,
            ts !! k = Some t /\ passes !! k = Some p /\ col ∈ stim_colors t
            /\ probe_Color r = col
            /\ row = ContinuousRun.output_row py_str subj_num (c + S k) t r (seconds p)).
Proof.
  intros Hts. revert c passes w.
  induction Hts as [|t ts Ht _ IH]; intros c passes w Hp Hlen.
  - exists [], w. cbn [ContinuousLoop.run_trials length].
    split; [reflexivity|]. split; [reflexivity|]. split; [reflexivity|].
    intros k row H. destruct k; discriminate H.
  - destruct passes as [|p passes]; [cbn in Hlen; lia|].
    apply Forall_cons in Hp as [[Hesc Hclick] Hps]. cbn [length] in Hlen.
    destruct Ht as ((Hn1 & Hn6) & Lp & Lc).
    cbn [ContinuousLoop.run_trials hd tl]. rewrite Hesc.
    unfold ContinuousLoop.sample_items, screen.
    rewrite screen_from_ok by (cbn; unfold ContinuousLoop.n_objects; lia).
    destruct (run_trial_returns rgb mask1_contains mask2_contains t (frames_of p) w Hn1 Lc)
      as (probe & col & g' & Hlt & Hcol & Hrun).
    rewrite Hrun.
    destruct (response_loop_press rgb mask1_contains mask2_contains
                (num_stimuli t) probe col (frames_of p) Hclick) as (r & Hr & Hpc).
    rewrite Hr.
    destruct (IH (S c) passes (mkWorld g' (globals w)) Hps ltac:(lia))
      as (events & w' & Hrec & Hglob & Hrows & Hrow).
    rewrite Hrec. eexists. exists w'. split; [reflexivity|]. split; [exact Hglob|].
    rewrite !wheel_rows_app, wheel_pause_rows.
    change (wheel_rows (WRow ?x :: events)) with (x :: wheel_rows events).
    cbn [wheel_rows flat_map app length]. split; [now rewrite Hrows|].
    intros [|k] row H.
    + injection H as <-. exists t, p, r, col.
      split; [reflexivity|]. split; [reflexivity|].
      split; [eapply list_elem_of_lookup_2; exact Hcol|]. split; [exact Hpc|].
      now rewrite Nat.add_1_r.
    + destruct (Hrow k row H) as (t' & p' & r' & col' & H1 & H2 & H3 & H4 & H5).
      exists t', p', r', col'. repeat split; try assumption.
      rewrite H5. f_equal. lia.
Qed.

End WheelLoop.

Lemma continuous_generated_probeable trial rep t :
  trial < Continuous.NUM_TYPE -> continuous_generated trial rep t -> probeable t.
Proof.
  intros Ht Hg. destruct (continuous_generated_lengths trial rep t Ht Hg) as (L1 & L2 & L3).
  unfold probeable. now repeat split.
Qed.

(** X21: the generator and the trial loop of the continuous script fit
    together.  Whatever the shuffles and draws, when the participant never
    presses escape and clicks in every trial, the loop runs through the whole
    trial list and writes one row per trial ([NUM_TYPE * NUM_REPS]), numbered
    from 1 in list order; the probe colour of a row is a sample colour of its
    trial, hence a palette colour. *)
Theorem continuous_session_fills_the_file (rgb : nat -> RColor)
    (mask1_contains mask2_contains : Point -> bool) (py_str : Color -> string)
    (subj_num : string) (g : Tape) (reps : nat) (passes : list Pass) :
  Forall clicked passes -> Continuous.NUM_TYPE * reps <= length passes ->
  exists test_set w' events w'',
    returns Continuous.set_trials (continuous_world g reps) test_set w'
    /\ ContinuousLoop.run_trials rgb mask1_contains mask2_contains py_str subj_num _
         0 test_set passes w' = (events, Finished, w'')
    /\ length (wheel_rows events) = Continuous.NUM_TYPE * reps
    /\ (forall k row, wheel_rows events !! k = Some row ->
          exists t c,
            test_set !! k = Some t /\ c ∈ stim_colors t /\ c ∈ Continuous.palette
            /\ length row = length ContinuousRun.HEADER_LIST
            /\ row !! 1 = Some (Number (S k))
            /\ row !! 9 = Some (ColorCell c)).
Proof.
  intros Hp Hlen.
  destruct (continuous_session_returns g reps) as (rows & ts & w' & Hr & Hperm & Hg).
  assert (Hn : length ts = Continuous.NUM_TYPE * reps).
  { rewrite Hperm, (grid_length _ _ _ _ Hg), !length_seq. lia. }
  assert (Hprobe : Forall probeable ts).
  { eapply session_Forall; [|exact Hperm|exact Hg].
    intros trial rep t. apply continuous_generated_probeable. }
  assert (Hcol : Forall continuous_colors ts).
  { eapply session_Forall; [|exact Hperm|exact Hg].
    intros trial rep t. apply continuous_generated_colors. }
  destruct (wheel_trials_clicked rgb mask1_contains mask2_contains py_str subj_num _
              0 ts passes w' Hprobe Hp ltac:(lia))
    as (events & w'' & Hrun & _ & Hrows & Hrow).
  exists ts, w', events, w''. split; [exact Hr|]. split; [exact Hrun|].
  split; [now rewrite Hrows|].
  intros k row Hk. destruct (Hrow k row Hk) as (t & p & r & c & Ht & _ & Hc & Hpc & ->).
  exists t, c. split; [exact Ht|]. split; [exact Hc|]. split.
  - rewrite Forall_lookup in Hcol. destruct (Hcol k t Ht) as (Hpal & _).
    rewrite Forall_forall in Hpal. now apply Hpal.
  - split; [reflexivity|]. split; [reflexivity|]. now rewrite <- Hpc.
Qed.

Lemma continuous_session_fills_the_file_witness :
  exists test_set w' events w'',
    returns Continuous.set_trials (continuous_world [] 1) test_set w'
    /\ ContinuousLoop.run_trials (fun _ => (0, 0, 0)%R) (fun _ => true) (fun _ => true)
         str_ints "7" _ 0 test_set
         (repeat (mkPass false (fun _ => 0) [mkFrame (fun _ => (0, 0)%R) [true]] 1) 3) w'
       = (events, Finished, w'')
    /\ length (wheel_rows events) = 3.
Proof.
  destruct (continuous_session_fills_the_file
              (fun _ => (0, 0, 0)%R) (fun _ => true) (fun _ => true) str_ints "7" [] 1
              (repeat (mkPass false (fun _ => 0) [mkFrame (fun _ => (0, 0)%R) [true]] 1) 3))
    as (ts & w' & events & w'' & H1 & H2 & H3 & _).
  - repeat (constructor; [split; [reflexivity|constructor; reflexivity]|]). constructor.
  - cbn. lia.
  - exists ts, w', events, w''. split; [exact H1|]. split; [exact H2|exact H3].
Defined.

Lemma ends_with_row (l : list WheelEvent) (a b : WheelEvent) (r : list Cell)
    (events : list WheelEvent) :
  events = [] \/ (exists front row, events = front ++ [WRow row]) ->
  exists front row, l ++ a :: b :: WRow r :: events = front ++ [WRow row].
Proof.
  intros [->|(front & row & ->)].
  - exists (l ++ [a; b]), r. now rewrite <- app_assoc.
  - exists (l ++ a :: b :: WRow r :: front), row. now rewrite <- app_assoc.
Qed.

Lemma wheel_trials_escape (rgb : nat -> RColor)
    (mask1_contains mask2_contains : Point -> bool) (py_str : Color -> string)
    (subj_num : string) (G : Type) c ts pre p (w : World G) :
  Forall probeable ts -> Forall clicked pre -> length pre < length ts ->
  escape_key p = true ->
  exists events w',
    (forall rest,
       ContinuousLoop.run_trials rgb mask1_contains mask2_contains py_str subj_num G
         c ts (pre ++ p :: rest) w = (events, Quitted, w'))
    /\ length (wheel_rows events) = length pre
    /\ (forall k row, wheel_rows events !! k = Some row ->
          row !! 1 = Some (Number (c + S k)))
    /\ (events = [] \/ exists front row, events = front ++ [WRow row]).
Proof.
  intros Hts. revert c pre w.
  induction Hts as [|t ts Ht _ IH]; intros c pre w Hp Hlen Hesc.
  - cbn in Hlen. lia.
  - destruct pre as [|p0 pre].
    + exists [], w. split.
      { intros rest. cbn [app ContinuousLoop.run_trials hd]. now rewrite Hesc. }
      split; [reflexivity|]. split; [|now left].
      intros k row H. destruct k; discriminate H.
    + apply Forall_cons in Hp as [[Hesc0 Hclick] Hps]. cbn [length] in Hlen.
      destruct Ht as ((Hn1 & Hn6) & Lp & Lc).
      destruct (run_trial_returns rgb mask1_contains mask2_contains t (frames_of p0) w Hn1 Lc)
        as (probe & col & g' & Hlt & Hcol & Hrun).
      destruct (response_loop_press rgb mask1_contains mask2_contains
                  (num_stimuli t) probe col (frames_of p0) Hclick) as (r & Hr & Hpc).
      destruct (IH (S c) pre (mkWorld g' (globals w)) Hps ltac:(lia) Hesc)
        as (events & w' & Hrec & Hrows & Hrow & Hlast).
      eexists. exists w'. split.
      { intros rest. cbn [app ContinuousLoop.run_trials hd tl]. rewrite Hesc0.
        unfold ContinuousLoop.sample_items, screen.
        rewrite screen_from_ok by (cbn; unfold ContinuousLoop.n_objects; lia).
        rewrite Hrun, Hr, (Hrec rest). reflexivity. }
      split; [|split; [|right; now apply ends_with_row]].
      * rewrite wheel_rows_app, wheel_pause_rows.
        change (wheel_rows (WSample ?a :: WProbe ?b ?d :: WRow ?x :: events))
          with (x :: wheel_rows events).
        cbn [app length]. now rewrite Hrows.
      * rewrite wheel_rows_app, wheel_pause_rows.
        change (wheel_rows (WSample ?a :: WProbe ?b ?d :: WRow ?x :: events))
          with (x :: wheel_rows events).
        cbn [app]. intros [|k] row H.
        -- injection H as <-. now rewrite Nat.add_1_r.
        -- rewrite (Hrow k row H). do 2 f_equal. lia.
Qed.

(** X22: the continuous script looks for escape only at the top of a
    pass of the trial loop.  When it finds it there, after passes in which the
    participant clicked, the script quits with the rows of those passes written,
    the last thing it did being to write a row: the next trial is not shown, and
    whatever the devices would have delivered afterwards plays no part. *)
Theorem wheel_escape_quits_between_trials (rgb : nat -> RColor)
    (mask1_contains mask2_contains : Point -> bool) (py_str : Color -> string)
    (subj_num : string) (G : Type) (ts : list Trial) (pre : list Pass) (p : Pass)
    (w : World G) :
  Forall probeable ts -> Forall clicked pre -> length pre < length ts ->
  escape_key p = true ->
  exists events w',
    (forall rest,
       ContinuousLoop.run_trials rgb mask1_contains mask2_contains py_str subj_num G
         0 ts (pre ++ p :: rest) w = (events, Quitted, w'))
    /\ length (wheel_rows events) = length pre
    /\ (forall k row, wheel_rows events !! k = Some row -> row !! 1 = Some (Number (S k)))
    /\ (events = [] \/ exists front row, events = front ++ [WRow row]).
Proof.
  intros Hts Hp Hlen Hesc.
  destruct (wheel_trials_escape rgb mask1_contains mask2_contains py_str subj_num G
              0 ts pre p w Hts Hp Hlen Hesc) as (events & w' & Hrun & Hrows & Hrow & Hl).
  exists events, w'. split; [exact Hrun|]. split; [exact Hrows|]. split; [|exact Hl].
  intros k row Hk. exact (Hrow k row Hk).
Qed.

Lemma wheel_escape_quits_between_trials_witness :
  exists events w' front row,
    ContinuousLoop.run_trials (fun _ => (0, 0, 0)%R) (fun _ => true) (fun _ => true)
      str_ints "7" unit 0
      [mkTrial 0 0 2 [3; 7] true [(1, 1, -1)%Q; (-1, 1, 1)%Q] [(1, 1, -1)%Q; (1, 1, 1)%Q];
       mkTrial 1 1 4 [0; 5; 2; 9] false
         [(1, 1, -1)%Q; (-1, 1, 1)%Q; (1, -1, 1)%Q; (-1, -1, 1)%Q]
         [(1, 1, -1)%Q; (-1, 1, 1)%Q; (1, -1, 1)%Q; (-1, -1, 1)%Q]]
      ([mkPass false (fun _ => 0)
          [mkFrame (fun _ => (0, 0)%R) [false]; mkFrame (fun _ => (8, 0)%R) [true]] 1]
       ++ mkPass true (fun _ => 0) [] 0
       :: [mkPass false (fun _ => 0) [mkFrame (fun _ => (0, 8)%R) [true]] 2])
      (mkWorld [5; 1] tt)
    = (events, Quitted, w')
    /\ length (wheel_rows events) = 1
    /\ events = front ++ [WRow row].
Proof.
  destruct (wheel_escape_quits_between_trials
              (fun _ => (0, 0, 0)%R) (fun _ => true) (fun _ => true) str_ints "7" unit
              [mkTrial 0 0 2 [3; 7] true [(1, 1, -1)%Q; (-1, 1, 1)%Q]
                 [(1, 1, -1)%Q; (1, 1, 1)%Q];
               mkTrial 1 1 4 [0; 5; 2; 9] false
                 [(1, 1, -1)%Q; (-1, 1, 1)%Q; (1, -1, 1)%Q; (-1, -1, 1)%Q]
                 [(1, 1, -1)%Q; (-1, 1, 1)%Q; (1, -1, 1)%Q; (-1, -1, 1)%Q]]
              [mkPass false (fun _ => 0)
                 [mkFrame (fun _ => (0, 0)%R) [false]; mkFrame (fun _ => (8, 0)%R) [true]] 1]
              (mkPass true (fun _ => 0) [] 0) (mkWorld [5; 1] tt))
    as (events & w' & H1 & H2 & _ & H4).
  - repeat (constructor; [unfold probeable; cbn; lia|]). constructor.
  - constructor; [|constructor]. split; [reflexivity|].
    apply Exists_cons_tl. apply Exists_cons_hd. reflexivity.
  - cbn. lia.
  - reflexivity.
  - destruct H4 as [He|(front & row & He)].
    + rewrite He in H2. discriminate H2.
    + exists events, w', front, row. split; [apply H1|]. split; [exact H2|exact He].
Defined.
